(** * gidget: filesystem event triggered script executor

    A shallow embedding of the parts of [gidget.c] that decide the
    behaviour of option parsing ([gig_opts]), logging ([logx]), the
    configuration parse / inotify setup loop of [main], the assembly of
    the fully pathed object name in the event child, and the mail
    emitter of the event child.

    Conventions of the embedding:
    - a C string is a [list ascii] holding the characters before the
      terminating NUL; the terminator itself is implicit in the end of
      the list;
    - a [char] array is a capacity together with the log of the stores
      made into it, so that a store past the end of the array stays
      visible instead of being silently dropped;
    - [int] values that may be negative (descriptors, statuses, results
      of library calls) are [Z]; [uint32_t] values are [Z] reduced
      modulo 2^32; counters and indices are [nat];
    - library and kernel calls whose result depends on the machine
      ([pathconf], [inotify_add_watch], [popen], the clock, the pid) are
      fields of an environment record;
    - what the program reads without having initialised it is given
      from outside: whether [pony.script] is [NULL] by the environment,
      the cells of [fileOrFolder] by the memory that the array is
      allocated in;
    - output is an explicit trace of events. *)

From Stdlib Require Import String Ascii DecimalString HexadecimalString.
From Stdlib Require Import ZArith List Bool Arith Lia.
Import ListNotations.

Local Open Scope char_scope.
Local Open Scope list_scope.
Local Open Scope Z_scope.

(** ** C characters and strings *)

Module CStr.

Definition cstring := list ascii.

Definition str (s : string) : cstring := list_ascii_of_string s.

Definition NUL : ascii := Ascii.zero.
Definition LF : ascii := ascii_of_nat 10.
Definition TAB : ascii := ascii_of_nat 9.

Definition code (c : ascii) : nat := nat_of_ascii c.

(** [isprint] and [isdigit] in the "C" locale (the program never calls
    [setlocale]). *)
Definition isprint (c : ascii) : bool :=
  (32 <=? code c)%nat && (code c <=? 126)%nat.

Definition isdigit (c : ascii) : bool :=
  (48 <=? code c)%nat && (code c <=? 57)%nat.

Definition isspace (c : ascii) : bool :=
  (code c =? 32)%nat || ((9 <=? code c)%nat && (code c <=? 13)%nat).

Definition digit_val (c : ascii) : Z := Z.of_nat (code c) - 48.

(** Value of the longest prefix of decimal digits, accumulated left to
    right as [strtol] does in base 10. *)
Fixpoint digits_from (acc : Z) (s : cstring) : Z :=
  match s with
  | c :: s' => if isdigit c then digits_from (10 * acc + digit_val c) s' else acc
  | [] => acc
  end.

Fixpoint skip_space (s : cstring) : cstring :=
  match s with
  | c :: s' => if isspace c then skip_space s' else s
  | [] => []
  end.

Definition LONG_MAX : Z := 2 ^ 63 - 1.
Definition LONG_MIN : Z := - 2 ^ 63.

(** [strtol (s, NULL, 10)] on an LP64 machine: optional blanks, optional
    sign, digits; the result saturates at the ends of [long]. *)
Definition strtol10 (s : cstring) : Z :=
  let s1 := skip_space s in
  let signed :=
    match s1 with
    | c :: s2 =>
        if Ascii.eqb c "-" then - digits_from 0 s2
        else if Ascii.eqb c "+" then digits_from 0 s2
        else digits_from 0 s1
    | [] => 0
    end in
  Z.max LONG_MIN (Z.min LONG_MAX signed).

(** Conversion of an integer to [int]: the value modulo 2^32 brought
    into [-2^31, 2^31). *)
Definition to_int (z : Z) : Z := (z + 2 ^ 31) mod 2 ^ 32 - 2 ^ 31.

(** Conversion to [uint32_t]. *)
Definition to_uint32 (z : Z) : Z := z mod 2 ^ 32.

(** [atoi] as the GNU C library defines it: [(int) strtol (s, NULL, 10)]. *)
Definition atoi (s : cstring) : Z := to_int (strtol10 s).

(** [%d] and [%u] of [printf]. *)
Definition dec (z : Z) : cstring := str (DecimalString.NilZero.string_of_int (Z.to_int z)).

(** [%#.8x] of [printf] on a 32-bit unsigned value: at least eight
    hexadecimal digits, prefixed by [0x] unless the value is zero. *)
Definition hex_digits (z : Z) : cstring :=
  str (HexadecimalString.NilEmpty.string_of_uint (N.to_hex_uint (Z.to_N z))).

Definition hex8 (z : Z) : cstring :=
  let d := hex_digits z in
  let padded := repeat "0" (8 - length d) ++ d in
  if z =? 0 then padded else str "0x" ++ padded.

Definition strlen (s : cstring) : nat := length s.

End CStr.
Export CStr.

(** ** [char] arrays

    An array is its declared capacity and the log of the stores made
    through it, newest first.  Nothing stops a C store at an index at or
    past the capacity: it lands in whatever follows the array.  The log
    keeps such stores, and [in_bounds] tells whether there are any. *)

Module CArray.

Record t := mk { capacity : nat; stores : list (nat * ascii) }.

Definition fresh (cap : nat) : t := mk cap [].

Definition store (i : nat) (c : ascii) (a : t) : t :=
  mk (capacity a) ((i, c) :: stores a).

Fixpoint lookup (l : list (nat * ascii)) (i : nat) : option ascii :=
  match l with
  | [] => None
  | (j, c) :: l' => if (i =? j)%nat then Some c else lookup l' i
  end.

Definition load (a : t) (i : nat) : option ascii := lookup (stores a) i.

Definition in_bounds (a : t) : bool :=
  forallb (fun w => (fst w <? capacity a)%nat) (stores a).

(** The copying loop [while (( *q++ = *p++) != '\0') terminus++;] with
    [q] starting at index [i] of the array: every character of the
    source is stored, then its terminator; the returned index is that of
    the terminator. *)
Fixpoint copy_from (src : cstring) (i : nat) (a : t) : t * nat :=
  match src with
  | [] => (store i NUL a, i)
  | c :: src' =>
      if Ascii.eqb c NUL then (store i NUL a, i)
      else copy_from src' (S i) (store i c a)
  end.

Definition strcpy (a : t) (src : cstring) : t := fst (copy_from src 0 a).

(** The characters held by the cells [0 .. n-1]; a cell that was never
    stored shows as NUL. *)
Definition cell (a : t) (i : nat) : ascii :=
  match load a i with
  | Some c => c
  | None => NUL
  end.

Definition prefix (a : t) (n : nat) : cstring := map (cell a) (seq 0 n).

(** Reading the array as a C string: from index 0 up to the first NUL.
    A cell that was never stored ends the reading as well: it is zero in
    a zero-initialised object and indeterminate in an automatic one. *)
Fixpoint read_from (a : t) (i fuel : nat) : cstring :=
  match fuel with
  | O => []
  | S fuel' =>
      match load a i with
      | Some c => if Ascii.eqb c NUL then [] else c :: read_from a (S i) fuel'
      | None => []
      end
  end.

Definition c_str (a : t) : cstring := read_from a 0 (length (stores a)).

(** Reading an automatic array as a C string.  A cell that was never
    stored holds what the memory held when the array was allocated:
    [initial] gives these characters, from the first cell of the array
    on, and NUL behind them.  The reading goes from index 0 up to the
    first NUL, past the end of the array if it meets none before; no
    more than [length (stores a) + length initial] cells hold another
    character. *)
Definition cell_over (initial : cstring) (a : t) (i : nat) : ascii :=
  match load a i with
  | Some c => c
  | None => nth i initial NUL
  end.

Fixpoint read_over (initial : cstring) (a : t) (i fuel : nat) : cstring :=
  match fuel with
  | O => []
  | S fuel' =>
      let c := cell_over initial a i in
      if Ascii.eqb c NUL then [] else c :: read_over initial a (S i) fuel'
  end.

Definition c_str_over (initial : cstring) (a : t) : cstring :=
  read_over initial a 0 (length (stores a) + length initial).

End CArray.

(** ** Effects and outcomes *)

Inductive stream := stdout | stderr.

Inductive effect :=
| Print (fh : stream) (text : cstring)
| Syslog (priority : Z) (text : cstring)
| Popen (command : cstring)
| Mail (text : cstring)
| Pclose.

Inductive outcome (A : Type) :=
| Done (a : A)
| Exit (status : Z).
Arguments Done {A} a.
Arguments Exit {A} status.

(** A computation performs effects and then either yields a value or
    leaves the process through [exit]. *)
Definition prog (A : Type) : Type := list effect * outcome A.

Definition ret {A} (a : A) : prog A := ([], Done a).

Definition bind {A B} (m : prog A) (k : A -> prog B) : prog B :=
  match m with
  | (t, Done a) => let (t', r) := k a in (t ++ t', r)
  | (t, Exit s) => (t, Exit s)
  end.

Definition emit (e : effect) : prog unit := ([e], Done tt).

Definition exit {A} (status : Z) : prog A := ([], Exit status).

Definition trace {A} (m : prog A) : list effect := fst m.
Definition result {A} (m : prog A) : outcome A := snd m.

Notation "x <- m ;; k" := (bind m (fun x => k))
  (at level 61, m at next level, right associativity).
Notation "m ;; k" := (bind m (fun _ => k))
  (at level 61, right associativity).

Definition when (b : bool) (m : prog unit) : prog unit :=
  if b then m else ret tt.

(** ** The machine *)

Record env := {
  getpid : Z;
  (** the current time as [strftime (.., "%F %T", ..)] prints it *)
  clock : cstring;
  (** [sysconf (_SC_LOGIN_NAME_MAX)] *)
  LOGIN_NAME_MAX : Z;
  (** [pathconf (path, _PC_NAME_MAX)] *)
  pathconf_NAME_MAX : cstring -> Z;
  (** [inotify_add_watch (instanceHandle, path, mask)]; the first
      argument counts the calls made before this one *)
  inotify_add_watch : nat -> cstring -> Z -> Z;
  (** [errno] after the n-th call of [inotify_add_watch], and [strerror] *)
  errno_add_watch : nat -> Z;
  strerror : Z -> cstring;
  (** whether [popen (MAILCOMMAND, "w")] yields a stream *)
  popen_mail : bool;
  (** the time as [ctime_r] prints it, newline stripped *)
  mailTime : cstring;
  (** [_PATH_SENDMAIL] as the build sees it; [gidgetmail.h] falls back
      to [/usr/lib/sendmail] when no header defines it *)
  PATH_SENDMAIL : cstring;
  (** whether [pony.script == NULL] holds in the frame of [main] before
      the program stores a pointer there: [pony] is not initialised *)
  pony_script_NULL : bool
}.

(** ** Options *)

Definition GVERSION : cstring := str "1.01".
Definition DEFAULT_CONFIG_FILE : cstring := str "/etc/gidget.conf".
Definition MAX_CONFIG_NAME_LEN : nat := 256.
Definition DEFAULT_LOG_FILE : cstring := str "/var/log/gidget".
Definition MAX_LOG_NAME_LEN : nat := 256.
Definition DEFAULT_PID_FILE : cstring := str "/var/run/gidget.pid".
Definition MAX_PID_NAME_LEN : nat := 128.

(** [struct opts_t].  In the struct the three arrays lie side by side,
    [config] before [logfile] before [pidfile], so that a store past the
    end of one lands in the next.  Here each array keeps the log of the
    stores made through it, those past its end included, and
    [CArray.in_bounds] tells whether there are any: what is read from
    an array is what the program reads as long as the arrays of the
    struct have been written in bounds. *)
Record opts_t := {
  daemon : Z;
  verbose : Z;
  log2file : Z;
  syslog : Z;
  sloglev : Z;
  config : CArray.t;
  logfile : CArray.t;
  pidfile : CArray.t
}.

Definition set_daemon (v : Z) (o : opts_t) : opts_t :=
  {| daemon := v; verbose := verbose o; log2file := log2file o;
     syslog := syslog o; sloglev := sloglev o; config := config o;
     logfile := logfile o; pidfile := pidfile o |}.
Definition set_verbose (v : Z) (o : opts_t) : opts_t :=
  {| daemon := daemon o; verbose := v; log2file := log2file o;
     syslog := syslog o; sloglev := sloglev o; config := config o;
     logfile := logfile o; pidfile := pidfile o |}.
Definition set_log2file (v : Z) (o : opts_t) : opts_t :=
  {| daemon := daemon o; verbose := verbose o; log2file := v;
     syslog := syslog o; sloglev := sloglev o; config := config o;
     logfile := logfile o; pidfile := pidfile o |}.
Definition set_syslog (v : Z) (o : opts_t) : opts_t :=
  {| daemon := daemon o; verbose := verbose o; log2file := log2file o;
     syslog := v; sloglev := sloglev o; config := config o;
     logfile := logfile o; pidfile := pidfile o |}.
Definition set_sloglev (v : Z) (o : opts_t) : opts_t :=
  {| daemon := daemon o; verbose := verbose o; log2file := log2file o;
     syslog := syslog o; sloglev := v; config := config o;
     logfile := logfile o; pidfile := pidfile o |}.
Definition set_config (v : CArray.t) (o : opts_t) : opts_t :=
  {| daemon := daemon o; verbose := verbose o; log2file := log2file o;
     syslog := syslog o; sloglev := sloglev o; config := v;
     logfile := logfile o; pidfile := pidfile o |}.
Definition set_logfile (v : CArray.t) (o : opts_t) : opts_t :=
  {| daemon := daemon o; verbose := verbose o; log2file := log2file o;
     syslog := syslog o; sloglev := sloglev o; config := config o;
     logfile := v; pidfile := pidfile o |}.
Definition set_pidfile (v : CArray.t) (o : opts_t) : opts_t :=
  {| daemon := daemon o; verbose := verbose o; log2file := log2file o;
     syslog := syslog o; sloglev := sloglev o; config := config o;
     logfile := logfile o; pidfile := v |}.

(** *** [getopt]

    The C library's [getopt], as the GNU C library runs it for an option
    string that starts with a colon and with [POSIXLY_CORRECT] unset:
    options may be clustered after one dash, an option that takes an
    argument takes the rest of its cluster or else the next element of
    [argv], a missing argument is reported as [':'], an unknown option
    as ['?'], no message is printed, and the elements of [argv] that are
    not options are left, in order, from [argv[optind]] on. *)

Inductive getopt_t :=
| Opt (o : ascii) (optarg : cstring)   (* the option character is returned *)
| Missing (optopt : ascii)             (* ':' is returned *)
| Unknown (optopt : ascii).            (* '?' is returned *)

Definition optstring : cstring := str ":dVvc:l:p:s:".

(** [Some true]: the option takes an argument; [Some false]: it takes
    none; [None]: the character is no option. *)
Fixpoint opt_kind (spec : cstring) (c : ascii) : option bool :=
  match spec with
  | [] => None
  | o :: spec' =>
      if Ascii.eqb o c && negb (Ascii.eqb c ":") then
        Some (match spec' with
              | k :: _ => Ascii.eqb k ":"
              | [] => false
              end)
      else opt_kind spec' c
  end.

(** The options of one element of [argv], [cl] being what follows its
    dash; the boolean tells whether the next element was taken as an
    argument. *)
Fixpoint scan_cluster (cl : cstring) (next : option cstring)
  : list getopt_t * bool :=
  match cl with
  | [] => ([], false)
  | c :: cl' =>
      match opt_kind optstring c with
      | None =>
          let (r, used) := scan_cluster cl' next in (Unknown c :: r, used)
      | Some false =>
          let (r, used) := scan_cluster cl' next in (Opt c [] :: r, used)
      | Some true =>
          match cl' with
          | _ :: _ => ([Opt c cl'], false)
          | [] =>
              match next with
              | Some a => ([Opt c a], true)
              | None => ([Missing c], false)
              end
          end
      end
  end.

Definition is_dashdash (a : cstring) : bool :=
  match a with
  | [c1; c2] => Ascii.eqb c1 "-" && Ascii.eqb c2 "-"
  | _ => false
  end.

(** What follows the dash, for an element of [argv] that holds options:
    a dash and at least one more character. *)
Definition cluster_of (a : cstring) : option cstring :=
  match a with
  | c :: ((_ :: _) as cl) => if Ascii.eqb c "-" then Some cl else None
  | _ => None
  end.

(** All the results of the successive calls of [getopt] over
    [argv[1..]], and the elements left at [argv[optind..]] when it
    returns -1. *)
Fixpoint getopt_all (args : list cstring) : list getopt_t * list cstring :=
  match args with
  | [] => ([], [])
  | a :: rest =>
      if is_dashdash a then ([], rest)
      else
        match cluster_of a with
        | Some cl =>
            match rest with
            | [] => (fst (scan_cluster cl None), [])
            | b :: rest' =>
                let (r, used) := scan_cluster cl (Some b) in
                let (r', ops) := getopt_all (if used then rest' else rest) in
                (r ++ r', ops)
            end
        | None => let (r', ops) := getopt_all rest in (r', a :: ops)
        end
  end.

(** *** [usage] *)

Definition usage_text : cstring :=
  [LF] ++ str "Run programs when specific filesystem events occur" ++ [LF]
  ++ [LF] ++ str "Usage: gidget [OPTION]" ++ [LF]
  ++ [TAB] ++ str "-c filename" ++ [TAB]
  ++ str "override default configuration file" ++ [LF]
  ++ [TAB] ++ str "-d         " ++ [TAB]
  ++ str "run as a system daemon, using pid & log files" ++ [LF]
  ++ [TAB] ++ str "-l logfile " ++ [TAB]
  ++ str "override default error and event logging" ++ [LF]
  ++ [TAB] ++ str "-p pidfile " ++ [TAB]
  ++ str "override default daemon process id file" ++ [LF]
  ++ [TAB] ++ str "-s [n]     " ++ [TAB]
  ++ str "use syslog to log events at level n" ++ [LF]
  ++ [TAB] ++ str "-V         " ++ [TAB] ++ str "print version string" ++ [LF]
  ++ [TAB] ++ str "-v         " ++ [TAB] ++ str "be exceptionally verbose" ++ [LF]
  ++ [TAB] ++ str "-?         " ++ [TAB] ++ str "these messages" ++ [LF]
  ++ [LF]
  ++ str "NOTE syslog levels are 0-7, higher number indicating lower priority"
  ++ [LF; LF]
  ++ str "Warnings and significant events will be logged to stdout unless"
  ++ [LF]
  ++ str "a logfile is requested or gidget is running as a daemon."
  ++ [LF; LF].

Definition usage {A} (fh : stream) : prog A :=
  emit (Print fh usage_text) ;; exit 1.

(** *** [gig_opts] *)

(** [opts_t opt={0,0,0,0,0}] followed by the three [strcpy] of the
    defaults. *)
Definition opt_default : opts_t :=
  {| daemon := 0; verbose := 0; log2file := 0; syslog := 0; sloglev := 0;
     config := CArray.strcpy (CArray.fresh MAX_CONFIG_NAME_LEN) DEFAULT_CONFIG_FILE;
     logfile := CArray.strcpy (CArray.fresh MAX_LOG_NAME_LEN) DEFAULT_LOG_FILE;
     pidfile := CArray.strcpy (CArray.fresh MAX_PID_NAME_LEN) DEFAULT_PID_FILE |}.

(** One turn of the [switch] inside the [while] over [getopt]. *)
Definition gig_opt (opt : opts_t) (g : getopt_t) : prog opts_t :=
  match g with
  | Missing optopt =>
      if Ascii.eqb optopt "s" then
        ret (set_sloglev 3 opt)
      else
        emit (Print stderr (str "Option -" ++ [optopt]
                            ++ str " requires an argument." ++ [LF])) ;;
        ret opt
  | Unknown _ => usage stdout
  | Opt o optarg =>
      if Ascii.eqb o "d" then
        ret (set_log2file 1 (set_daemon 1 opt))
      else if Ascii.eqb o "V" then
        emit (Print stdout ([LF] ++ str "Gidget v" ++ GVERSION
                            ++ str " Goddard & Brooks 2011" ++ [LF; LF])) ;;
        exit 0
      else if Ascii.eqb o "v" then
        ret (set_verbose 1 opt)
      else if Ascii.eqb o "c" then
        if (MAX_CONFIG_NAME_LEN <? strlen optarg)%nat then
          emit (Print stderr (str "configuration file name too long!" ++ [LF])) ;;
          exit 1
        else ret (set_config (CArray.strcpy (config opt) optarg) opt)
      else if Ascii.eqb o "l" then
        if (MAX_LOG_NAME_LEN <? strlen optarg)%nat then
          emit (Print stderr (str "log file name too long!" ++ [LF])) ;;
          exit 1
        else
          ret (set_log2file 1 (set_logfile (CArray.strcpy (logfile opt) optarg) opt))
      else if Ascii.eqb o "p" then
        if (MAX_PID_NAME_LEN <? strlen optarg)%nat then
          emit (Print stderr (str "Pid file name too long!" ++ [LF])) ;;
          exit 1
        else ret (set_pidfile (CArray.strcpy (pidfile opt) optarg) opt)
      else if Ascii.eqb o "s" then
        let lev :=
          match optarg with
          | [c] => if isdigit c then atoi optarg else -1
          | _ => -1
          end in
        if (lev >? 7) || (lev <? 0) then usage stderr
        else ret (set_syslog 1 (set_sloglev lev opt))
      else usage stderr
  end.

Fixpoint gig_opts_loop (opt : opts_t) (gs : list getopt_t) : prog opts_t :=
  match gs with
  | [] => ret opt
  | g :: gs' => opt' <- gig_opt opt g ;; gig_opts_loop opt' gs'
  end.

(** What follows the loop: the configuration file named without [-c],
    and the refusal of anything after it. *)
Definition gig_opts_operands (opt : opts_t) (operands : list cstring)
  : prog opts_t :=
  match operands with
  | [] => ret opt
  | a :: more =>
      opt' <- (if (MAX_CONFIG_NAME_LEN <? strlen a)%nat then
                 emit (Print stderr (str "configuration file name too long!" ++ [LF])) ;;
                 exit 1
               else ret (set_config (CArray.strcpy (config opt) a) opt)) ;;
      match more with
      | [] => ret opt'
      | _ :: _ => usage stderr
      end
  end.

(** [argv] is the whole vector, [argv[0]] included. *)
Definition gig_opts (argv : list cstring) : prog opts_t :=
  let (gs, operands) := getopt_all (tl argv) in
  opt <- gig_opts_loop opt_default gs ;;
  gig_opts_operands opt operands.

(** ** [logx] *)

Definition pidString (E : env) : cstring :=
  if getpid E <? 0 then str "[unknown]"
  else str "[" ++ dec (getpid E) ++ str "]".

Definition log_line (E : env) (logtxt : cstring) : cstring :=
  str "gidget" ++ pidString E ++ str ": " ++ clock E ++ str " " ++ logtxt ++ [LF].

Definition logx (E : env) (xstatus : Z) (opt : opts_t) (logtxt : cstring)
  : prog unit :=
  let logstream := if xstatus =? 0 then stdout else stderr in
  let logtxt :=
    if (strlen logtxt <=? 0)%nat then
      if xstatus =? 0 then str "Missing log string. This should not happen."
      else str "The sky is falling!  The sky is falling!"
    else logtxt in
  emit (Print logstream (log_line E logtxt)) ;;
  when (syslog opt =? 1) (emit (Syslog (sloglev opt) (log_line E logtxt))) ;;
  if xstatus =? 0 then ret tt else exit xstatus.

(** ** [logtxt]

    [main] prints the text of a line of the log into its array [logtxt]
    before it hands the array to [logx]. *)

Definition MAX_ERR_TEXT_LEN : nat := 1640.

(** [logtxt] after [sprintf(logtxt, ...)] has written [text], which is
    what the conversions of the format print: the characters and their
    terminator, from index 0 on, and past the end of the array when
    they do not fit. *)
Definition sprintf_logtxt (text : cstring) : CArray.t :=
  CArray.strcpy (CArray.fresh MAX_ERR_TEXT_LEN) text.

(** [sprintf(logtxt, ...); logx(xstatus, opt, logtxt);]: [logx] reads
    the text from the array. *)
Definition sprintf_logx (E : env) (xstatus : Z) (opt : opts_t)
  (text : cstring) : prog unit :=
  logx E xstatus opt (CArray.c_str (sprintf_logtxt text)).

(** ** The configuration parse / inotify setup loop of [main]

    Heap allocation is taken to succeed: the branches of [main] that
    test the result of [malloc] or [realloc] against [NULL] are left
    out.  The test in the fifth turn of the [switch] is kept: it is
    made on [pony.script], not on the result of the [malloc] before
    it. *)

Record trick_t := {
  watchHandle : Z;      (* inotify watch descriptor *)
  actions : Z;          (* bitmap of what to watch for *)
  fileName : cstring;   (* file or directory to be watched *)
  script : cstring;     (* executable object to run *)
  userid : cstring;     (* user who will run script *)
  mail : cstring        (* email to recieve script output *)
}.

Definition set_watchHandle (v : Z) (t : trick_t) : trick_t :=
  {| watchHandle := v; actions := actions t; fileName := fileName t;
     script := script t; userid := userid t; mail := mail t |}.
Definition set_actions (v : Z) (t : trick_t) : trick_t :=
  {| watchHandle := watchHandle t; actions := v; fileName := fileName t;
     script := script t; userid := userid t; mail := mail t |}.
Definition set_fileName (v : cstring) (t : trick_t) : trick_t :=
  {| watchHandle := watchHandle t; actions := actions t; fileName := v;
     script := script t; userid := userid t; mail := mail t |}.
Definition set_script (v : cstring) (t : trick_t) : trick_t :=
  {| watchHandle := watchHandle t; actions := actions t; fileName := fileName t;
     script := v; userid := userid t; mail := mail t |}.
Definition set_userid (v : cstring) (t : trick_t) : trick_t :=
  {| watchHandle := watchHandle t; actions := actions t; fileName := fileName t;
     script := script t; userid := v; mail := mail t |}.
Definition set_mail (v : cstring) (t : trick_t) : trick_t :=
  {| watchHandle := watchHandle t; actions := actions t; fileName := fileName t;
     script := script t; userid := userid t; mail := v |}.

Definition maxScriptLen : Z := 256.
Definition maxEmailLen : Z := 36.
Definition apostrophe : ascii := ascii_of_nat 39.
Definition slash : ascii := ascii_of_nat 47.
Definition space : ascii := ascii_of_nat 32.

(** The variables of [main] that the loop reads and writes.  [watches]
    is not a variable of the program: it counts the calls of
    [inotify_add_watch] made so far, which is what the kernel's answer
    may depend on.  [scriptNULL] is not one either: it tells whether
    [pony.script == NULL], the strings of [pony] being held by value. *)
Record main_t := {
  trickHeap : list trick_t;
  pony : trick_t;
  maxNameLen : Z;
  lineNo : nat;
  trickCount : nat;
  badPony : Z;
  fieldNo : nat;
  tokenStart : nat;
  watches : nat;
  scriptNULL : bool
}.

Definition set_trickHeap (v : list trick_t) (m : main_t) : main_t :=
  {| trickHeap := v; pony := pony m; maxNameLen := maxNameLen m;
     lineNo := lineNo m; trickCount := trickCount m; badPony := badPony m;
     fieldNo := fieldNo m; tokenStart := tokenStart m; watches := watches m;
     scriptNULL := scriptNULL m |}.
Definition set_pony (v : trick_t) (m : main_t) : main_t :=
  {| trickHeap := trickHeap m; pony := v; maxNameLen := maxNameLen m;
     lineNo := lineNo m; trickCount := trickCount m; badPony := badPony m;
     fieldNo := fieldNo m; tokenStart := tokenStart m; watches := watches m;
     scriptNULL := scriptNULL m |}.
Definition set_maxNameLen (v : Z) (m : main_t) : main_t :=
  {| trickHeap := trickHeap m; pony := pony m; maxNameLen := v;
     lineNo := lineNo m; trickCount := trickCount m; badPony := badPony m;
     fieldNo := fieldNo m; tokenStart := tokenStart m; watches := watches m;
     scriptNULL := scriptNULL m |}.
Definition set_lineNo (v : nat) (m : main_t) : main_t :=
  {| trickHeap := trickHeap m; pony := pony m; maxNameLen := maxNameLen m;
     lineNo := v; trickCount := trickCount m; badPony := badPony m;
     fieldNo := fieldNo m; tokenStart := tokenStart m; watches := watches m;
     scriptNULL := scriptNULL m |}.
Definition set_trickCount (v : nat) (m : main_t) : main_t :=
  {| trickHeap := trickHeap m; pony := pony m; maxNameLen := maxNameLen m;
     lineNo := lineNo m; trickCount := v; badPony := badPony m;
     fieldNo := fieldNo m; tokenStart := tokenStart m; watches := watches m;
     scriptNULL := scriptNULL m |}.
Definition set_badPony (v : Z) (m : main_t) : main_t :=
  {| trickHeap := trickHeap m; pony := pony m; maxNameLen := maxNameLen m;
     lineNo := lineNo m; trickCount := trickCount m; badPony := v;
     fieldNo := fieldNo m; tokenStart := tokenStart m; watches := watches m;
     scriptNULL := scriptNULL m |}.
Definition set_fieldNo (v : nat) (m : main_t) : main_t :=
  {| trickHeap := trickHeap m; pony := pony m; maxNameLen := maxNameLen m;
     lineNo := lineNo m; trickCount := trickCount m; badPony := badPony m;
     fieldNo := v; tokenStart := tokenStart m; watches := watches m;
     scriptNULL := scriptNULL m |}.
Definition set_tokenStart (v : nat) (m : main_t) : main_t :=
  {| trickHeap := trickHeap m; pony := pony m; maxNameLen := maxNameLen m;
     lineNo := lineNo m; trickCount := trickCount m; badPony := badPony m;
     fieldNo := fieldNo m; tokenStart := v; watches := watches m;
     scriptNULL := scriptNULL m |}.
Definition set_watches (v : nat) (m : main_t) : main_t :=
  {| trickHeap := trickHeap m; pony := pony m; maxNameLen := maxNameLen m;
     lineNo := lineNo m; trickCount := trickCount m; badPony := badPony m;
     fieldNo := fieldNo m; tokenStart := tokenStart m; watches := v;
     scriptNULL := scriptNULL m |}.
Definition set_scriptNULL (v : bool) (m : main_t) : main_t :=
  {| trickHeap := trickHeap m; pony := pony m; maxNameLen := maxNameLen m;
     lineNo := lineNo m; trickCount := trickCount m; badPony := badPony m;
     fieldNo := fieldNo m; tokenStart := tokenStart m; watches := watches m;
     scriptNULL := v |}.

Definition truthy (z : Z) : bool := negb (z =? 0).
Definition decn (n : nat) : cstring := dec (Z.of_nat n).

(** *** The texts that the loop logs *)

Definition msg_invisible (opt : opts_t) (lineNo recordLen : nat) : cstring :=
  str "invisible character in file " ++ CArray.c_str (config opt)
  ++ str " line " ++ decn lineNo ++ str " position " ++ decn (recordLen + 1).

Definition msg_illegal (opt : opts_t) (lineNo recordLen : nat) : cstring :=
  str "illegal character in file " ++ CArray.c_str (config opt)
  ++ str " line " ++ decn lineNo ++ str " position " ++ decn (recordLen + 1).

Definition msg_pathconf (confToken : cstring) : cstring :=
  str "Can't determine max file name length for filesystem hosting "
  ++ confToken.

Definition msg_maxname (m : Z) : cstring :=
  str "Maximum file name length set to " ++ dec m ++ str "...".

Definition msg_mask (opt : opts_t) (lineNo : nat) : cstring :=
  str "ERROR: non-numeric event mask in " ++ CArray.c_str (config opt)
  ++ str " line " ++ decn lineNo ++ str " field 2".

Definition msg_script (opt : opts_t) (lineNo : nat) : cstring :=
  str "ERROR: script name too long in " ++ CArray.c_str (config opt)
  ++ str " line " ++ decn lineNo ++ str " field 3".

Definition msg_email (opt : opts_t) (lineNo : nat) : cstring :=
  str "Email address too long in " ++ CArray.c_str (config opt)
  ++ str " line " ++ decn lineNo ++ str " field 5".

Definition msg_alloc_mail (confToken : cstring) (lineNo : nat) : cstring :=
  str "Can't allocate memory for email address " ++ confToken
  ++ str " in line " ++ decn lineNo.

Definition msg_too_many (lineNo : nat) (confToken : cstring) : cstring :=
  str "TOO MANY FIELDS IN LINE " ++ decn lineNo ++ str " - DISCARDING "
  ++ confToken ++ str "!".

Definition msg_discard (opt : opts_t) (lineNo : nat) : cstring :=
  str "ERROR: discarding " ++ CArray.c_str (config opt)
  ++ str " line " ++ decn lineNo ++ str "!".

Definition msg_add_watch (E : env) (n : nat) (p : trick_t) : cstring :=
  str "ERROR " ++ dec (watchHandle p) ++ str ": Unable to add watch for "
  ++ fileName p ++ [TAB] ++ strerror E (errno_add_watch E n)
  ++ str " (" ++ dec (errno_add_watch E n) ++ str ")".

Definition msg_heap_corrupt : cstring :=
  str "FATAL ERROR!" ++ str " "
  ++ str "Heap corrupt, non-sequential watch descriptor" ++ str " "
  ++ str "returned from inotify!".

Definition msg_added (p : trick_t) : cstring :=
  str "Added watch " ++ fileName p ++ str " mask " ++ hex8 (actions p)
  ++ str " handle " ++ dec (watchHandle p) ++ str ".".

(** *** One character of a configuration line *)

(** The test for invisible and illegal characters. *)
Definition check_char (E : env) (opt : opts_t) (recordLen : nat) (c : ascii)
  (m : main_t) : prog main_t :=
  if negb (isprint c) then
    if negb (Ascii.eqb c LF) then
      sprintf_logx E 0 opt (msg_invisible opt (lineNo m) recordLen) ;;
      ret (set_badPony 1 m)
    else ret m
  else
    if Ascii.eqb c apostrophe then
      sprintf_logx E 0 opt (msg_illegal opt (lineNo m) recordLen) ;;
      ret (set_badPony 1 m)
    else ret m.

(** [confToken] after [confToken[fieldLen] = '\0'] and [strncpy]. *)
Definition token (confLine : cstring) (tokenStart fieldLen : nat) : cstring :=
  firstn fieldLen (skipn tokenStart confLine).

(** The [switch (fieldNo)], [fieldNo] already incremented. *)
Definition load_field (E : env) (opt : opts_t) (confToken : cstring)
  (fieldLen : nat) (m : main_t) : prog main_t :=
  match fieldNo m with
  | 1%nat =>
      let n := pathconf_NAME_MAX E confToken in
      if n <=? 0 then
        sprintf_logx E 0 opt (msg_pathconf confToken) ;;
        ret (set_badPony 1 m)
      else
        m1 <- (if n >? maxNameLen m then
                 when (truthy (verbose opt)) (sprintf_logx E 0 opt (msg_maxname n)) ;;
                 ret (set_maxNameLen n m)
               else ret m) ;;
        ret (set_pony (set_fileName confToken (pony m1)) m1)
  | 2%nat =>
      if forallb isdigit confToken then
        ret (set_pony (set_actions (to_uint32 (atoi confToken)) (pony m)) m)
      else
        sprintf_logx E 0 opt (msg_mask opt (lineNo m)) ;;
        ret (set_badPony 2 m)
  | 3%nat =>
      if Z.of_nat fieldLen >? maxScriptLen then
        sprintf_logx E 0 opt (msg_script opt (lineNo m)) ;;
        ret (set_badPony 3 m)
      else ret (set_scriptNULL false (set_pony (set_script confToken (pony m)) m))
  | 4%nat =>
      if Z.of_nat fieldLen >? LOGIN_NAME_MAX E then
        sprintf_logx E 0 opt (msg_script opt (lineNo m)) ;;
        ret (set_badPony 4 m)
      else ret (set_pony (set_userid confToken (pony m)) m)
  | 5%nat =>
      if Z.of_nat fieldLen >? maxEmailLen then
        sprintf_logx E 0 opt (msg_email opt (lineNo m)) ;;
        ret (set_badPony 7 m)
      else if scriptNULL m then
        sprintf_logx E 0 opt (msg_alloc_mail confToken (lineNo m)) ;;
        ret (set_badPony 8 m)
      else ret (set_pony (set_mail confToken (pony m)) m)
  | _ =>
      sprintf_logx E 0 opt (msg_too_many (lineNo m) confToken) ;;
      ret m
  end.

(** What is done when a field delimiter is found at [recordLen]. *)
Definition take_field (E : env) (opt : opts_t) (confLine : cstring)
  (recordLen : nat) (m : main_t) : prog main_t :=
  let m := set_fieldNo (S (fieldNo m)) m in
  let fieldLen := (recordLen - tokenStart m)%nat in
  let confToken := token confLine (tokenStart m) fieldLen in
  m' <- load_field E opt confToken fieldLen m ;;
  ret (set_tokenStart (recordLen + 1) m').

Definition is_delimiter (c : ascii) : bool :=
  Ascii.eqb c ":" || Ascii.eqb c LF.

Definition ends_record (c : ascii) : bool :=
  Ascii.eqb c NUL || Ascii.eqb c "#".

(** The [for] loop over the characters of [confLine]; [rest] is what
    [confLine] holds from index [recordLen] on. *)
Fixpoint scan_record (E : env) (opt : opts_t) (confLine rest : cstring)
  (recordLen : nat) (m : main_t) : prog main_t :=
  match rest with
  | [] => ret m
  | c :: rest' =>
      if ends_record c then ret m
      else
        m1 <- check_char E opt recordLen c m ;;
        m2 <- (if is_delimiter c then take_field E opt confLine recordLen m1
               else ret m1) ;;
        scan_record E opt confLine rest' (S recordLen) m2
  end.

(** *** Loading the pony into the heap *)

Definition add_trick (E : env) (opt : opts_t) (m : main_t) : prog main_t :=
  let n := watches m in
  let wd := inotify_add_watch E n (fileName (pony m)) (actions (pony m)) in
  let m := set_watches (S n) (set_pony (set_watchHandle wd (pony m)) m) in
  if wd <? 0 then
    sprintf_logx E 0 opt (msg_add_watch E n (pony m)) ;;
    sprintf_logx E 0 opt (msg_discard opt (lineNo m)) ;;
    ret m
  else
    when (negb (wd =? Z.of_nat (trickCount m) + 1))
         (sprintf_logx E 2 opt msg_heap_corrupt) ;;
    when (truthy (verbose opt)) (sprintf_logx E 0 opt (msg_added (pony m))) ;;
    ret (set_trickCount (S (trickCount m))
           (set_trickHeap (trickHeap m ++ [pony m]) m)).

(** The head of the body of the [while] over [fgets]: the line is
    counted, and the variables of the scan are reset. *)
Definition line_start (m : main_t) : main_t :=
  let m := set_lineNo (S (lineNo m)) m in
  set_badPony 0 (set_tokenStart 0 (set_fieldNo 0 m)).

(** What follows the [for] loop: empty lines and full-line comments are
    skipped, a bad pony is discarded, a good one is loaded. *)
Definition accept_line (E : env) (opt : opts_t) (m : main_t) : prog main_t :=
  if negb (fieldNo m =? 0)%nat then
    if truthy (badPony m) || (fieldNo m <? 5)%nat then
      sprintf_logx E 0 opt (msg_discard opt (lineNo m)) ;;
      ret m
    else add_trick E opt m
  else ret m.

(** The body of the [while] over [fgets]: one line of the file. *)
Definition load_line (E : env) (opt : opts_t) (m : main_t)
  (confLine : cstring) : prog main_t :=
  m <- scan_record E opt confLine confLine 0 (line_start m) ;;
  accept_line E opt m.

(** The whole loop, over the lines that [fgets] hands out in turn. *)
Fixpoint load_lines (E : env) (opt : opts_t) (m : main_t)
  (configFile : list cstring) : prog main_t :=
  match configFile with
  | [] => ret m
  | confLine :: more =>
      m' <- load_line E opt m confLine ;;
      load_lines E opt m' more
  end.

(** [main]'s variables when the loop is entered.  [pony] is not
    initialised by the program; its fields are all assigned before a
    line is accepted.  Whether its pointer [script] is [NULL] before the
    first script is stored is for the machine to tell: [main0] has it
    [NULL], [main_on] as the machine has it. *)
Definition pony0 : trick_t :=
  {| watchHandle := 0; actions := 0; fileName := []; script := [];
     userid := []; mail := [] |}.

Definition main0 : main_t :=
  {| trickHeap := []; pony := pony0; maxNameLen := 0; lineNo := 0;
     trickCount := 0; badPony := 0; fieldNo := 0; tokenStart := 0;
     watches := 0; scriptNULL := true |}.

Definition main_on (E : env) : main_t :=
  set_scriptNULL (pony_script_NULL E) main0.

Definition load_config (E : env) (opt : opts_t) (configFile : list cstring)
  : prog main_t :=
  load_lines E opt (main_on E) configFile.

(** ** The event child: the fully pathed name of the triggering object *)

(** An event as it lies in [buf]: the header of [struct inotify_event],
    and in [name] the bytes that follow the header up to the end of
    [buf]. *)
Record event_t := {
  wd : Z;
  mask : Z;
  cookie : Z;
  len : nat;
  name : list ascii
}.

Definition mungeChar : cstring := str "%27".

Definition msg_overflow : cstring := str "filesystem object name overflow!".

(** The [for] loop over [event->name]; [rest] is [name] from index [i]
    on.  Reading stops at the end of [buf] as it does at a NUL. *)
Fixpoint munge_name (E : env) (opt : opts_t) (maxNameLen : Z) (len : nat)
  (rest : list ascii) (i : nat) (fileOrFolder : CArray.t) (terminus : nat)
  : prog (CArray.t * nat) :=
  match rest with
  | [] => ret (fileOrFolder, terminus)
  | c :: rest' =>
      if (i <=? len)%nat && negb (Ascii.eqb c NUL) then
        let (fileOrFolder', terminus') :=
          if Ascii.eqb c apostrophe then
            CArray.copy_from mungeChar terminus fileOrFolder
          else (CArray.store terminus c fileOrFolder, S terminus) in
        when (Z.of_nat terminus' >? maxNameLen) (logx E 13 opt msg_overflow) ;;
        munge_name E opt maxNameLen len rest' (S i) fileOrFolder' terminus'
      else ret (fileOrFolder, terminus)
  end.

(** From [int terminus=0] to the end of the [for] loop. *)
Definition assemble (E : env) (opt : opts_t) (maxNameLen : Z) (pony : trick_t)
  (event : event_t) : prog (CArray.t * nat) :=
  let fileOrFolder := CArray.fresh (Z.to_nat maxNameLen) in
  let (fileOrFolder, terminus) :=
    CArray.copy_from (fileName pony) 0 fileOrFolder in
  let fileOrFolder := CArray.store terminus slash fileOrFolder in
  let terminus := S terminus in
  munge_name E opt maxNameLen (len event) (name event) 0 fileOrFolder terminus.

(** The assembled name: what the array holds below [terminus]. *)
Definition assembled (r : CArray.t * nat) : cstring :=
  CArray.prefix (fst r) (snd r).

(** What the program reads when it reads [fileOrFolder] as a string,
    as [strlen] and [strcat] do: the loop stores no terminator behind
    the name unless the last character read is an apostrophe, so that
    the reading goes on into the cells that were never stored.
    [initial] is what the memory held when the array was allocated. *)
Definition fileOrFolder_read (initial : cstring) (r : CArray.t * nat)
  : cstring :=
  CArray.c_str_over initial (fst r).

(** The trick of an event: [pony = *trickHeap[(event->wd) - 1]]; outside
    the heap the read has no defined result. *)
Definition trick_of (m : main_t) (event : event_t) : option trick_t :=
  if wd event <? 1 then None
  else nth_error (trickHeap m) (Z.to_nat (wd event - 1)).

(** ** The event child: mailing the output of the script *)

Definition MAIL_OPTIONS : cstring := str " -Fgidget -odi -oem -oi -t ".
Definition MAILCOMMAND (E : env) : cstring := PATH_SENDMAIL E ++ MAIL_OPTIONS.

(** The lines written to [mailslot] before the output of the script. *)
Definition mail_headers (E : env) (pony : trick_t) (event : event_t)
  (fileOrFolder shell command : cstring) : list cstring :=
  [ str "From: " ++ userid pony ++ str " (gidget)" ++ [LF];
    str "To: " ++ mail pony ++ [LF];
    str "Subject: gidget event: " ++ fileOrFolder ++ [LF];
    str "Date: " ++ mailTime E ++ [LF];
    str "Auto-Submitted: auto-generated" ++ [LF];
    str "X-gidget-object: " ++ fileOrFolder ++ [LF];
    str "X-gidget-watch: " ++ dec (wd event) ++ [LF];
    str "X-gidget-mask: " ++ dec (to_int (mask event)) ++ [LF; LF];
    shell ++ str " -c " ++ command ++ str ":" ++ [LF; LF] ].

Fixpoint emit_all (texts : list cstring) : prog unit :=
  match texts with
  | [] => ret tt
  | t :: more => emit (Mail t) ;; emit_all more
  end.

(** The loop [while ((ch = getc(fromPipe)) != EOF)] with its body
    [bytesMailed++; putc(ch, mailslot);]. *)
Fixpoint pump (fromPipe : list ascii) (bytesMailed : nat) : prog nat :=
  match fromPipe with
  | [] => ret bytesMailed
  | ch :: more => emit (Mail [ch]) ;; pump more (S bytesMailed)
  end.

Definition msg_mailed (E : env) (ppid : Z) (bytesMailed : nat) : cstring :=
  str "parentpid [" ++ dec ppid ++ str "] mailed " ++ decn bytesMailed
  ++ str " bytes of output to " ++ PATH_SENDMAIL E.

(** The parent of the grandchild, from [int bytesMailed = 0] to the log
    of the number of bytes mailed.  [fromPipe] is everything that the
    script writes to the pipe before closing it. *)
Definition mail_output (E : env) (opt : opts_t) (ppid : Z) (pony : trick_t)
  (event : event_t) (fileOrFolder shell command : cstring)
  (fromPipe : list ascii) : prog nat :=
  bytesMailed <-
    match fromPipe with
    | [] => ret 0%nat
    | ch :: more =>
        emit (Popen (MAILCOMMAND E)) ;;
        if popen_mail E then
          emit_all (mail_headers E pony event fileOrFolder shell command) ;;
          emit (Mail [ch]) ;;
          n <- pump more 0 ;;
          emit Pclose ;;
          ret n
        else ret 0%nat
    end ;;
  when (negb (bytesMailed =? 0)%nat) (logx E 0 opt (msg_mailed E ppid bytesMailed)) ;;
  ret bytesMailed.

(** What a trace writes to the mail transport, and how often it opens it. *)
Fixpoint mailed (tr : list effect) : cstring :=
  match tr with
  | [] => []
  | Mail t :: tr' => t ++ mailed tr'
  | _ :: tr' => mailed tr'
  end.

Fixpoint popen_count (tr : list effect) : nat :=
  match tr with
  | [] => 0
  | Popen _ :: tr' => S (popen_count tr')
  | _ :: tr' => popen_count tr'
  end.

(** ** Notions used to state the properties *)

(** A well-formed C string holds no NUL before its terminator. *)
Definition no_NUL (s : cstring) : bool :=
  forallb (fun c => negb (Ascii.eqb c NUL)) s.

(** [after] is [before] after a copy of [src] that stored every
    character of [src] and its terminator, the terminator at the index
    equal to the capacity of the array, that is one past its last cell. *)
Definition overrun_by_copy (before after : CArray.t) (src : cstring) : Prop :=
  CArray.capacity after = CArray.capacity before /\
  CArray.in_bounds after = false /\
  exists w,
    CArray.stores after = (CArray.capacity before, NUL) :: w ++ CArray.stores before /\
    length ((CArray.capacity before, NUL) :: w) = S (strlen src).

(** The characters of [event->name] that the event child reads: those
    before the first NUL, and no further than index [len]. *)
Fixpoint name_read (len : nat) (rest : list ascii) (i : nat) : cstring :=
  match rest with
  | [] => []
  | c :: rest' =>
      if (i <=? len)%nat && negb (Ascii.eqb c NUL) then
        c :: name_read len rest' (S i)
      else []
  end.

Definition munge (c : ascii) : cstring :=
  if Ascii.eqb c apostrophe then mungeChar else [c].

Definition munged (s : cstring) : cstring := flat_map munge s.

Fixpoint is_prefix (pat s : cstring) : bool :=
  match pat, s with
  | [], _ => true
  | _ :: _, [] => false
  | p :: pat', c :: s' => Ascii.eqb p c && is_prefix pat' s'
  end.

(** Number of positions of [s] at which [pat] occurs. *)
Fixpoint occurrences (pat s : cstring) : nat :=
  match s with
  | [] => 0
  | _ :: s' => ((if is_prefix pat s then 1 else 0) + occurrences pat s')%nat
  end.

Definition apostrophes (s : cstring) : nat :=
  length (filter (Ascii.eqb apostrophe) s).

(** Number of fields of a record: of delimiters met before the record
    ends at a comment or at the end of the line's string. *)
Fixpoint count_fields (rest : cstring) : nat :=
  match rest with
  | [] => 0
  | c :: rest' =>
      if ends_record c then 0%nat
      else ((if is_delimiter c then 1 else 0) + count_fields rest')%nat
  end.

(** A field holds neither a delimiter nor the end of the record. *)
Definition field_text (s : cstring) : bool :=
  forallb (fun c => negb (is_delimiter c) && negb (ends_record c)) s.

(** The number that a string of decimal digits writes. *)
Definition decimal_value (s : cstring) : Z :=
  fold_left (fun acc c => 10 * acc + digit_val c) s 0.

(** A character that is neither the terminator of strings nor the
    apostrophe. *)
Definition plain (c : ascii) : bool :=
  negb (Ascii.eqb c NUL) && negb (Ascii.eqb c apostrophe).

(** What an assembly leaves as the name, if it gets to its end. *)
Definition assembled_of (p : prog (CArray.t * nat)) : option cstring :=
  match result p with
  | Done r => Some (assembled r)
  | Exit _ => None
  end.

(** The computation ends normally, with a value that satisfies [P]. *)
Definition yields {A} (p : prog A) (P : A -> Prop) : Prop :=
  exists a, result p = Done a /\ P a.

(** What [logx] with status 0 performs. *)
Definition logged (E : env) (opt : opts_t) (logtxt : cstring) : list effect :=
  trace (logx E 0 opt logtxt).

(** What the scan of a record leaves alone. *)
Record scan_frame (m m' : main_t) : Prop := {
  frame_trickHeap : trickHeap m' = trickHeap m;
  frame_trickCount : trickCount m' = trickCount m;
  frame_watches : watches m' = watches m;
  frame_lineNo : lineNo m' = lineNo m;
  frame_badPony : badPony m <> 0 -> badPony m' <> 0;
  frame_fieldNo : (fieldNo m <= fieldNo m')%nat;
  frame_fileName : (1 <= fieldNo m)%nat -> fileName (pony m') = fileName (pony m);
  frame_actions : (2 <= fieldNo m)%nat -> actions (pony m') = actions (pony m);
  frame_pony : (5 <= fieldNo m)%nat -> pony m' = pony m
}.

(** The table is indexed by watch descriptor: position [i] holds the
    trick whose descriptor is [i + 1]. *)
Definition heap_indexed (m : main_t) : Prop :=
  map watchHandle (trickHeap m) =
  map (fun i => Z.of_nat i + 1) (seq 0 (trickCount m)).

(** The trick went through [inotify_add_watch] with its mask, and the
    kernel answered with the descriptor that the trick holds. *)
Definition registered (E : env) (t : trick_t) : Prop :=
  0 <= watchHandle t /\
  exists n, watchHandle t = inotify_add_watch E n (fileName t) (actions t).

(** The loop keeps the table indexed, and puts nothing in it that did
    not go through the kernel. *)
Definition loader_inv (E : env) (m : main_t) : Prop :=
  heap_indexed m /\ Forall (registered E) (trickHeap m).

(** The two ways in which the loop, or a part of it, may end: normally
    with [P], or with status 2 right after the diagnostic of a
    non-sequential watch descriptor. *)
Definition done_or_corrupt (E : env) (opt : opts_t) (p : prog main_t)
  (P : main_t -> Prop) : Prop :=
  match result p with
  | Done m => P m
  | Exit s =>
      s = 2 /\
      exists before, trace p = before ++ trace (logx E 2 opt msg_heap_corrupt)
  end.

(** A line of the configuration file, as [fgets] stores it. *)
Definition ln (s : string) : cstring := str s ++ [LF].

(** A machine whose kernel hands out the descriptors 1, 2, 3, ... in the
    order of the calls, whatever the path and the mask. *)
Definition stub_machine : env :=
  {| getpid := 4242; clock := str "2011-02-15 12:00:00"; LOGIN_NAME_MAX := 256;
     pathconf_NAME_MAX := fun _ => 255;
     inotify_add_watch := fun n _ _ => Z.of_nat n + 1;
     errno_add_watch := fun _ => 0; strerror := fun _ => str "Success";
     popen_mail := true; mailTime := str "Tue Feb 15 12:00:00 2011";
     PATH_SENDMAIL := str "/usr/lib/sendmail";
     pony_script_NULL := true |}.

(** The same machine with a kernel that answers every registration with
    the descriptor 7. *)
Definition stuck_machine : env :=
  {| getpid := 4242; clock := str "2011-02-15 12:00:00"; LOGIN_NAME_MAX := 256;
     pathconf_NAME_MAX := fun _ => 255;
     inotify_add_watch := fun _ _ _ => 7;
     errno_add_watch := fun _ => 0; strerror := fun _ => str "Success";
     popen_mail := true; mailTime := str "Tue Feb 15 12:00:00 2011";
     PATH_SENDMAIL := str "/usr/lib/sendmail";
     pony_script_NULL := true |}.

(** The watches of an inotify instance, as the list of the paths that
    it watches: the descriptor of a watch is its rank in the list,
    counted from 1.  Paths are taken to name different objects. *)
Definition same_path (p q : cstring) : bool :=
  String.eqb (string_of_list_ascii p) (string_of_list_ascii q).

Fixpoint watch_of (table : list cstring) (path : cstring) (wd : Z) : option Z :=
  match table with
  | [] => None
  | p :: table' => if same_path p path then Some wd
                   else watch_of table' path (wd + 1)
  end.

(** One call of [inotify_add_watch], with its path and its mask: a call
    with an empty mask is refused ([EINVAL]), a call for a path that is
    watched already adds no watch, and any other call adds one behind
    those that the instance holds. *)
Definition kernel_add_watch (table : list cstring) (call : cstring * Z)
  : list cstring :=
  if snd call =? 0 then table
  else match watch_of table (fst call) 1 with
       | Some _ => table
       | None => table ++ [fst call]
       end.

(** The watches of the instance after the calls [asked], in their
    order. *)
Definition kernel_watches (asked : list (cstring * Z)) : list cstring :=
  fold_left kernel_add_watch asked [].

(** A machine that behaves as Linux is documented to, in a run of the
    program that makes the calls [asked] for a watch: [pathconf] fails
    on the empty path ([ENOENT]) and [inotify_add_watch] on an empty
    mask ([EINVAL]); any other call for a watch is granted, with the
    descriptor that the instance gives to the path. *)
Definition linux_machine (asked : list (cstring * Z)) : env :=
  {| getpid := 4242; clock := str "2011-02-15 12:00:00"; LOGIN_NAME_MAX := 256;
     pathconf_NAME_MAX := fun p => if (length p =? 0)%nat then -1 else 255;
     inotify_add_watch :=
       fun n path mask =>
         if mask =? 0 then -1
         else let table := kernel_watches (firstn n asked) in
              match watch_of table path 1 with
              | Some wd => wd
              | None => Z.of_nat (length table) + 1
              end;
     errno_add_watch := fun _ => 22; strerror := fun _ => str "Invalid argument";
     popen_mail := true; mailTime := str "Tue Feb 15 12:00:00 2011";
     PATH_SENDMAIL := str "/usr/lib/sendmail";
     pony_script_NULL := true |}.

(** The tricks that a load leaves in the table ([None]: the load did not
    end normally). *)
Definition tricks_of (p : prog main_t) : option (list trick_t) :=
  match result p with
  | Done m => Some (trickHeap m)
  | Exit _ => None
  end.

(** ** Notions used to state further properties of the loop *)

(** A character that a field of an accepted line may hold: printable,
    and none of the apostrophe, the colon and the comment character. *)
Definition field_char (c : ascii) : bool :=
  isprint c && negb (Ascii.eqb c apostrophe) && negb (Ascii.eqb c ":")
  && negb (Ascii.eqb c "#").

Definition clean (s : cstring) : bool := forallb field_char s.

(** The fields of the pony that the scan has taken so far, [k] being
    the number of fields taken, have passed their checks; [M] is
    [maxNameLen]. *)
Record pony_ok (E : env) (k : nat) (M : Z) (p : trick_t) : Prop := {
  ok_fileName : (1 <= k)%nat ->
    clean (fileName p) = true /\
    0 < pathconf_NAME_MAX E (fileName p) <= M;
  ok_actions : (2 <= k)%nat -> 0 <= actions p < 2 ^ 32;
  ok_script : (3 <= k)%nat ->
    clean (script p) = true /\ Z.of_nat (length (script p)) <= maxScriptLen;
  ok_userid : (4 <= k)%nat ->
    clean (userid p) = true /\ Z.of_nat (length (userid p)) <= LOGIN_NAME_MAX E;
  ok_mail : (5 <= k)%nat ->
    clean (mail p) = true /\ Z.of_nat (length (mail p)) <= maxEmailLen
}.

(** The five fields of an entry, as one line of the file. *)
Definition entry_line (f1 f2 f3 f4 f5 : cstring) : cstring :=
  f1 ++ ":" :: f2 ++ ":" :: f3 ++ ":" :: f4 ++ ":" :: f5 ++ [LF].

(** The checks that the five turns of the [switch] make on the fields
    of an entry. *)
Definition fields_pass (E : env) (f1 f2 f3 f4 f5 : cstring) : bool :=
  (0 <? pathconf_NAME_MAX E f1)
  && forallb isdigit f2
  && (Z.of_nat (length f3) <=? maxScriptLen)
  && (Z.of_nat (length f4) <=? LOGIN_NAME_MAX E)
  && (Z.of_nat (length f5) <=? maxEmailLen).

(** The five turns of the [switch] that the scan of an entry makes, each
    on its field, the token of the next field starting after the
    delimiter. *)
Definition entry_turns (E : env) (opt : opts_t) (m : main_t)
  (f1 f2 f3 f4 f5 : cstring) : prog main_t :=
  let n1 := (length f1 + 1)%nat in
  let n2 := (n1 + length f2 + 1)%nat in
  let n3 := (n2 + length f3 + 1)%nat in
  let n4 := (n3 + length f4 + 1)%nat in
  let n5 := (n4 + length f5 + 1)%nat in
  m1 <- load_field E opt f1 (length f1) (set_fieldNo 1 (line_start m)) ;;
  m2 <- load_field E opt f2 (length f2) (set_fieldNo 2 (set_tokenStart n1 m1)) ;;
  m3 <- load_field E opt f3 (length f3) (set_fieldNo 3 (set_tokenStart n2 m2)) ;;
  m4 <- load_field E opt f4 (length f4) (set_fieldNo 4 (set_tokenStart n3 m3)) ;;
  m5 <- load_field E opt f5 (length f5) (set_fieldNo 5 (set_tokenStart n4 m4)) ;;
  ret (set_tokenStart n5 m5).

(** The effects [t], and then the computation [p]. *)
Definition after_effects {A} (t : list effect) (p : prog A) : prog A :=
  (t ++ trace p, result p).

(** What the loop logs when it is verbose and all goes well with an
    entry: the rise of [maxNameLen], if any, and the watch added. *)
Definition entry_log (E : env) (opt : opts_t) (m : main_t) (t : trick_t)
  : list effect :=
  (if (pathconf_NAME_MAX E (fileName t) >? maxNameLen m)
      && truthy (verbose opt)
   then logged E opt (msg_maxname (pathconf_NAME_MAX E (fileName t)))
   else [])
  ++ (if truthy (verbose opt) then logged E opt (msg_added t) else []).

(** What the five turns log for an entry, in the order of its fields:
    for each field the report of its check when the check fails, and
    for the first the rise of [maxNameLen] when the loop is verbose.  An
    account name that is too long is reported with the words for the
    script name.  An address that is short enough is refused as well
    when [pony.script] is [NULL], which it is when the script of this
    line was refused and no line before has stored one. *)
Definition entry_reports (E : env) (opt : opts_t) (m : main_t)
  (f1 f2 f3 f4 f5 : cstring) : list effect :=
  let n := S (lineNo m) in
  (if pathconf_NAME_MAX E f1 <=? 0 then logged E opt (msg_pathconf f1)
   else if (pathconf_NAME_MAX E f1 >? maxNameLen m) && truthy (verbose opt)
        then logged E opt (msg_maxname (pathconf_NAME_MAX E f1))
        else [])
  ++ (if forallb isdigit f2 then [] else logged E opt (msg_mask opt n))
  ++ (if Z.of_nat (length f3) >? maxScriptLen
      then logged E opt (msg_script opt n) else [])
  ++ (if Z.of_nat (length f4) >? LOGIN_NAME_MAX E
      then logged E opt (msg_script opt n) else [])
  ++ (if Z.of_nat (length f5) >? maxEmailLen
      then logged E opt (msg_email opt n)
      else if (Z.of_nat (length f3) >? maxScriptLen) && scriptNULL m
           then logged E opt (msg_alloc_mail f5 n)
           else []).

(** The fields of a line past its fifth, each behind its colon. *)
Definition surplus_text (more : list cstring) : cstring :=
  concat (map (fun s => ":"%char :: s) more).

(** A line of five fields followed by the fields [more], closed by a
    newline. *)
Definition long_line (f1 f2 f3 f4 f5 : cstring) (more : list cstring)
  : cstring :=
  f1 ++ ":" :: f2 ++ ":" :: f3 ++ ":" :: f4 ++ ":" :: f5
  ++ surplus_text more ++ [LF].

(** The reports of the fields past the fifth. *)
Definition surplus_log (E : env) (opt : opts_t) (lineNo : nat)
  (more : list cstring) : list effect :=
  concat (map (fun s => logged E opt (msg_too_many lineNo s)) more).

(** The turns of the [switch] on the fields past the fifth, the token of
    each starting at [n]. *)
Fixpoint surplus_turns (E : env) (opt : opts_t) (more : list cstring)
  (n : nat) (m : main_t) : prog main_t :=
  match more with
  | [] => ret m
  | s :: more' =>
      m' <- load_field E opt s (length s) (set_fieldNo (S (fieldNo m)) m) ;;
      surplus_turns E opt more' (n + length s + 1)
                    (set_tokenStart (n + length s + 1) m')
  end.

(** The rise of [maxNameLen] as the verbose loop logs it. *)
Definition maxname_log (E : env) (opt : opts_t) (m : main_t) (f1 : cstring)
  : list effect :=
  if (pathconf_NAME_MAX E f1 >? maxNameLen m) && truthy (verbose opt)
  then logged E opt (msg_maxname (pathconf_NAME_MAX E f1))
  else [].

(** The watch added as the verbose loop logs it. *)
Definition added_log (E : env) (opt : opts_t) (t : trick_t) : list effect :=
  if truthy (verbose opt) then logged E opt (msg_added t) else [].

(** The text fits [logtxt], terminator included. *)
Definition fits_logtxt (text : cstring) : bool :=
  CArray.in_bounds (sprintf_logtxt text).

(** An effect is the report of a character by [check_char]. *)
Definition character_report (E : env) (opt : opts_t) (lineNo : nat)
  (e : effect) : Prop :=
  exists recordLen,
    In e (logged E opt (msg_invisible opt lineNo recordLen)) \/
    In e (logged E opt (msg_illegal opt lineNo recordLen)).

(** The tricks of the table have passed the five checks, and
    [maxNameLen] covers them. *)
Definition table_ok (E : env) (m : main_t) : Prop :=
  Forall (pony_ok E 5 (maxNameLen m)) (trickHeap m).

(** ** Notions used to state properties of the options *)

(** What a C function reads of a string: the characters before its
    first NUL. *)
Fixpoint until_NUL (s : cstring) : cstring :=
  match s with
  | [] => []
  | c :: s' => if Ascii.eqb c NUL then [] else c :: until_NUL s'
  end.

(** The arguments that [getopt] handed out for the option [o], in the
    order of the command line, and whether it handed out [o] at all. *)
Definition args_of (o : ascii) (gs : list getopt_t) : list cstring :=
  flat_map (fun g => match g with
                     | Opt o' a => if Ascii.eqb o' o then [a] else []
                     | _ => []
                     end) gs.

Definition given (o : ascii) (gs : list getopt_t) : bool :=
  existsb (fun g => match g with
                    | Opt o' _ => Ascii.eqb o' o
                    | _ => false
                    end) gs.

(** The string that the last of [args] leaves in an array that held
    [default]. *)
Definition last_copied (args : list cstring) (default : cstring) : cstring :=
  last (map until_NUL args) default.

(** The copies of [args] all stay inside an array of [cap] cells. *)
Definition copies_fit (cap : nat) (args : list cstring) : bool :=
  forallb (fun a => (length (until_NUL a) <? cap)%nat) args.

Definition version_banner : cstring :=
  [LF] ++ str "Gidget v" ++ GVERSION ++ str " Goddard & Brooks 2011" ++ [LF; LF].

Definition too_long_messages : list cstring :=
  [str "configuration file name too long!" ++ [LF];
   str "log file name too long!" ++ [LF];
   str "Pid file name too long!" ++ [LF]].

(** The options after one turn of the [switch] that does not leave the
    program. *)
Record turned (opt : opts_t) (g : getopt_t) (opt' : opts_t) : Prop := {
  turn_daemon : daemon opt' = if given "d" [g] then 1 else daemon opt;
  turn_verbose : verbose opt' = if given "v" [g] then 1 else verbose opt;
  turn_log2file :
    log2file opt' =
    if given "d" [g] || given "l" [g] then 1 else log2file opt;
  turn_syslog : syslog opt' = if given "s" [g] then 1 else syslog opt;
  turn_sloglev : 0 <= sloglev opt <= 7 -> 0 <= sloglev opt' <= 7;
  turn_config :
    CArray.c_str (config opt') =
    last_copied (args_of "c" [g]) (CArray.c_str (config opt));
  turn_logfile :
    CArray.c_str (logfile opt') =
    last_copied (args_of "l" [g]) (CArray.c_str (logfile opt));
  turn_pidfile :
    CArray.c_str (pidfile opt') =
    last_copied (args_of "p" [g]) (CArray.c_str (pidfile opt));
  turn_config_cap :
    CArray.capacity (config opt') = CArray.capacity (config opt);
  turn_logfile_cap :
    CArray.capacity (logfile opt') = CArray.capacity (logfile opt);
  turn_pidfile_cap :
    CArray.capacity (pidfile opt') = CArray.capacity (pidfile opt);
  turn_config_in :
    CArray.in_bounds (config opt') =
    CArray.in_bounds (config opt)
    && copies_fit (CArray.capacity (config opt)) (args_of "c" [g]);
  turn_logfile_in :
    CArray.in_bounds (logfile opt') =
    CArray.in_bounds (logfile opt)
    && copies_fit (CArray.capacity (logfile opt)) (args_of "l" [g]);
  turn_pidfile_in :
    CArray.in_bounds (pidfile opt') =
    CArray.in_bounds (pidfile opt)
    && copies_fit (CArray.capacity (pidfile opt)) (args_of "p" [g])
}.

(** The options after the loop over [getopt], when the loop is left
    normally. *)
Record looped (opt : opts_t) (gs : list getopt_t) (opt' : opts_t) : Prop := {
  loop_daemon : daemon opt' = if given "d" gs then 1 else daemon opt;
  loop_verbose : verbose opt' = if given "v" gs then 1 else verbose opt;
  loop_log2file :
    log2file opt' =
    if given "d" gs || given "l" gs then 1 else log2file opt;
  loop_syslog : syslog opt' = if given "s" gs then 1 else syslog opt;
  loop_sloglev : 0 <= sloglev opt <= 7 -> 0 <= sloglev opt' <= 7;
  loop_config :
    CArray.c_str (config opt') =
    last_copied (args_of "c" gs) (CArray.c_str (config opt));
  loop_logfile :
    CArray.c_str (logfile opt') =
    last_copied (args_of "l" gs) (CArray.c_str (logfile opt));
  loop_pidfile :
    CArray.c_str (pidfile opt') =
    last_copied (args_of "p" gs) (CArray.c_str (pidfile opt));
  loop_config_cap :
    CArray.capacity (config opt') = CArray.capacity (config opt);
  loop_logfile_cap :
    CArray.capacity (logfile opt') = CArray.capacity (logfile opt);
  loop_pidfile_cap :
    CArray.capacity (pidfile opt') = CArray.capacity (pidfile opt);
  loop_config_in :
    CArray.in_bounds (config opt') =
    CArray.in_bounds (config opt)
    && copies_fit (CArray.capacity (config opt)) (args_of "c" gs);
  loop_logfile_in :
    CArray.in_bounds (logfile opt') =
    CArray.in_bounds (logfile opt)
    && copies_fit (CArray.capacity (logfile opt)) (args_of "l" gs);
  loop_pidfile_in :
    CArray.in_bounds (pidfile opt') =
    CArray.in_bounds (pidfile opt)
    && copies_fit (CArray.capacity (pidfile opt)) (args_of "p" gs)
}.

(** What is printed last when the options make the program leave with
    status [s]: the version for 0, the usage text or the complaint about
    a name that is too long for 1. *)
Definition exit_said (s : Z) (fh : stream) (text : cstring) : Prop :=
  s = 0 /\ fh = stdout /\ text = version_banner \/
  s = 1 /\ (text = usage_text \/ fh = stderr /\ In text too_long_messages).

(** ** The event child: the command *)

(** [strcat]: the copy starts at the terminator of what [dest] holds. *)
Definition strcat (dest : CArray.t) (src : cstring) : CArray.t :=
  fst (CArray.copy_from src (length (CArray.c_str dest)) dest).

Definition msg_command_too_long : cstring := str "command too long for shell".

(** From [char command[maxLineLen]] to the last [strcat].
    [fileOrFolder] is what [strlen] and [strcat] read of the array of
    that name, and [maxLineLen] what [sysconf] gave. *)
Definition compose_command (E : env) (opt : opts_t) (maxLineLen : nat)
  (pony : trick_t) (event : event_t) (fileOrFolder : cstring)
  : prog CArray.t :=
  let command := CArray.fresh maxLineLen in
  let eventMask := hex8 (to_uint32 (mask event)) in
  when (maxLineLen <?
        strlen (script pony) + strlen eventMask + strlen fileOrFolder + 4)%nat
       (logx E 22 opt msg_command_too_long) ;;
  let command := CArray.strcpy command (script pony) in
  let command := strcat command [space] in
  let command := strcat command [apostrophe] in
  let command := strcat command fileOrFolder in
  let command := strcat command [apostrophe] in
  let command := strcat command [space] in
  let command := strcat command eventMask in
  ret command.

(** The text of the command. *)
Definition command_text (pony : trick_t) (event : event_t)
  (fileOrFolder : cstring) : cstring :=
  script pony ++ space :: apostrophe :: fileOrFolder
  ++ apostrophe :: space :: hex8 (to_uint32 (mask event)).

(** ** The event child: the status of the script *)

(** [WIFEXITED] and [WEXITSTATUS] as the GNU C library defines them. *)
Definition WIFEXITED (cstatus : Z) : bool := Z.land cstatus 127 =? 0.
Definition WEXITSTATUS (cstatus : Z) : Z := Z.shiftr (Z.land cstatus 65280) 8.

Definition msg_execl_mail : cstring := str "execl mail FAILED".

Definition msg_no_status (pony : trick_t) : cstring :=
  str "FATAL ERROR: unable to determine exit status of script " ++ script pony.

Definition msg_ambiguous (pony : trick_t) : cstring :=
  str "Script " ++ script pony ++ str " returned ambiguous result".

Definition msg_never_127 (argv0 : cstring) : cstring :=
  str "scripts to be executed by " ++ argv0
  ++ str " should never be written to return status 127".

Definition msg_child_ok (command : cstring) : cstring :=
  str "child process successfully executed " ++ command.

Definition msg_grandchild_ok : cstring :=
  str "script executor grandchild process successful completion".

Definition msg_script_fail (command : cstring) (shstatus : Z) : cstring :=
  str "script fail, " ++ command ++ str " returned returned status "
  ++ dec shstatus.

(** From [int cstatus] to [exit(shstatus)].  [waited] is what [waitpid]
    returns and [cstatus] what the variable of that name holds after
    the call. *)
Definition report_status (E : env) (opt : opts_t) (argv0 : cstring)
  (pony : trick_t) (command : cstring) (waited cstatus : Z) : prog unit :=
  when (waited =? -1) (logx E 29 opt msg_execl_mail) ;;
  said <-
    (if negb (WIFEXITED cstatus) then ret (1, msg_no_status pony)
     else
       let shstatus := WEXITSTATUS cstatus in
       if shstatus =? 127 then
         logx E 0 opt (msg_ambiguous pony) ;;
         ret (shstatus, msg_never_127 argv0)
       else if shstatus =? 0 then
         ret (shstatus,
              if truthy (verbose opt) then msg_child_ok command
              else msg_grandchild_ok)
       else ret (shstatus, msg_script_fail command shstatus)) ;;
  logx E (fst said) opt (snd said) ;;
  exit (fst said).

(** The status with which the event child leaves. *)
Definition status_of (waited cstatus : Z) : Z :=
  if waited =? -1 then 29
  else if WIFEXITED cstatus then WEXITSTATUS cstatus
  else 1.

(** Nothing of the trace is a line of the log. *)
Definition silent (t : list effect) : Prop :=
  forall fh text, ~ In (Print fh text) t.

(** ** [stringifyEventBits] *)

(** The masks of [<sys/inotify.h>] that the function names. *)
Definition IN_CLOSE : Z := 24.
Definition IN_MOVE : Z := 192.
Definition IN_ALL_EVENTS : Z := 4095.
Definition IN_UNMOUNT : Z := 8192.
Definition IN_Q_OVERFLOW : Z := 16384.
Definition IN_IGNORED : Z := 32768.
Definition IN_ISDIR : Z := 1073741824.

(** [ezName]: the entries that the function assigns; the others are
    left as the automatic array was allocated. *)
Definition ezName (i : nat) : option cstring :=
  match i with
  | 0%nat => Some (str "IN_ACCESS")
  | 1%nat => Some (str "IN_MODIFY")
  | 2%nat => Some (str "IN_ATTRIB")
  | 3%nat => Some (str "IN_CLOSE_WRITE")
  | 4%nat => Some (str "IN_CLOSE_NOWRITE")
  | 5%nat => Some (str "IN_OPEN")
  | 6%nat => Some (str "IN_MOVED_FROM")
  | 7%nat => Some (str "IN_MOVED_TO")
  | 8%nat => Some (str "IN_CREATE")
  | 9%nat => Some (str "IN_DELETE")
  | 10%nat => Some (str "IN_DELETE_SELF")
  | 11%nat => Some (str "IN_MOVE_SELF")
  | 13%nat => Some (str "IN_UNMOUNT")
  | 14%nat => Some (str "IN_Q_OVERFLOW")
  | 15%nat => Some (str "IN_IGNORED")
  | 24%nat => Some (str "IN_ONLYDIR")
  | 25%nat => Some (str "IN_DONT_FOLLOW")
  | 29%nat => Some (str "IN_MASK_ADD")
  | 30%nat => Some (str "IN_ISDIR")
  | 31%nat => Some (str "IN_ONESHOT")
  | _ => None
  end.

(** [if (hits++!=0) printf(sep)]. *)
Definition put_sep (hits : nat) (sep : cstring) : list cstring :=
  if (hits =? 0)%nat then [] else [sep].

Definition named (nm : cstring) (j : Z) : cstring :=
  nm ++ str "(" ++ hex8 j ++ str ")".

(** The [for] loop, with [n] turns left from [i] on.  The result is
    what the calls of [printf] write, one text per call, and [hits];
    there is none when [printf] is handed an entry of [ezName] that was
    never assigned. *)
Fixpoint name_bits (bitMap : Z) (n i hits : nat)
  : option (list cstring * nat) :=
  match n with
  | O => Some ([], hits)
  | S n' =>
      let j := to_uint32 (Z.shiftl 1 (Z.of_nat i)) in
      if negb (Z.land j bitMap =? 0) then
        match ezName i with
        | None => None
        | Some nm =>
            match name_bits bitMap n' (S i) (S hits) with
            | None => None
            | Some (out, hits') =>
                Some (put_sep hits [space] ++ named nm j :: out, hits')
            end
        end
      else name_bits bitMap n' (S i) hits
  end.

Definition msg_unrecognized (k : Z) : cstring :=
  str "WARNING! Unrecognized event flag " ++ hex8 k
  ++ str " not mapped by IN_ALL_EVENTS!".

Definition msg_no_string (bitMap : Z) : list cstring :=
  [str "WARNING! No string representation of event mask " ++ hex8 bitMap
   ++ str " is available!" ++ [LF];
   str "Most likely, this means that inotify.h has been enhanced to signal more events"
   ++ [LF];
   str "and stringifyEventBits() needs updating and recompilation with the new bitmaps"
   ++ [LF];
   str "Please consult the comments in the gidget source code for more information"].

(** The bits that the function takes for known. *)
Definition recognized : Z :=
  Z.lor (Z.lor (Z.lor (Z.lor IN_ALL_EVENTS IN_ISDIR) IN_UNMOUNT) IN_Q_OVERFLOW)
        IN_IGNORED.

(** One of the three tests that follow the loop. *)
Definition flagged (b : bool) (hits : nat) (sep text : cstring)
  : list cstring * nat :=
  if b then (put_sep hits sep ++ [text], S hits) else ([], hits).

Definition stringifyEventBits (bitMap : Z) : option (list cstring) :=
  match name_bits bitMap 32 0 0 with
  | None => None
  | Some (out1, hits) =>
      let (out2, hits) :=
        flagged (negb (Z.land IN_CLOSE bitMap =? 0)) hits [space]
                (named (str "IN_CLOSE") IN_CLOSE) in
      let (out3, hits) :=
        flagged (negb (Z.land IN_MOVE bitMap =? 0)) hits [space]
                (named (str "IN_MOVE") IN_MOVE) in
      let k := Z.land bitMap (to_uint32 (Z.lnot recognized)) in
      let (out4, hits) :=
        flagged (negb (k =? 0)) hits [LF] (msg_unrecognized k) in
      let out5 := if (hits =? 0)%nat then msg_no_string bitMap else [] in
      Some (out1 ++ out2 ++ out3 ++ out4 ++ out5 ++ [[LF]])
  end.

(** The bits from 0 to 31 for which [ezName] has no entry. *)
Definition unnamed_bits : Z := 486477824.

(** The bits that have a name in [ezName] and are not among the
    recognized ones: [IN_ONLYDIR], [IN_DONT_FOLLOW], [IN_MASK_ADD] and
    [IN_ONESHOT]. *)
Definition named_unrecognized : Z := 2734686208.

Definition is_warning (text : cstring) : bool :=
  is_prefix (str "WARNING!") text.

(** ** The wait for events *)

Definition SIGHUP : Z := 1.
Definition SIGINT : Z := 2.

(** What one call of [read] on the inotify instance comes to.
    [Interrupted]: a signal was trapped, [errno] is [EINTR];
    [signalTrap] ran with the signal and the process and the user it
    came from, and [reopened] tells how the two calls of [freopen] end
    if they are made: [None] for a stream, [Some errno] for [NULL].
    [Returned]: [read] returned [len] with another [errno], and [forked]
    is what [fork] returns if it is called. *)
Inductive read_t :=
| Interrupted (sig sigpid siguid : Z) (reopened : option Z * option Z)
| Returned (len : Z) (forked : Z).

(** What leaves the loop without leaving the program: the child of a
    [fork], which goes on to run the script; [Waiting] stands for the
    daemon blocked in [read] when the reads that are given are used
    up. *)
Inductive waited_t :=
| Waiting
| Child (len : Z).

Definition signalTrap (sig sigpid siguid : Z) : prog unit :=
  when (negb (sigpid =? 0) && negb (siguid =? 0))
       (emit (Print stdout
                (str "Signal " ++ dec sig ++ str " received from process: "
                 ++ dec sigpid ++ str ", UID: " ++ dec siguid ++ [LF]))).

Definition msg_reopen (E : env) (opt : opts_t) (errno : Z) (fh : cstring)
  : cstring :=
  str "Error (" ++ dec errno ++ str ") opening " ++ CArray.c_str (logfile opt)
  ++ str " for " ++ fh ++ str ": " ++ strerror E errno.

Definition reopenLogs (E : env) (opt : opts_t)
  (reopened : option Z * option Z) : prog unit :=
  match fst reopened with
  | Some errno => logx E 1 opt (msg_reopen E opt errno (str "stdout"))
  | None => ret tt
  end ;;
  match snd reopened with
  | Some errno => logx E 1 opt (msg_reopen E opt errno (str "stderr"))
  | None => ret tt
  end.

Definition msg_caught (sig : Z) : cstring := str "Caught signal " ++ dec sig.

Definition msg_shutdown : cstring :=
  str "gidget event wait terminated by signal, shutting down.".

Definition msg_zero_length : cstring :=
  str "zero length string returned from inotify, daemon dead".

Definition msg_read_failed (len : Z) : cstring :=
  str "inotify returned " ++ dec len ++ str ", FAIL, daemon dead".

Definition msg_fork_failed : cstring :=
  str "failed to fork script executor child process!".

(** The loop [while (pid > 0)] over [read], and the test of [pid] that
    follows it.  The calls of [close] and [closelog] before
    [exit(EXIT_SUCCESS)] leave nothing in the trace. *)
Fixpoint wait_loop (E : env) (opt : opts_t) (reads : list read_t)
  : prog waited_t :=
  match reads with
  | [] => ret Waiting
  | Interrupted sig sigpid siguid reopened :: more =>
      signalTrap sig sigpid siguid ;;
      if sig =? SIGHUP then
        (if truthy (log2file opt) then
           logx E 0 opt (msg_caught sig ++ str ", reopening stdout/stderr") ;;
           reopenLogs E opt reopened
         else logx E 0 opt (msg_caught sig ++ str ", ignored.")) ;;
        wait_loop E opt more
      else
        when (sig =? SIGINT)
             (logx E 0 opt (msg_caught sig ++ str ", probably Control-C")) ;;
        logx E 0 opt msg_shutdown ;;
        exit 0
  | Returned len forked :: more =>
      if len >? 0 then
        if forked >? 0 then wait_loop E opt more
        else
          when (forked <? 0) (logx E 8 opt msg_fork_failed) ;;
          ret (Child len)
      else
        logx E 7 opt (if len =? 0 then msg_zero_length
                      else msg_read_failed len) ;;
        wait_loop E opt more
  end.

(** A read that lets the daemon go on waiting: a hangup whose
    [freopen]s, if made, give streams, or an event for which [fork]
    gave the daemon a child. *)
Definition goes_on (opt : opts_t) (r : read_t) : bool :=
  match r with
  | Interrupted sig _ _ reopened =>
      (sig =? SIGHUP)
      && (negb (truthy (log2file opt))
          || match reopened with
             | (None, None) => true
             | _ => false
             end)
  | Returned len forked => (len >? 0) && (forked >? 0)
  end.

(** The text that [logx] prints for [logtxt]. *)
Definition logx_text (xstatus : Z) (logtxt : cstring) : cstring :=
  match logtxt with
  | [] => if xstatus =? 0 then str "Missing log string. This should not happen."
          else str "The sky is falling!  The sky is falling!"
  | _ => logtxt
  end.


(** * Properties *)

(** ** Computations *)

Lemma result_bind {A B} (m : prog A) (k : A -> prog B) :
  result (bind m k) =
  match result m with
  | Done a => result (k a)
  | Exit s => Exit s
  end.
Proof.
  destruct m as [t [a | s]]; simpl; [destruct (k a) |]; reflexivity.
Qed.

Lemma trace_bind {A B} (m : prog A) (k : A -> prog B) :
  trace (bind m k) =
  match result m with
  | Done a => trace m ++ trace (k a)
  | Exit _ => trace m
  end.
Proof.
  destruct m as [t [a | s]]; simpl; [destruct (k a) |]; reflexivity.
Qed.

Lemma prog_eta {A} (m : prog A) : m = (trace m, result m).
Proof. destruct m; reflexivity. Qed.

Lemma bind_assoc {A B C} (m : prog A) (f : A -> prog B) (g : B -> prog C) :
  bind (bind m f) g = bind m (fun a => bind (f a) g).
Proof.
  destruct m as [t [a | s]]; simpl; [| reflexivity].
  destruct (f a) as [t1 [b | s1]]; simpl; [| reflexivity].
  destruct (g b) as [t2 r]. now rewrite app_assoc.
Qed.

Lemma bind_ret_l {A B} (a : A) (k : A -> prog B) : bind (ret a) k = k a.
Proof. unfold ret, bind. destruct (k a); reflexivity. Qed.

(** ** [logx] *)

Lemma result_logx E xstatus opt logtxt :
  result (logx E xstatus opt logtxt) =
  if xstatus =? 0 then Done tt else Exit xstatus.
Proof.
  unfold logx, when.
  destruct (syslog opt =? 1), (xstatus =? 0); reflexivity.
Qed.

Lemma logx_0 E opt logtxt :
  logx E 0 opt logtxt = (trace (logx E 0 opt logtxt), Done tt).
Proof.
  rewrite (prog_eta (logx E 0 opt logtxt)) at 1.
  now rewrite result_logx.
Qed.

Lemma trace_logx E xstatus opt logtxt :
  logtxt <> [] ->
  trace (logx E xstatus opt logtxt) =
  Print (if xstatus =? 0 then stdout else stderr) (log_line E logtxt)
  :: (if syslog opt =? 1 then [Syslog (sloglev opt) (log_line E logtxt)] else []).
Proof.
  intros Hne. unfold logx, when.
  destruct logtxt as [| c l]; [congruence |].
  cbn [strlen length Nat.leb].
  destruct (syslog opt =? 1), (xstatus =? 0); reflexivity.
Qed.

Lemma logx_no_mail E xstatus opt logtxt :
  mailed (trace (logx E xstatus opt logtxt)) = [] /\
  popen_count (trace (logx E xstatus opt logtxt)) = 0%nat.
Proof.
  unfold logx, when.
  destruct (syslog opt =? 1), (xstatus =? 0); split; reflexivity.
Qed.

(** ** Strings in arrays *)

Lemma copy_from_load_below (src : cstring) :
  forall j a k,
    (k < j)%nat ->
    CArray.load (fst (CArray.copy_from src j a)) k = CArray.load a k.
Proof.
  induction src as [| c src IH]; intros j a k Hk;
    cbn [CArray.copy_from].
  - unfold CArray.load, CArray.store. cbn [fst CArray.stores CArray.lookup].
    destruct (Nat.eqb_spec k j); [lia | reflexivity].
  - destruct (Ascii.eqb c NUL).
    + unfold CArray.load, CArray.store. cbn [fst CArray.stores CArray.lookup].
      destruct (Nat.eqb_spec k j); [lia | reflexivity].
    + rewrite IH by lia.
      unfold CArray.load, CArray.store. cbn [CArray.stores CArray.lookup].
      destruct (Nat.eqb_spec k j); [lia | reflexivity].
Qed.

Lemma load_store_same (a : CArray.t) (i : nat) (c : ascii) :
  CArray.load (CArray.store i c a) i = Some c.
Proof.
  unfold CArray.load, CArray.store. cbn [CArray.stores CArray.lookup].
  now rewrite Nat.eqb_refl.
Qed.

Lemma copy_from_read (src : cstring) :
  forall i a fuel,
    (length (until_NUL src) < fuel)%nat ->
    CArray.read_from (fst (CArray.copy_from src i a)) i fuel = until_NUL src.
Proof.
  induction src as [| c src IH]; intros i a fuel Hf;
    cbn [CArray.copy_from until_NUL] in *.
  - destruct fuel as [| fuel]; [cbn in Hf; lia |].
    cbn [CArray.read_from fst]. rewrite load_store_same. reflexivity.
  - destruct (Ascii.eqb c NUL) eqn:Hc.
    + destruct fuel as [| fuel]; [cbn in Hf; lia |].
      cbn [CArray.read_from fst]. rewrite load_store_same. reflexivity.
    + destruct fuel as [| fuel]; [cbn in Hf; lia |].
      cbn [CArray.read_from length] in *.
      rewrite copy_from_load_below by lia.
      rewrite load_store_same, Hc. f_equal. apply IH. lia.
Qed.

Lemma copy_from_length (src : cstring) :
  forall i a,
    length (CArray.stores (fst (CArray.copy_from src i a))) =
    (length (CArray.stores a) + length (until_NUL src) + 1)%nat.
Proof.
  induction src as [| c src IH]; intros i a;
    cbn [CArray.copy_from until_NUL].
  - cbn. lia.
  - destruct (Ascii.eqb c NUL).
    + cbn. lia.
    + rewrite IH. cbn. lia.
Qed.

(** What [strcpy] stores is what a reader of the array finds. *)
Lemma c_str_strcpy (a : CArray.t) (src : cstring) :
  CArray.c_str (CArray.strcpy a src) = until_NUL src.
Proof.
  unfold CArray.c_str, CArray.strcpy.
  apply copy_from_read. rewrite copy_from_length. lia.
Qed.

Lemma copy_from_in_bounds (src : cstring) :
  forall i a,
    CArray.in_bounds (fst (CArray.copy_from src i a)) =
    CArray.in_bounds a && (i + length (until_NUL src) <? CArray.capacity a)%nat.
Proof.
  induction src as [| c src IH]; intros i a;
    cbn [CArray.copy_from until_NUL].
  - unfold CArray.in_bounds, CArray.store.
    cbn [fst CArray.stores CArray.capacity forallb length].
    rewrite Nat.add_0_r. apply andb_comm.
  - destruct (Ascii.eqb c NUL).
    + unfold CArray.in_bounds, CArray.store.
      cbn [fst CArray.stores CArray.capacity forallb length].
      rewrite Nat.add_0_r. apply andb_comm.
    + rewrite IH. unfold CArray.in_bounds, CArray.store.
      cbn [fst CArray.stores CArray.capacity forallb length].
      rewrite Nat.add_succ_r. cbn [Nat.add].
      destruct (forallb _ (CArray.stores a)); cbn [andb];
        [| now rewrite andb_false_r].
      destruct (Nat.ltb_spec (S (i + length (until_NUL src))) (CArray.capacity a));
        destruct (Nat.ltb_spec i (CArray.capacity a)); try reflexivity; lia.
Qed.

Lemma strcpy_in_bounds (a : CArray.t) (src : cstring) :
  CArray.in_bounds (CArray.strcpy a src) =
  CArray.in_bounds a && (length (until_NUL src) <? CArray.capacity a)%nat.
Proof. unfold CArray.strcpy. now rewrite copy_from_in_bounds. Qed.

Lemma copy_from_capacity (src : cstring) :
  forall i a,
    CArray.capacity (fst (CArray.copy_from src i a)) = CArray.capacity a.
Proof.
  induction src as [| c src IH]; intros i a; cbn [CArray.copy_from].
  - reflexivity.
  - destruct (Ascii.eqb c NUL); [reflexivity |]. now rewrite IH.
Qed.

Lemma strcpy_capacity (a : CArray.t) (src : cstring) :
  CArray.capacity (CArray.strcpy a src) = CArray.capacity a.
Proof. apply copy_from_capacity. Qed.

Lemma copy_from_index (src : cstring) :
  forall i a, (i <= snd (CArray.copy_from src i a))%nat.
Proof.
  induction src as [| c src IH]; intros i a; cbn [CArray.copy_from].
  - cbn. lia.
  - destruct (Ascii.eqb c NUL); [cbn; lia |].
    pose proof (IH (S i) (CArray.store i c a)). lia.
Qed.

Lemma until_NUL_no_NUL (s : cstring) : no_NUL s = true -> until_NUL s = s.
Proof.
  induction s as [| c s IH]; [reflexivity |].
  cbn [no_NUL forallb until_NUL]. intros H.
  apply andb_true_iff in H as [Hc Hs]. apply negb_true_iff in Hc.
  rewrite Hc. f_equal. now apply IH.
Qed.

(** ** Texts printed into [logtxt] *)

Lemma no_NUL_app (s1 s2 : cstring) :
  no_NUL (s1 ++ s2) = no_NUL s1 && no_NUL s2.
Proof. apply forallb_app. Qed.


Lemma no_NUL_cons (c : ascii) (s : cstring) :
  no_NUL (c :: s) = negb (Ascii.eqb c NUL) && no_NUL s.
Proof. reflexivity. Qed.

Lemma read_from_no_NUL (a : CArray.t) :
  forall fuel i, no_NUL (CArray.read_from a i fuel) = true.
Proof.
  induction fuel as [| fuel IH]; intros i; cbn [CArray.read_from];
    [reflexivity |].
  destruct (CArray.load a i) as [c |]; [| reflexivity].
  destruct (Ascii.eqb c NUL) eqn:Hc; [reflexivity |].
  rewrite no_NUL_cons, Hc, IH. reflexivity.
Qed.

(** What is read from an array as a string holds no NUL. *)
Lemma c_str_no_NUL (a : CArray.t) : no_NUL (CArray.c_str a) = true.
Proof. apply read_from_no_NUL. Qed.

Lemma dec_uint_no_NUL (d : Decimal.uint) :
  no_NUL (str (DecimalString.NilEmpty.string_of_uint d)) = true.
Proof. induction d; cbn; auto. Qed.

Lemma dec_nat_no_NUL (d : Decimal.uint) :
  no_NUL (str (DecimalString.NilZero.string_of_uint d)) = true.
Proof.
  unfold DecimalString.NilZero.string_of_uint.
  destruct d; try reflexivity;
    match goal with
    | |- no_NUL (str (DecimalString.NilEmpty.string_of_uint ?u)) = true =>
        apply (dec_uint_no_NUL u)
    end.
Qed.

Lemma dec_no_NUL (z : Z) : no_NUL (dec z) = true.
Proof.
  unfold dec, DecimalString.NilZero.string_of_int.
  destruct (Z.to_int z) as [d | d].
  - apply dec_nat_no_NUL.
  - change (str (String "-" ?s)) with ("-"%char :: str s).
    rewrite no_NUL_cons. apply dec_nat_no_NUL.
Qed.

Lemma decn_no_NUL (n : nat) : no_NUL (decn n) = true.
Proof. apply dec_no_NUL. Qed.

(** [logx] finds in [logtxt] the text that was printed into it, as far
    as its first NUL. *)
Lemma sprintf_logx_until E xstatus opt (text : cstring) :
  sprintf_logx E xstatus opt text = logx E xstatus opt (until_NUL text).
Proof. unfold sprintf_logx, sprintf_logtxt. now rewrite c_str_strcpy. Qed.

Lemma sprintf_logx_text E xstatus opt (text : cstring) :
  no_NUL text = true ->
  sprintf_logx E xstatus opt text = logx E xstatus opt text.
Proof. intros H. now rewrite sprintf_logx_until, until_NUL_no_NUL. Qed.

(** The text fits [logtxt] when it is shorter than the array. *)
Lemma fits_logtxt_length (text : cstring) :
  fits_logtxt text = true <->
  (length (until_NUL text) < MAX_ERR_TEXT_LEN)%nat.
Proof.
  unfold fits_logtxt, sprintf_logtxt. rewrite strcpy_in_bounds.
  cbn [CArray.in_bounds CArray.fresh CArray.stores forallb andb CArray.capacity].
  apply Nat.ltb_lt.
Qed.

Lemma result_sprintf_logx E xstatus opt (text : cstring) :
  result (sprintf_logx E xstatus opt text) =
  if xstatus =? 0 then Done tt else Exit xstatus.
Proof. apply result_logx. Qed.

Lemma sprintf_logx_logged E opt (text : cstring) :
  no_NUL text = true ->
  sprintf_logx E 0 opt text = (logged E opt text, Done tt).
Proof. intros H. rewrite sprintf_logx_text by exact H. apply logx_0. Qed.

Lemma no_NUL_app_true (s1 s2 : cstring) :
  no_NUL s1 = true -> no_NUL s2 = true -> no_NUL (s1 ++ s2) = true.
Proof. intros H1 H2. now rewrite no_NUL_app, H1, H2. Qed.

Lemma clean_no_NUL (s : cstring) : clean s = true -> no_NUL s = true.
Proof.
  unfold clean, no_NUL. rewrite !forallb_forall. intros H c Hc.
  specialize (H c Hc). unfold field_char in H.
  destruct (Ascii.eqb_spec c NUL) as [-> | _]; [discriminate H | reflexivity].
Qed.

Lemma hex_uint_no_NUL (d : Hexadecimal.uint) :
  no_NUL (str (HexadecimalString.NilEmpty.string_of_uint d)) = true.
Proof. induction d; cbn; auto. Qed.

Lemma hex8_no_NUL (z : Z) : no_NUL (hex8 z) = true.
Proof.
  unfold hex8, hex_digits. cbv zeta.
  assert (Hp : no_NUL
                 (repeat "0"%char
                    (8 - length (str (HexadecimalString.NilEmpty.string_of_uint
                                        (N.to_hex_uint (Z.to_N z)))))
                  ++ str (HexadecimalString.NilEmpty.string_of_uint
                            (N.to_hex_uint (Z.to_N z)))) = true).
  { apply no_NUL_app_true; [| apply hex_uint_no_NUL].
    generalize (8 - length (str (HexadecimalString.NilEmpty.string_of_uint
                                   (N.to_hex_uint (Z.to_N z)))))%nat.
    intros n. induction n as [| n IH]; [reflexivity | exact IH]. }
  destruct (z =? 0); [exact Hp |].
  change (str "0x" ++ ?x) with ("0"%char :: "x"%char :: x).
  rewrite !no_NUL_cons. exact Hp.
Qed.

(** The texts of the loop hold no NUL when the strings printed into
    them hold none. *)
Ltac plain_text :=
  unfold msg_invisible, msg_illegal, msg_pathconf, msg_maxname, msg_mask,
    msg_script, msg_email, msg_alloc_mail, msg_too_many, msg_discard,
    msg_add_watch, msg_heap_corrupt, msg_added;
  repeat apply no_NUL_app_true;
  first [ apply c_str_no_NUL | apply decn_no_NUL | apply dec_no_NUL
        | apply hex8_no_NUL | assumption | apply clean_no_NUL; assumption
        | reflexivity ].

(** ** Options *)

(** C7, the code at [gidget -s]: the turn of the [switch] for a missing
    argument sets the level to 3 and leaves [opt.syslog] at 0, so that
    no call of [logx] writes to the system log. *)
Theorem syslog_flag_without_argument :
  exists opt,
    gig_opts [str "gidget"; str "-s"] = ([], Done opt) /\
    sloglev opt = 3 /\
    syslog opt = 0 /\
    forall E xstatus logtxt priority text,
      ~ In (Syslog priority text) (trace (logx E xstatus opt logtxt)).
Proof.
  eexists. split; [vm_compute; reflexivity |].
  split; [reflexivity |]. split; [reflexivity |].
  intros E xstatus logtxt priority text.
  unfold logx, when. cbn [syslog Z.eqb].
  destruct (xstatus =? 0); cbn; intros [H | []]; discriminate H.
Qed.

(** The sibling turn, [-s] with its argument, does set [opt.syslog]. *)
Lemma syslog_flag_with_argument :
  exists opt,
    gig_opts [str "gidget"; str "-s"; str "3"] = ([], Done opt) /\
    sloglev opt = 3 /\
    syslog opt = 1 /\
    forall E logtxt,
      In (Syslog 3 (log_line E (str "x" ++ logtxt)))
         (trace (logx E 0 opt (str "x" ++ logtxt))).
Proof.
  eexists. split; [vm_compute; reflexivity |].
  split; [reflexivity |]. split; [reflexivity |].
  intros E logtxt. rewrite trace_logx by discriminate.
  cbn [syslog sloglev Z.eqb]. right; left; reflexivity.
Qed.

(** *** Copies into the arrays of [opts_t] *)

Lemma copy_from_stores (src : cstring) :
  forall i a,
    no_NUL src = true ->
    exists w,
      CArray.copy_from src i a =
      (CArray.mk (CArray.capacity a)
                 (((i + length src)%nat, NUL) :: w ++ CArray.stores a),
       (i + length src)%nat) /\
      length w = length src.
Proof.
  induction src as [| c src IH]; intros i a Hn.
  - exists []. simpl. rewrite Nat.add_0_r. split; reflexivity.
  - simpl in Hn. apply andb_true_iff in Hn as [Hc Hn].
    simpl. apply negb_true_iff in Hc. rewrite Hc.
    destruct (IH (S i) (CArray.store i c a) Hn) as (w & Hw & Hl).
    exists (w ++ [(i, c)]). rewrite Hw. simpl.
    rewrite <- app_assoc, Nat.add_succ_r. split; [reflexivity |].
    rewrite length_app. simpl. lia.
Qed.

Lemma strcpy_overrun (a : CArray.t) (src : cstring) :
  no_NUL src = true ->
  strlen src = CArray.capacity a ->
  overrun_by_copy a (CArray.strcpy a src) src.
Proof.
  intros Hn Hl. unfold CArray.strcpy.
  destruct (copy_from_stores src 0 a Hn) as (w & Hw & Hlw).
  rewrite Hw. simpl. unfold strlen in Hl. rewrite Hl.
  repeat split.
  - unfold CArray.in_bounds. simpl. now rewrite Nat.ltb_irrefl.
  - exists w. split; [reflexivity |]. simpl. unfold strlen. lia.
Qed.

Lemma guard_accepts (cap : nat) (s : cstring) :
  strlen s = cap -> (cap <? strlen s)%nat = false.
Proof. intros ->. apply Nat.ltb_irrefl. Qed.

(** C10: an argument whose length is exactly the capacity of its
    destination passes the length guard of [-c], [-l], [-p] and of the
    bare configuration path, and the copy then stores length + 1
    characters, the last of them (the terminator) at the index equal to
    the capacity, outside the array. *)
Theorem option_copy_overruns_at_capacity (arg : cstring) :
  no_NUL arg = true ->
  (strlen arg = MAX_CONFIG_NAME_LEN ->
   exists opt,
     gig_opts [str "gidget"; str "-c"; arg] = ([], Done opt) /\
     overrun_by_copy (config opt_default) (config opt) arg) /\
  (strlen arg = MAX_LOG_NAME_LEN ->
   exists opt,
     gig_opts [str "gidget"; str "-l"; arg] = ([], Done opt) /\
     overrun_by_copy (logfile opt_default) (logfile opt) arg) /\
  (strlen arg = MAX_PID_NAME_LEN ->
   exists opt,
     gig_opts [str "gidget"; str "-p"; arg] = ([], Done opt) /\
     overrun_by_copy (pidfile opt_default) (pidfile opt) arg) /\
  (strlen arg = MAX_CONFIG_NAME_LEN ->
   hd NUL arg <> "-" ->
   exists opt,
     gig_opts [str "gidget"; arg] = ([], Done opt) /\
     overrun_by_copy (config opt_default) (config opt) arg).
Proof.
  intros Hn. repeat split.
  - intros Hl. eexists. split.
    + unfold gig_opts. cbn -[opt_default MAX_CONFIG_NAME_LEN strlen Nat.ltb].
      rewrite (guard_accepts _ _ Hl). reflexivity.
    + apply strcpy_overrun; [assumption | exact Hl].
  - intros Hl. eexists. split.
    + unfold gig_opts. cbn -[opt_default MAX_LOG_NAME_LEN strlen Nat.ltb].
      rewrite (guard_accepts _ _ Hl). reflexivity.
    + apply (strcpy_overrun (logfile opt_default)); [assumption | exact Hl].
  - intros Hl. eexists. split.
    + unfold gig_opts. cbn -[opt_default MAX_PID_NAME_LEN strlen Nat.ltb].
      rewrite (guard_accepts _ _ Hl). reflexivity.
    + apply (strcpy_overrun (pidfile opt_default)); [assumption | exact Hl].
  - intros Hl Hd.
    assert (Hops : getopt_all [arg] = ([], [arg])).
    { destruct arg as [| c [| c' arg']]; try discriminate Hl.
      simpl in Hd. cbn [getopt_all is_dashdash cluster_of].
      destruct (Ascii.eqb_spec c "-") as [-> | _]; [congruence |].
      destruct arg'; reflexivity. }
    eexists. split.
    + unfold gig_opts. cbn [tl]. rewrite Hops.
      cbn -[opt_default MAX_CONFIG_NAME_LEN strlen Nat.ltb].
      rewrite (guard_accepts _ _ Hl). reflexivity.
    + apply strcpy_overrun; [assumption | exact Hl].
Qed.

(** C10 at arguments made of 256 and of 128 letters. *)
Lemma option_copy_overruns_at_capacity_witness :
  (exists opt,
     gig_opts [str "gidget"; str "-c"; repeat "a" 256] = ([], Done opt) /\
     overrun_by_copy (config opt_default) (config opt) (repeat "a" 256)) /\
  (exists opt,
     gig_opts [str "gidget"; str "-l"; repeat "a" 256] = ([], Done opt) /\
     overrun_by_copy (logfile opt_default) (logfile opt) (repeat "a" 256)) /\
  (exists opt,
     gig_opts [str "gidget"; str "-p"; repeat "a" 128] = ([], Done opt) /\
     overrun_by_copy (pidfile opt_default) (pidfile opt) (repeat "a" 128)) /\
  (exists opt,
     gig_opts [str "gidget"; repeat "a" 256] = ([], Done opt) /\
     overrun_by_copy (config opt_default) (config opt) (repeat "a" 256)).
Proof.
  destruct (option_copy_overruns_at_capacity (repeat "a" 256) eq_refl)
    as (Hc & Hl & _ & Hb).
  destruct (option_copy_overruns_at_capacity (repeat "a" 128) eq_refl)
    as (_ & _ & Hp & _).
  split; [exact (Hc eq_refl) |].
  split; [exact (Hl eq_refl) |].
  split; [exact (Hp eq_refl) |].
  apply Hb; [reflexivity | discriminate].
Defined.

(** ** Mail *)

Lemma mailed_app (t1 t2 : list effect) :
  mailed (t1 ++ t2) = mailed t1 ++ mailed t2.
Proof.
  induction t1 as [| e t1 IH]; [reflexivity |].
  destruct e; simpl; rewrite IH; try reflexivity. apply app_assoc.
Qed.

Lemma popen_count_app (t1 t2 : list effect) :
  popen_count (t1 ++ t2) = (popen_count t1 + popen_count t2)%nat.
Proof.
  induction t1 as [| e t1 IH]; [reflexivity |].
  destruct e; simpl; rewrite IH; reflexivity.
Qed.

Lemma pump_spec (fromPipe : list ascii) :
  forall n,
    result (pump fromPipe n) = Done (n + length fromPipe)%nat /\
    mailed (trace (pump fromPipe n)) = fromPipe /\
    popen_count (trace (pump fromPipe n)) = 0%nat.
Proof.
  induction fromPipe as [| ch more IH]; intros n.
  - simpl. rewrite Nat.add_0_r. repeat split.
  - destruct (IH (S n)) as (Hr & Hm & Hp).
    cbn [pump]. rewrite result_bind, trace_bind. cbn [emit result trace fst snd].
    rewrite Hr, mailed_app, popen_count_app, Hm, Hp.
    repeat split. f_equal. simpl. lia.
Qed.

Lemma emit_all_spec (texts : list cstring) :
  result (emit_all texts) = Done tt /\
  mailed (trace (emit_all texts)) = concat texts /\
  popen_count (trace (emit_all texts)) = 0%nat.
Proof.
  induction texts as [| t more (Hr & Hm & Hp)]; [repeat split |].
  cbn [emit_all]. rewrite result_bind, trace_bind. cbn [emit result trace fst snd].
  rewrite Hr, mailed_app, popen_count_app, Hm, Hp.
  repeat split. simpl. now rewrite app_nil_r.
Qed.

(** C6, as the code has it: when the pipe from the script yields
    end-of-stream at the first read, the event child performs no effect
    at all: it does not open the mail transport and mails nothing.  When
    the pipe yields at least one byte, the child calls [popen] for the
    mail transport, once and before anything else.  When [popen] gives a
    stream, the child writes the headers and then every byte of the
    pipe, in order.  When [popen] fails, the child writes nothing and
    logs nothing: the output of the script is dropped. *)
Theorem mail_only_when_output (E : env) (opt : opts_t) (ppid : Z)
  (pony : trick_t) (event : event_t) (fileOrFolder shell command : cstring)
  (fromPipe : list ascii) :
  let run :=
    mail_output E opt ppid pony event fileOrFolder shell command fromPipe in
  (fromPipe = [] ->
   trace run = [] /\ popen_count (trace run) = 0%nat /\ mailed (trace run) = []) /\
  (fromPipe <> [] ->
   hd_error (trace run) = Some (Popen (MAILCOMMAND E)) /\
   popen_count (trace run) = 1%nat /\
   (popen_mail E = true ->
    mailed (trace run) =
    concat (mail_headers E pony event fileOrFolder shell command) ++ fromPipe) /\
   (popen_mail E = false ->
    run = ([Popen (MAILCOMMAND E)], Done 0%nat))).
Proof.
  intros run. subst run. split.
  - intros ->. repeat split.
  - intros Hne. destruct fromPipe as [| ch more]; [congruence |].
    unfold mail_output.
    destruct (pump_spec more 0) as (Hr & Hm & Hp).
    destruct (emit_all_spec (mail_headers E pony event fileOrFolder shell command))
      as (Hr' & Hm' & Hp').
    destruct (popen_mail E).
    + repeat (rewrite ?result_bind, ?trace_bind, ?Hr, ?Hr', ?result_logx;
              cbn [emit ret result trace fst snd Z.eqb]).
      unfold when. destruct (negb _).
      * rewrite result_logx. cbn [Z.eqb].
        rewrite !popen_count_app, !mailed_app, Hm, Hp, Hm', Hp'.
        destruct (logx_no_mail E 0 opt (msg_mailed E ppid (0 + length more)))
          as (-> & ->).
        repeat split; [| intros H; discriminate H].
        intros _. cbn [mailed app]. now rewrite !app_nil_r.
      * rewrite !popen_count_app, !mailed_app, Hm, Hp, Hm', Hp'.
        repeat split; [| intros H; discriminate H].
        intros _. cbn [mailed trace ret fst app]. now rewrite !app_nil_r.
    + cbn. repeat split. intros H; discriminate H.
Qed.

(** C6 at a script that writes nothing and at one that writes [hi], the
    mail transport being there, and at the latter when it is not. *)
Lemma mail_only_when_output_witness :
  let E :=
    {| getpid := 7; clock := []; LOGIN_NAME_MAX := 32;
       pathconf_NAME_MAX := fun _ => 255;
       inotify_add_watch := fun n _ _ => Z.of_nat n + 1;
       errno_add_watch := fun _ => 0; strerror := fun _ => [];
       popen_mail := true; mailTime := str "Tue Feb 15 00:00:00 2011";
       PATH_SENDMAIL := str "/usr/lib/sendmail";
       pony_script_NULL := true |} in
  let event := {| wd := 1; mask := 256; cookie := 0; len := 0; name := [] |} in
  let pony :=
    {| watchHandle := 1; actions := 256; fileName := str "/tmp/inbox";
       script := str "/bin/echo"; userid := str "nobody";
       mail := str "ops@example.test" |} in
  let run :=
    mail_output E opt_default 6 pony event (str "/tmp/inbox/a.txt")
                (str "/bin/sh") (str "/bin/echo") in
  popen_count (trace (run [])) = 0%nat /\
  popen_count (trace (run (str "hi"))) = 1%nat /\
  mailed (trace (run (str "hi"))) =
  concat (mail_headers E pony event (str "/tmp/inbox/a.txt") (str "/bin/sh")
                       (str "/bin/echo")) ++ str "hi".
Proof.
  intros E event pony run.
  pose proof (mail_only_when_output E opt_default 6 pony event
                (str "/tmp/inbox/a.txt") (str "/bin/sh") (str "/bin/echo")) as H.
  split.
  - destruct (H []) as (H0 & _). apply H0. reflexivity.
  - destruct (H (str "hi")) as (_ & H1).
    destruct H1 as (_ & Hc & Hm & _); [discriminate |].
    split; [exact Hc | apply Hm; reflexivity].
Defined.

(** C6 as it was claimed fails when [popen] fails: the script has
    written [hi], the child has called [popen], and nothing is mailed
    and nothing is logged. *)
Lemma refused_popen_counterexample :
  let E :=
    {| getpid := 7; clock := []; LOGIN_NAME_MAX := 32;
       pathconf_NAME_MAX := fun _ => 255;
       inotify_add_watch := fun n _ _ => Z.of_nat n + 1;
       errno_add_watch := fun _ => 0; strerror := fun _ => [];
       popen_mail := false; mailTime := str "Tue Feb 15 00:00:00 2011";
       PATH_SENDMAIL := str "/usr/lib/sendmail";
       pony_script_NULL := true |} in
  let event := {| wd := 1; mask := 256; cookie := 0; len := 0; name := [] |} in
  let pony :=
    {| watchHandle := 1; actions := 256; fileName := str "/tmp/inbox";
       script := str "/bin/echo"; userid := str "nobody";
       mail := str "ops@example.test" |} in
  let run :=
    mail_output E opt_default 6 pony event (str "/tmp/inbox/a.txt")
                (str "/bin/sh") (str "/bin/echo") (str "hi") in
  run = ([Popen (str "/usr/lib/sendmail -Fgidget -odi -oem -oi -t ")],
         Done 0%nat) /\
  mailed (trace run) = [] /\
  mailed (trace run) <>
  concat (mail_headers E pony event (str "/tmp/inbox/a.txt") (str "/bin/sh")
                       (str "/bin/echo")) ++ str "hi".
Proof.
  intros E event pony run. split; [reflexivity |]. split; [reflexivity |].
  vm_compute. discriminate.
Qed.

(** ** The name of the triggering object *)

Lemma cell_store_other (a : CArray.t) (i j : nat) (c : ascii) :
  i <> j -> CArray.cell (CArray.store j c a) i = CArray.cell a i.
Proof.
  intros Hij. unfold CArray.cell, CArray.load, CArray.store. simpl.
  destruct (Nat.eqb_spec i j); [contradiction | reflexivity].
Qed.

Lemma cell_store_same (a : CArray.t) (i : nat) (c : ascii) :
  CArray.cell (CArray.store i c a) i = c.
Proof.
  unfold CArray.cell, CArray.load, CArray.store. simpl.
  now rewrite Nat.eqb_refl.
Qed.

Lemma prefix_store_above (a : CArray.t) (t j : nat) (c : ascii) :
  (t <= j)%nat -> CArray.prefix (CArray.store j c a) t = CArray.prefix a t.
Proof.
  intros Hle. unfold CArray.prefix. apply map_ext_in.
  intros i Hi. apply in_seq in Hi. apply cell_store_other. lia.
Qed.

Lemma prefix_store_next (a : CArray.t) (t : nat) (c : ascii) :
  CArray.prefix (CArray.store t c a) (S t) = CArray.prefix a t ++ [c].
Proof.
  unfold CArray.prefix. rewrite seq_S, map_app. simpl.
  rewrite cell_store_same. f_equal.
  apply map_ext_in. intros i Hi. apply in_seq in Hi.
  apply cell_store_other. lia.
Qed.

Lemma copy_from_prefix (src : cstring) :
  forall t a,
    no_NUL src = true ->
    snd (CArray.copy_from src t a) = (t + length src)%nat /\
    CArray.prefix (fst (CArray.copy_from src t a)) (t + length src) =
    CArray.prefix a t ++ src.
Proof.
  induction src as [| c src IH]; intros t a Hn.
  - simpl. rewrite Nat.add_0_r, app_nil_r. split; [reflexivity |].
    now apply prefix_store_above.
  - simpl in Hn. apply andb_true_iff in Hn as [Hc Hn].
    apply negb_true_iff in Hc. simpl. rewrite Hc.
    destruct (IH (S t) (CArray.store t c a) Hn) as (Ht & Hp).
    rewrite Nat.add_succ_r. cbn [Nat.add] in Ht, Hp. split; [exact Ht |].
    rewrite Hp, prefix_store_next, <- app_assoc. reflexivity.
Qed.

Lemma munge_step (c : ascii) (a : CArray.t) (t : nat) :
  let r := if Ascii.eqb c apostrophe
           then CArray.copy_from mungeChar t a
           else (CArray.store t c a, S t) in
  snd r = (t + length (munge c))%nat /\
  CArray.prefix (fst r) (snd r) = CArray.prefix a t ++ munge c.
Proof.
  unfold munge. destruct (Ascii.eqb c apostrophe).
  - destruct (copy_from_prefix mungeChar t a eq_refl) as (Ht & Hp).
    cbv zeta. rewrite Ht. split; [reflexivity | exact Hp].
  - cbv zeta. cbn [fst snd length]. split; [lia | apply prefix_store_next].
Qed.

Lemma munge_name_done E opt M len (rest : list ascii) :
  forall i a t r,
    result (munge_name E opt M len rest i a t) = Done r ->
    assembled r = CArray.prefix a t ++ munged (name_read len rest i).
Proof.
  induction rest as [| c rest IH]; intros i a t r Hr.
  - simpl in Hr. injection Hr as <-. simpl. now rewrite app_nil_r.
  - cbn [munge_name name_read] in *.
    destruct ((i <=? len)%nat && negb (Ascii.eqb c NUL)).
    + pose proof (munge_step c a t) as Hs. cbv zeta in Hs.
      destruct (if Ascii.eqb c apostrophe then _ else _) as [a' t'].
      simpl in Hs. destruct Hs as (Ht & Hp).
      rewrite result_bind in Hr. unfold when in Hr.
      destruct (Z.of_nat t' >? M).
      * rewrite result_logx in Hr. discriminate Hr.
      * simpl in Hr. apply IH in Hr. rewrite Hr, Hp.
        unfold munged. simpl. now rewrite app_assoc.
    + simpl in Hr. injection Hr as <-. simpl. now rewrite app_nil_r.
Qed.

Lemma munge_name_fits E opt M len (rest : list ascii) :
  forall i a t,
    Z.of_nat (t + length (munged (name_read len rest i))) <= M ->
    exists r, munge_name E opt M len rest i a t = ([], Done r).
Proof.
  induction rest as [| c rest IH]; intros i a t Hfit.
  - eexists. reflexivity.
  - cbn [munge_name name_read] in *.
    destruct ((i <=? len)%nat && negb (Ascii.eqb c NUL)).
    + pose proof (munge_step c a t) as Hs. cbv zeta in Hs.
      destruct (if Ascii.eqb c apostrophe then _ else _) as [a' t'].
      simpl in Hs. destruct Hs as (Ht & _).
      unfold munged in Hfit. simpl in Hfit. rewrite length_app in Hfit.
      fold (munged (name_read len rest (S i))) in Hfit.
      unfold when. destruct (Z.gtb_spec (Z.of_nat t') M) as [Hgt | _]; [lia |].
      rewrite bind_ret_l. apply IH. lia.
    + eexists. reflexivity.
Qed.

Lemma assemble_done E opt M pony event r :
  no_NUL (fileName pony) = true ->
  result (assemble E opt M pony event) = Done r ->
  assembled r =
  fileName pony ++ slash :: munged (name_read (len event) (name event) 0).
Proof.
  intros Hn Hr. unfold assemble in Hr.
  destruct (copy_from_prefix (fileName pony) 0 (CArray.fresh (Z.to_nat M)) Hn)
    as (Ht & Hp).
  destruct (CArray.copy_from _ _ _) as [a t]. simpl in Ht, Hp. subst t.
  apply munge_name_done in Hr. rewrite Hr, prefix_store_next.
  rewrite Hp. simpl. now rewrite <- app_assoc.
Qed.

Lemma assemble_fits E opt M pony event :
  no_NUL (fileName pony) = true ->
  Z.of_nat (length (fileName pony ++ slash
                    :: munged (name_read (len event) (name event) 0))) <= M ->
  exists r, assemble E opt M pony event = ([], Done r).
Proof.
  intros Hn Hfit. unfold assemble.
  destruct (copy_from_prefix (fileName pony) 0 (CArray.fresh (Z.to_nat M)) Hn)
    as (Ht & _).
  destruct (CArray.copy_from _ _ _) as [a t]. simpl in Ht. subst t.
  apply munge_name_fits. rewrite length_app in Hfit. simpl in Hfit. lia.
Qed.

(** *** Counting apostrophes and munges *)

Lemma apostrophes_app (s1 s2 : cstring) :
  apostrophes (s1 ++ s2) = (apostrophes s1 + apostrophes s2)%nat.
Proof. unfold apostrophes. now rewrite filter_app, length_app. Qed.

Lemma apostrophes_cons (c : ascii) (s : cstring) :
  apostrophes (c :: s) =
  ((if Ascii.eqb c apostrophe then 1 else 0) + apostrophes s)%nat.
Proof.
  unfold apostrophes. cbn [filter]. rewrite Ascii.eqb_sym.
  destruct (Ascii.eqb c apostrophe); reflexivity.
Qed.

Lemma munged_cons (c : ascii) (s : cstring) :
  munged (c :: s) = munge c ++ munged s.
Proof. reflexivity. Qed.

Lemma apostrophes_munged (s : cstring) : apostrophes (munged s) = 0%nat.
Proof.
  induction s as [| c s IH]; [reflexivity |].
  rewrite munged_cons, apostrophes_app, IH.
  unfold munge. destruct (Ascii.eqb c apostrophe) eqn:Hc; [reflexivity |].
  rewrite apostrophes_cons, Hc. reflexivity.
Qed.

Lemma is_prefix_munge (s : cstring) :
  is_prefix mungeChar s =
  match s with
  | a :: b :: c :: _ => Ascii.eqb "%" a && (Ascii.eqb "2" b && Ascii.eqb "7" c)
  | _ => false
  end.
Proof.
  change mungeChar with ["%"; "2"; "7"].
  destruct s as [| a [| b [| c s]]]; cbn [is_prefix];
    rewrite ?andb_false_r, ?andb_true_r; reflexivity.
Qed.

Lemma not_munge_start (x : ascii) (rest : cstring) :
  Ascii.eqb "%" x = false -> is_prefix mungeChar (x :: rest) = false.
Proof.
  intros H. change mungeChar with ["%"; "2"; "7"].
  cbn [is_prefix]. now rewrite H.
Qed.

(** Munging the tail of a string neither creates nor destroys an
    occurrence that starts at its head. *)
Lemma is_prefix_munged_tail (c : ascii) (s : cstring) :
  is_prefix mungeChar (c :: munged s) = is_prefix mungeChar (c :: s).
Proof.
  destruct s as [| d s]; [reflexivity |].
  rewrite munged_cons. unfold munge at 1.
  destruct (Ascii.eqb_spec d apostrophe) as [-> | Hd].
  - change (mungeChar ++ munged s) with ("%" :: "2" :: "7" :: munged s).
    rewrite !is_prefix_munge.
    replace (Ascii.eqb "2" "%") with false by reflexivity.
    replace (Ascii.eqb "2" apostrophe) with false by reflexivity.
    destruct s; now rewrite ?andb_false_r.
  - cbn [app]. destruct s as [| e s]; [reflexivity |].
    rewrite munged_cons. unfold munge at 1.
    destruct (Ascii.eqb_spec e apostrophe) as [-> | He].
    + change (mungeChar ++ munged s) with ("%" :: "2" :: "7" :: munged s).
      rewrite !is_prefix_munge.
      replace (Ascii.eqb "7" "%") with false by reflexivity.
      replace (Ascii.eqb "7" apostrophe) with false by reflexivity.
      reflexivity.
    + rewrite !is_prefix_munge. reflexivity.
Qed.

Lemma occurrences_munged (s : cstring) :
  occurrences mungeChar (munged s) =
  (occurrences mungeChar s + apostrophes s)%nat.
Proof.
  induction s as [| c s IH]; [reflexivity |].
  rewrite munged_cons, apostrophes_cons. unfold munge.
  destruct (Ascii.eqb_spec c apostrophe) as [-> | Hc].
  - change (mungeChar ++ munged s) with ("%" :: "2" :: "7" :: munged s).
    cbn [occurrences].
    replace (is_prefix mungeChar ("%" :: "2" :: "7" :: munged s)) with true
      by reflexivity.
    rewrite (not_munge_start "2"), (not_munge_start "7"),
      (not_munge_start apostrophe), IH by reflexivity.
    lia.
  - cbn [app occurrences]. rewrite is_prefix_munged_tail, IH. lia.
Qed.

Lemma occurrences_separated (p s : cstring) :
  occurrences mungeChar (p ++ slash :: s) =
  (occurrences mungeChar p + occurrences mungeChar s)%nat.
Proof.
  induction p as [| c p IH].
  - cbn [app occurrences]. now rewrite (not_munge_start slash) by reflexivity.
  - cbn [app occurrences]. rewrite IH, !is_prefix_munge.
    destruct p as [| d [| e p]]; cbn [app].
    + replace (Ascii.eqb "2" slash) with false by reflexivity.
      destruct s; now rewrite ?andb_false_r.
    + replace (Ascii.eqb "7" slash) with false by reflexivity.
      now rewrite ?andb_false_r.
    + lia.
Qed.

(** ** The configuration loop *)

Lemma logx_logged E opt logtxt :
  logx E 0 opt logtxt = (logged E opt logtxt, Done tt).
Proof. apply logx_0. Qed.

Lemma yields_ret {A} (a : A) (P : A -> Prop) : P a -> yields (ret a) P.
Proof. intros H. exists a. split; [reflexivity | exact H]. Qed.

Lemma yields_bind {A B} (m : prog A) (k : A -> prog B)
  (P : A -> Prop) (Q : B -> Prop) :
  yields m P -> (forall a, P a -> yields (k a) Q) -> yields (bind m k) Q.
Proof.
  intros (a & Ha & HP) Hk. destruct (Hk a HP) as (b & Hb & HQ).
  exists b. split; [| exact HQ]. now rewrite result_bind, Ha.
Qed.

Lemma yields_log E opt logtxt {A} (k : prog A) (Q : A -> Prop) :
  yields k Q -> yields (logx E 0 opt logtxt ;; k) Q.
Proof.
  intros Hk. apply (yields_bind _ _ (fun _ => True)); [| intros _ _; exact Hk].
  exists tt. split; [| exact I]. now rewrite result_logx.
Qed.

Lemma yields_when_log E opt (b : bool) logtxt {A} (k : prog A) (Q : A -> Prop) :
  yields k Q -> yields (when b (logx E 0 opt logtxt) ;; k) Q.
Proof.
  intros Hk. destruct b; [now apply yields_log |].
  unfold when. now rewrite bind_ret_l.
Qed.

Lemma yields_weaken {A} (p : prog A) (P Q : A -> Prop) :
  yields p P -> (forall a, P a -> Q a) -> yields p Q.
Proof. intros (a & Ha & HP) H. exists a. auto. Qed.

Lemma scan_frame_refl (m : main_t) : scan_frame m m.
Proof. constructor; auto. Qed.

Lemma scan_frame_trans (m1 m2 m3 : main_t) :
  scan_frame m1 m2 -> scan_frame m2 m3 -> scan_frame m1 m3.
Proof.
  intros [a1 b1 c1 d1 e1 f1 n1 g1 h1] [a2 b2 c2 d2 e2 f2 n2 g2 h2].
  constructor.
  - congruence.
  - congruence.
  - congruence.
  - congruence.
  - auto.
  - lia.
  - intros H. rewrite n2 by lia. auto.
  - intros H. rewrite g2 by lia. auto.
  - intros H. rewrite h2 by lia. auto.
Qed.

Ltac frame_now :=
  constructor; cbn; intros; try reflexivity; try assumption;
  try congruence; try lia; auto.

Lemma check_char_frame E opt n c m :
  yields (check_char E opt n c m)
         (fun m' => scan_frame m m' /\ fieldNo m' = fieldNo m /\
                    tokenStart m' = tokenStart m /\ pony m' = pony m /\
                    maxNameLen m' = maxNameLen m).
Proof.
  unfold check_char.
  destruct (negb (isprint c)); [destruct (negb (Ascii.eqb c LF)) |
                                destruct (Ascii.eqb c apostrophe)];
    try apply yields_log; apply yields_ret; (split; [frame_now | repeat split]).
Qed.

Lemma load_field_frame E opt confToken fieldLen m :
  (1 <= fieldNo m)%nat ->
  yields (load_field E opt confToken fieldLen m)
         (fun m' => fieldNo m' = fieldNo m /\
                    forall m0, (fieldNo m = S (fieldNo m0)) ->
                               scan_frame m0 m -> scan_frame m0 m').
Proof.
  intros Hf. unfold load_field.
  destruct (fieldNo m) as [| [| [| [| [| [| k]]]]]] eqn:Hn; [lia | | | | | |].
  - destruct (_ <=? 0).
    + apply yields_log, yields_ret. split; [assumption |].
      intros m0 H0 []. frame_now.
    + destruct (_ >? _).
      * rewrite bind_assoc. apply yields_when_log.
        rewrite !bind_ret_l. apply yields_ret. split; [assumption |].
        intros m0 H0 []. frame_now.
      * rewrite bind_ret_l. apply yields_ret. split; [assumption |].
        intros m0 H0 []. frame_now.
  - destruct (forallb isdigit confToken).
    + apply yields_ret. split; [assumption |]. intros m0 H0 []. frame_now.
    + apply yields_log, yields_ret. split; [assumption |].
      intros m0 H0 []. frame_now.
  - destruct (_ >? _).
    + apply yields_log, yields_ret. split; [assumption |].
      intros m0 H0 []. frame_now.
    + apply yields_ret. split; [assumption |]. intros m0 H0 []. frame_now.
  - destruct (_ >? _).
    + apply yields_log, yields_ret. split; [assumption |].
      intros m0 H0 []. frame_now.
    + apply yields_ret. split; [assumption |]. intros m0 H0 []. frame_now.
  - destruct (_ >? _); [| destruct (scriptNULL m)].
    + apply yields_log, yields_ret. split; [assumption |].
      intros m0 H0 []. frame_now.
    + apply yields_log, yields_ret. split; [assumption |].
      intros m0 H0 []. frame_now.
    + apply yields_ret. split; [assumption |]. intros m0 H0 []. frame_now.
  - apply yields_log, yields_ret. split; [assumption |]. intros m0 H0 H. exact H.
Qed.

Lemma take_field_frame E opt confLine recordLen m :
  yields (take_field E opt confLine recordLen m)
         (fun m' => scan_frame m m' /\ fieldNo m' = S (fieldNo m) /\
                    tokenStart m' = (recordLen + 1)%nat).
Proof.
  unfold take_field.
  eapply yields_bind.
  - apply load_field_frame. cbn. lia.
  - cbn beta. intros a (Hf & Ha). apply yields_ret.
    assert (H : scan_frame m a).
    { apply Ha; [reflexivity | frame_now]. }
    cbn in Hf. destruct H. repeat split; cbn; auto.
Qed.

Lemma scan_record_frame E opt confLine (rest : cstring) :
  forall recordLen m,
    yields (scan_record E opt confLine rest recordLen m)
           (fun m' => scan_frame m m' /\
                      fieldNo m' = (fieldNo m + count_fields rest)%nat).
Proof.
  induction rest as [| c rest IH]; intros n m.
  - apply yields_ret. split; [apply scan_frame_refl | simpl; lia].
  - cbn [scan_record count_fields]. destruct (ends_record c).
    + apply yields_ret. split; [apply scan_frame_refl | lia].
    + eapply yields_bind; [apply check_char_frame |].
      cbn beta. intros m1 (F1 & Hf1 & _).
      eapply yields_bind with
        (P := fun m2 => scan_frame m m2 /\
                        fieldNo m2 = (fieldNo m + if is_delimiter c then 1 else 0)%nat).
      * destruct (is_delimiter c).
        -- eapply yields_weaken; [apply take_field_frame |].
           cbn beta. intros m2 (F2 & Hf2 & _). split.
           ++ eapply scan_frame_trans; eassumption.
           ++ lia.
        -- apply yields_ret. split; [assumption | lia].
      * cbn beta. intros m2 (F2 & Hf2).
        eapply yields_weaken; [apply IH |].
        cbn beta. intros m3 (F3 & Hf3). split.
        -- eapply scan_frame_trans; eassumption.
        -- lia.
Qed.

(** *** Loading *)

Lemma seq_snoc (n : nat) : seq 0 (S n) = seq 0 n ++ [n].
Proof. now rewrite seq_S. Qed.

(** What [add_trick] does, by the answer of the kernel. *)
Lemma add_trick_cases E opt m :
  let wd := inotify_add_watch E (watches m) (fileName (pony m)) (actions (pony m)) in
  let p := set_watchHandle wd (pony m) in
  (wd < 0 ->
   yields (add_trick E opt m)
          (fun m' => trickHeap m' = trickHeap m /\ trickCount m' = trickCount m)) /\
  (0 <= wd -> wd <> Z.of_nat (trickCount m) + 1 ->
   add_trick E opt m = (trace (logx E 2 opt msg_heap_corrupt), Exit 2)) /\
  (wd = Z.of_nat (trickCount m) + 1 ->
   yields (add_trick E opt m)
          (fun m' => trickHeap m' = trickHeap m ++ [p] /\
                     trickCount m' = S (trickCount m))).
Proof.
  intros wd p. unfold add_trick. fold wd. repeat split.
  - intros Hneg. destruct (Z.ltb_spec wd 0) as [_ | H]; [| lia].
    do 2 apply yields_log. apply yields_ret. split; reflexivity.
  - intros Hpos Hne. destruct (Z.ltb_spec wd 0) as [H | _]; [lia |].
    cbn [set_watches set_pony trickCount].
    destruct (Z.eqb_spec wd (Z.of_nat (trickCount m) + 1)) as [H | _]; [lia |].
    cbn [negb when].
    rewrite (sprintf_logx_text E 2 opt msg_heap_corrupt eq_refl).
    rewrite (prog_eta (logx E 2 opt msg_heap_corrupt)), result_logx.
    reflexivity.
  - intros Heq. destruct (Z.ltb_spec wd 0) as [H | _]; [lia |].
    cbn [set_watches set_pony trickCount].
    destruct (Z.eqb_spec wd (Z.of_nat (trickCount m) + 1)) as [_ | H]; [| lia].
    cbn [negb when]. rewrite bind_ret_l.
    apply yields_when_log, yields_ret. split; reflexivity.
Qed.

Lemma bind_done {A B} (m : prog A) (k : A -> prog B) (a : A) :
  result m = Done a ->
  bind m k = (trace m ++ trace (k a), result (k a)).
Proof.
  intros H. rewrite (prog_eta (bind m k)), result_bind, trace_bind, H.
  reflexivity.
Qed.

Lemma load_line_eq E opt m confLine m2 :
  result (scan_record E opt confLine confLine 0 (line_start m)) = Done m2 ->
  load_line E opt m confLine =
  (trace (scan_record E opt confLine confLine 0 (line_start m))
   ++ trace (accept_line E opt m2),
   result (accept_line E opt m2)).
Proof. intros H. unfold load_line. now apply bind_done. Qed.

Lemma scan_line E opt m confLine :
  exists m2,
    result (scan_record E opt confLine confLine 0 (line_start m)) = Done m2 /\
    scan_frame (line_start m) m2 /\
    fieldNo m2 = count_fields confLine.
Proof.
  destruct (scan_record_frame E opt confLine confLine 0 (line_start m))
    as (m2 & Hr & F & Hf).
  exists m2. split; [exact Hr |]. split; [exact F | exact Hf].
Qed.

Lemma heap_indexed_snoc (m m' : main_t) (p : trick_t) :
  heap_indexed m ->
  trickHeap m' = trickHeap m ++ [p] ->
  trickCount m' = S (trickCount m) ->
  watchHandle p = Z.of_nat (trickCount m) + 1 ->
  heap_indexed m'.
Proof.
  unfold heap_indexed. intros H Hh Hc Hw.
  rewrite Hh, Hc, seq_snoc, !map_app, H. simpl. now rewrite Hw.
Qed.

Lemma accept_line_inv E opt m :
  loader_inv E m ->
  done_or_corrupt E opt (accept_line E opt m) (loader_inv E).
Proof.
  intros [Hi Hr]. unfold accept_line, done_or_corrupt.
  destruct (negb (fieldNo m =? 0)%nat); [| now split].
  destruct (truthy (badPony m) || (fieldNo m <? 5)%nat).
  - rewrite result_bind, result_sprintf_logx. now split.
  - pose proof (add_trick_cases E opt m) as H. cbv zeta in H.
    destruct H as (Hneg & Hbad & Hgood).
    set (wd := inotify_add_watch E (watches m) (fileName (pony m))
                                 (actions (pony m))) in *.
    destruct (Z.ltb_spec wd 0) as [Hlt | Hge].
    + destruct (Hneg Hlt) as (m' & -> & Hh & Hc). split.
      * unfold heap_indexed. now rewrite Hh, Hc.
      * now rewrite Hh.
    + destruct (Z.eq_dec wd (Z.of_nat (trickCount m) + 1)) as [Heq | Hne].
      * destruct (Hgood Heq) as (m' & -> & Hh & Hc). split.
        -- eapply heap_indexed_snoc; eauto.
        -- rewrite Hh. apply Forall_app. split; [assumption |].
           constructor; [| constructor]. split; [exact Hge |].
           exists (watches m). reflexivity.
      * rewrite (Hbad Hge Hne). cbn [result trace fst snd].
        split; [reflexivity |]. exists []. reflexivity.
Qed.

Lemma loader_inv_frame E m m2 :
  loader_inv E m -> scan_frame (line_start m) m2 -> loader_inv E m2.
Proof.
  intros [Hi Hr] F. destruct F as [Hh Hc _ _ _ _ _ _ _]. cbn in Hh, Hc. split.
  - unfold heap_indexed. now rewrite Hh, Hc.
  - now rewrite Hh.
Qed.

Lemma load_line_inv E opt m confLine :
  loader_inv E m ->
  done_or_corrupt E opt (load_line E opt m confLine) (loader_inv E).
Proof.
  intros Hinv. destruct (scan_line E opt m confLine) as (m2 & Hr & F & _).
  rewrite (load_line_eq E opt m confLine m2 Hr).
  pose proof (accept_line_inv E opt m2 (loader_inv_frame E m m2 Hinv F)) as H.
  unfold done_or_corrupt in *. cbn [result trace fst snd].
  destruct (result (accept_line E opt m2)) as [m' | s]; [exact H |].
  destruct H as (-> & before & ->). split; [reflexivity |].
  eexists. apply app_assoc.
Qed.

Lemma load_lines_inv E opt (configFile : list cstring) :
  forall m,
    loader_inv E m ->
    done_or_corrupt E opt (load_lines E opt m configFile) (loader_inv E).
Proof.
  induction configFile as [| confLine more IH]; intros m Hinv.
  - exact Hinv.
  - cbn [load_lines]. pose proof (load_line_inv E opt m confLine Hinv) as H.
    unfold done_or_corrupt in *. rewrite result_bind, trace_bind.
    destruct (result (load_line E opt m confLine)) as [m' | s]; [| exact H].
    specialize (IH m' H).
    destruct (result (load_lines E opt m' more)) as [m'' | s]; [exact IH |].
    destruct IH as (-> & before & ->). split; [reflexivity |].
    eexists. apply app_assoc.
Qed.

Lemma loader_inv_main_on E : loader_inv E (main_on E).
Proof. split; [reflexivity | constructor]. Qed.

Lemma heap_indexed_nth (m : main_t) :
  heap_indexed m ->
  length (trickHeap m) = trickCount m /\
  forall i t, nth_error (trickHeap m) i = Some t ->
              watchHandle t = Z.of_nat i + 1.
Proof.
  unfold heap_indexed. intros H.
  assert (Hl : length (trickHeap m) = trickCount m).
  { apply (f_equal (@length Z)) in H.
    now rewrite !length_map, length_seq in H. }
  split; [exact Hl |]. intros i t Hn.
  assert (Hi : (i < trickCount m)%nat).
  { rewrite <- Hl. apply nth_error_Some. congruence. }
  apply (map_nth_error watchHandle) in Hn. rewrite H in Hn.
  rewrite nth_error_map, nth_error_seq in Hn.
  apply Nat.ltb_lt in Hi. rewrite Hi in Hn. simpl in Hn. congruence.
Qed.

Lemma heap_corrupt_printed E opt :
  In (Print stderr (log_line E msg_heap_corrupt))
     (trace (logx E 2 opt msg_heap_corrupt)).
Proof. rewrite trace_logx by discriminate. left. reflexivity. Qed.

(** C1: when the loop ends normally, the table holds [trickCount]
    tricks and the trick at position [i] has watch descriptor [i + 1];
    when the kernel answers a registration with a descriptor (a result
    that is not negative) other than [trickCount + 1], [logx] is called
    with status 2 and the heap-corrupt text, and the process exits on
    the spot, the trick not stored; and the loop exits in no other
    way. *)
Theorem watch_id_indexing (E : env) (opt : opts_t) (configFile : list cstring) :
  (forall m,
     result (load_config E opt configFile) = Done m ->
     length (trickHeap m) = trickCount m /\
     forall i t, nth_error (trickHeap m) i = Some t ->
                 watchHandle t = Z.of_nat i + 1) /\
  (forall m,
     let wd := inotify_add_watch E (watches m) (fileName (pony m))
                                 (actions (pony m)) in
     0 <= wd -> wd <> Z.of_nat (trickCount m) + 1 ->
     add_trick E opt m = (trace (logx E 2 opt msg_heap_corrupt), Exit 2) /\
     In (Print stderr (log_line E msg_heap_corrupt))
        (trace (add_trick E opt m))) /\
  (forall s,
     result (load_config E opt configFile) = Exit s ->
     s = 2 /\
     exists before,
       trace (load_config E opt configFile) =
       before ++ trace (logx E 2 opt msg_heap_corrupt)).
Proof.
  pose proof (load_lines_inv E opt configFile (main_on E)
                (loader_inv_main_on E)) as H.
  unfold done_or_corrupt in H. fold (load_config E opt configFile) in H.
  repeat split.
  - rewrite H0 in H. now apply heap_indexed_nth, H.
  - rewrite H0 in H. now apply heap_indexed_nth, H.
  - destruct (add_trick_cases E opt m) as (_ & Hbad & _). now apply Hbad.
  - destruct (add_trick_cases E opt m) as (_ & Hbad & _).
    rewrite (Hbad H0 H1). apply heap_corrupt_printed.
  - rewrite H0 in H. apply H.
  - rewrite H0 in H. apply H.
Qed.

(** C1 at a file of two entries, on a kernel that numbers its watches
    from 1 and on one that answers 7 to the first registration. *)
Lemma watch_id_indexing_witness :
  let configFile :=
    [ln "/tmp/inbox:256:/bin/echo hello:nobody:ops@example.test";
     ln "/tmp/outbox:2:/bin/true:root:root"] in
  (exists m,
     result (load_config stub_machine opt_default configFile) = Done m /\
     length (trickHeap m) = 2%nat /\
     forall i t, nth_error (trickHeap m) i = Some t ->
                 watchHandle t = Z.of_nat i + 1) /\
  (exists m,
     result (scan_record stuck_machine opt_default (hd [] configFile)
                         (hd [] configFile) 0 (line_start main0)) = Done m /\
     add_trick stuck_machine opt_default m =
     (trace (logx stuck_machine 2 opt_default msg_heap_corrupt), Exit 2)) /\
  result (load_config stuck_machine opt_default configFile) = Exit 2.
Proof.
  intros configFile.
  destruct (watch_id_indexing stub_machine opt_default configFile)
    as (Hgood & _ & _).
  destruct (watch_id_indexing stuck_machine opt_default configFile)
    as (_ & Hbad & Hexit).
  split; [| split].
  - eexists. split; [vm_compute; reflexivity |].
    split; [reflexivity |]. apply Hgood. vm_compute. reflexivity.
  - eexists. split; [vm_compute; reflexivity |].
    apply Hbad; vm_compute; congruence.
  - assert (H : result (load_config stuck_machine opt_default configFile) = Exit 2)
      by (vm_compute; reflexivity).
    destruct (Hexit 2 H) as (_ & _). exact H.
Defined.

(** *** Records with too few fields *)

Lemma msg_discard_not_empty opt n : msg_discard opt n <> [].
Proof. discriminate. Qed.

Lemma logged_prints E opt logtxt :
  logtxt <> [] -> In (Print stdout (log_line E logtxt)) (logged E opt logtxt).
Proof.
  intros H. unfold logged. rewrite trace_logx by assumption. left. reflexivity.
Qed.

(** A record of one to four fields is reported and discarded. *)
Lemma short_record_discarded E opt m confLine :
  (1 <= count_fields confLine < 5)%nat ->
  yields (load_line E opt m confLine)
         (fun m' => trickHeap m' = trickHeap m /\
                    trickCount m' = trickCount m) /\
  exists before,
    trace (load_line E opt m confLine) =
    before ++ logged E opt (msg_discard opt (S (lineNo m))).
Proof.
  intros Hc. destruct (scan_line E opt m confLine) as (m2 & Hr & F & Hf).
  rewrite (load_line_eq E opt m confLine m2 Hr).
  destruct F as [Hh Ht _ Hl _ _ _ _ _]. cbn in Hh, Ht, Hl.
  unfold accept_line.
  destruct (Nat.eqb_spec (fieldNo m2) 0) as [H0 | _]; [lia |].
  destruct (Nat.ltb_spec (fieldNo m2) 5) as [_ | H5]; [| lia].
  rewrite orb_true_r. cbn [negb].
  rewrite Hl, sprintf_logx_logged by plain_text. split.
  - exists m2. split; [reflexivity | now split].
  - eexists. cbn. now rewrite app_nil_r.
Qed.

(** *** Empty lines and comments *)

(** C4, the code at a line that holds a newline and nothing else: the
    newline ends a first field, which is empty, and the line is reported
    as discarded like any record of fewer than five fields. *)
Theorem blank_line_is_reported (E : env) (opt : opts_t) (m : main_t) :
  yields (load_line E opt m [LF])
         (fun m' => trickHeap m' = trickHeap m /\
                    trickCount m' = trickCount m) /\
  In (Print stdout (log_line E (msg_discard opt (S (lineNo m)))))
     (trace (load_line E opt m [LF])).
Proof.
  destruct (short_record_discarded E opt m [LF]) as (Hy & before & Ht).
  - cbn. lia.
  - split; [exact Hy |]. rewrite Ht. apply in_or_app. right.
    apply logged_prints, msg_discard_not_empty.
Qed.

(** A line that starts with the comment character, and the empty
    string, are skipped without a word. *)
Lemma comment_line_is_silent E opt m (text : cstring) :
  load_line E opt m ("#" :: text) = ([], Done (line_start m)) /\
  load_line E opt m [] = ([], Done (line_start m)).
Proof. split; reflexivity. Qed.

(** What a Linux machine logs for a file of a comment, an empty line
    and an entry. *)
Lemma blank_line_on_linux :
  let configFile :=
    [ln "# tricks"; ln ""; ln "/tmp/inbox:256:/bin/true:root:root"] in
  let E := linux_machine [(str "/tmp/inbox", 256)] in
  trace (load_config E opt_default configFile) =
  [Print stdout (log_line E (msg_pathconf []));
   Print stdout (log_line E (msg_discard opt_default 2))] /\
  option_map (map fileName) (tricks_of (load_config E opt_default configFile)) =
  Some [str "/tmp/inbox"].
Proof. vm_compute. split; reflexivity. Qed.

(** *** The mask of a loaded trick *)

(** C9, as the code has it: the loop makes no test of its own on the
    value of the mask; what it puts in the table is what the kernel
    accepted, with the mask it was given.  So the masks of the table are
    all non-zero on a machine whose kernel refuses an empty mask. *)
Theorem loaded_mask_went_through_kernel (E : env) (opt : opts_t)
  (configFile : list cstring) (m : main_t) :
  result (load_config E opt configFile) = Done m ->
  Forall (registered E) (trickHeap m) /\
  ((forall n path, inotify_add_watch E n path 0 < 0) ->
   Forall (fun t => actions t <> 0) (trickHeap m)).
Proof.
  intros Hr.
  pose proof (load_lines_inv E opt configFile (main_on E)
                (loader_inv_main_on E)) as H.
  unfold done_or_corrupt in H. fold (load_config E opt configFile) in H.
  rewrite Hr in H. destruct H as (_ & Hreg). split; [exact Hreg |].
  intros Hkernel. eapply Forall_impl; [| exact Hreg].
  intros t (Hpos & n & Hwd) Hzero.
  rewrite Hzero in Hwd. specialize (Hkernel n (fileName t)). lia.
Qed.

(** C9 at a file whose second entry has the mask 0, on a machine whose
    kernel refuses it and goes on numbering with the third entry. *)
Lemma loaded_mask_went_through_kernel_witness :
  let configFile :=
    [ln "/tmp/outbox:256:/bin/true:root:root";
     ln "/tmp/inbox:0:/bin/true:root:root";
     ln "/tmp/spool:2:/bin/true:root:root"] in
  let E :=
    linux_machine
      [(str "/tmp/outbox", 256); (str "/tmp/inbox", 0); (str "/tmp/spool", 2)] in
  exists m,
    result (load_config E opt_default configFile) = Done m /\
    map actions (trickHeap m) = [256; 2] /\
    map watchHandle (trickHeap m) = [1; 2] /\
    Forall (fun t => actions t <> 0) (trickHeap m).
Proof.
  intros configFile E. eexists.
  split; [vm_compute; reflexivity |]. split; [reflexivity |].
  split; [reflexivity |].
  apply (loaded_mask_went_through_kernel E opt_default configFile).
  - vm_compute. reflexivity.
  - intros n path. reflexivity.
Defined.

(** The loop itself makes no test on the value of the mask: on a
    machine whose kernel grants every watch, the mask fields [0] and the
    empty one pass the test for digits, and the tricks are loaded with
    the mask 0. *)
Lemma zero_mask_reaches_the_kernel :
  let configFile :=
    [ln "/tmp/inbox:0:/bin/true:root:root";
     ln "/tmp/outbox::/bin/true:root:root"] in
  option_map (map actions)
    (tricks_of (load_config stub_machine opt_default configFile)) =
  Some [0; 0] /\
  trace (load_config stub_machine opt_default configFile) = [].
Proof. vm_compute. split; reflexivity. Qed.

(** *** The mask field *)

Lemma bind_ext {A B} (m : prog A) (f g : A -> prog B) :
  (forall a, f a = g a) -> bind m f = bind m g.
Proof.
  intros H. destruct m as [t [a | s]]; simpl; [now rewrite H | reflexivity].
Qed.

Lemma scan_record_app E opt confLine (a b : cstring) :
  forall n m,
    forallb (fun c => negb (ends_record c)) a = true ->
    scan_record E opt confLine (a ++ b) n m =
    bind (scan_record E opt confLine a n m)
         (fun m1 => scan_record E opt confLine b (n + length a) m1).
Proof.
  induction a as [| c a IH]; intros n m Ha.
  - cbn [app scan_record length]. now rewrite bind_ret_l, Nat.add_0_r.
  - cbn [forallb] in Ha. apply andb_true_iff in Ha as [Hc Ha].
    apply negb_true_iff in Hc.
    cbn [app scan_record length]. rewrite Hc, !bind_assoc.
    apply bind_ext. intros m1. rewrite bind_assoc.
    apply bind_ext. intros m2. rewrite (IH (S n) m2 Ha).
    now rewrite Nat.add_succ_r.
Qed.

Lemma field_text_no_end (f : cstring) :
  field_text f = true -> forallb (fun c => negb (ends_record c)) f = true.
Proof.
  unfold field_text. rewrite !forallb_forall. intros H c Hc.
  specialize (H c Hc). now apply andb_true_iff in H as [_ H].
Qed.

Lemma delimiter_no_end (d : ascii) :
  is_delimiter d = true -> ends_record d = false.
Proof.
  unfold is_delimiter, ends_record. intros H.
  apply orb_true_iff in H as [H | H]; apply Ascii.eqb_eq in H; subst d;
    reflexivity.
Qed.

(** The scan of the text of a field moves neither the count of fields
    nor the start of the token. *)
Lemma scan_text E opt confLine (f : cstring) :
  forall n m,
    field_text f = true ->
    yields (scan_record E opt confLine f n m)
           (fun m' => scan_frame m m' /\ fieldNo m' = fieldNo m /\
                      tokenStart m' = tokenStart m).
Proof.
  induction f as [| c f IH]; intros n m Hf.
  - apply yields_ret. split; [apply scan_frame_refl | now split].
  - cbn [field_text forallb] in Hf. apply andb_true_iff in Hf as [Hc Hf].
    apply andb_true_iff in Hc as [Hd He]. apply negb_true_iff in Hd, He.
    cbn [scan_record]. rewrite He, Hd.
    eapply yields_bind; [apply check_char_frame |].
    cbn beta. intros m1 (F1 & Hn1 & Ht1 & _). rewrite bind_ret_l.
    eapply yields_weaken; [apply (IH (S n) m1 Hf) |].
    cbn beta. intros m2 (F2 & Hn2 & Ht2). split.
    + eapply scan_frame_trans; eassumption.
    + split; congruence.
Qed.

Lemma scan_delimiter E opt confLine (d : ascii) (b : cstring) n m :
  is_delimiter d = true ->
  scan_record E opt confLine (d :: b) n m =
  bind (check_char E opt n d m)
       (fun m1 => bind (take_field E opt confLine n m1)
                       (fun m2 => scan_record E opt confLine b (S n) m2)).
Proof.
  intros Hd. cbn [scan_record]. now rewrite (delimiter_no_end d Hd), Hd.
Qed.

Lemma token_second (f1 f2 : cstring) (c : ascii) (rest : cstring) :
  token (f1 ++ c :: f2 ++ rest) (length f1 + 1) (length f2) = f2.
Proof.
  unfold token. rewrite skipn_app, skipn_all2 by lia.
  replace (length f1 + 1 - length f1)%nat with 1%nat by lia.
  cbn [app skipn]. rewrite firstn_app, firstn_all, Nat.sub_diag.
  cbn [firstn]. apply app_nil_r.
Qed.

(** The turn of the [switch] for the second field. *)
Lemma load_mask_field E opt (confToken : cstring) (fieldLen : nat) (m : main_t) :
  fieldNo m = 2%nat ->
  load_field E opt confToken fieldLen m =
  if forallb isdigit confToken then
    ([], Done (set_pony (set_actions (to_uint32 (atoi confToken)) (pony m)) m))
  else
    (logged E opt (msg_mask opt (lineNo m)), Done (set_badPony 2 m)).
Proof.
  intros Hf. unfold load_field. rewrite Hf.
  destruct (forallb isdigit confToken); [reflexivity |].
  rewrite sprintf_logx_logged by plain_text. cbn. now rewrite app_nil_r.
Qed.

Lemma take_mask_field E opt confLine n (m : main_t) (f2 : cstring) :
  fieldNo m = 1%nat ->
  token confLine (tokenStart m) (n - tokenStart m) = f2 ->
  yields (take_field E opt confLine n m)
         (fun m' =>
            scan_frame m m' /\ fieldNo m' = 2%nat /\
            if forallb isdigit f2 then
              actions (pony m') = to_uint32 (atoi f2)
            else
              badPony m' = 2 /\
              trace (take_field E opt confLine n m) =
              logged E opt (msg_mask opt (lineNo m))).
Proof.
  intros Hf Htok.
  destruct (take_field_frame E opt confLine n m) as (m' & Hr & F & Hn & _).
  exists m'. split; [exact Hr |]. split; [exact F |].
  split; [now rewrite Hn, Hf |].
  revert Hr. unfold take_field. cbn [tokenStart set_fieldNo].
  rewrite Htok, load_mask_field by (cbn; now rewrite Hf).
  destruct (forallb isdigit f2); cbn; intros [= <-]; cbn.
  - reflexivity.
  - split; [reflexivity | now rewrite app_nil_r].
Qed.

(** What the end of the line does to the table. *)
Lemma accept_line_heap E opt m m' :
  result (accept_line E opt m) = Done m' ->
  trickCount m' = trickCount m /\ trickHeap m' = trickHeap m \/
  badPony m = 0 /\ (5 <= fieldNo m)%nat /\
  exists wd, trickHeap m' = trickHeap m ++ [set_watchHandle wd (pony m)].
Proof.
  unfold accept_line, truthy.
  destruct (negb (fieldNo m =? 0)%nat); [| intros [= <-]; now left].
  destruct (Z.eqb_spec (badPony m) 0) as [Hb | Hb]; cbn [negb orb].
  - destruct (Nat.ltb_spec (fieldNo m) 5) as [H5 | H5].
    + rewrite result_bind, result_sprintf_logx. intros [= <-]. now left.
    + destruct (add_trick_cases E opt m) as (Hneg & Hbad & Hgood).
      set (wd := inotify_add_watch E (watches m) (fileName (pony m))
                                   (actions (pony m))) in *.
      destruct (Z.ltb_spec wd 0) as [Hlt | Hge].
      * destruct (Hneg Hlt) as (m2 & -> & Hh & Hc). intros [= <-]. now left.
      * destruct (Z.eq_dec wd (Z.of_nat (trickCount m) + 1)) as [Heq | Hne].
        -- destruct (Hgood Heq) as (m2 & -> & Hh & Hc). intros [= <-].
           right. split; [exact Hb |]. split; [exact H5 |]. now exists wd.
        -- rewrite (Hbad Hge Hne). discriminate.
  - rewrite result_bind, result_sprintf_logx. intros [= <-]. now left.
Qed.

Lemma accept_line_bad E opt m :
  fieldNo m <> 0%nat ->
  badPony m <> 0 ->
  accept_line E opt m = (logged E opt (msg_discard opt (lineNo m)), Done m).
Proof.
  intros Hf Hb. unfold accept_line, truthy.
  destruct (Nat.eqb_spec (fieldNo m) 0) as [H | _]; [contradiction |].
  destruct (Z.eqb_spec (badPony m) 0) as [H | _]; [contradiction |].
  cbn [negb orb]. rewrite sprintf_logx_logged by plain_text. cbn. now rewrite app_nil_r.
Qed.

Lemma bind_done_eq {A B} (m : prog A) (k : A -> prog B) (a : A)
  (t : list effect) (r : outcome B) :
  result m = Done a -> k a = (t, r) -> bind m k = (trace m ++ t, r).
Proof. intros Hm Hk. rewrite (bind_done m k a Hm), Hk. reflexivity. Qed.

(** The scan of a line that starts with two fields. *)
Lemma scan_mask_line E opt m (f1 f2 : cstring) (d : ascii) (rest : cstring) :
  let confLine := f1 ++ ":" :: f2 ++ d :: rest in
  field_text f1 = true ->
  field_text f2 = true ->
  is_delimiter d = true ->
  exists mg,
    result (scan_record E opt confLine confLine 0 (line_start m)) = Done mg /\
    scan_frame (line_start m) mg /\
    (2 <= fieldNo mg)%nat /\
    if forallb isdigit f2 then
      actions (pony mg) = to_uint32 (atoi f2)
    else
      badPony mg <> 0 /\
      exists before after,
        trace (scan_record E opt confLine confLine 0 (line_start m)) =
        before ++ logged E opt (msg_mask opt (S (lineNo m))) ++ after.
Proof.
  intros confLine H1 H2 Hd.
  set (m0 := line_start m).
  set (n := length f1).
  (* the text of the first field *)
  destruct (scan_text E opt confLine f1 0 m0 H1) as (ma & Hra & Fa & Hna & Hta).
  (* its colon *)
  destruct (check_char_frame E opt n ":" ma) as (mb & Hrb & Fb & Hnb & Htb & _).
  destruct (take_field_frame E opt confLine n mb) as (mc & Hrc & Fc & Hnc & Htc).
  (* the text of the second field *)
  destruct (scan_text E opt confLine f2 (S n) mc H2) as (md & Hrd & Fd & Hnd & Htd).
  (* its delimiter *)
  set (k := (S n + length f2)%nat).
  destruct (check_char_frame E opt k d md) as (me & Hre & Fe & Hne & Hte & _).
  assert (Hf1 : fieldNo me = 1%nat).
  { rewrite Hne, Hnd, Hnc, Hnb, Hna. reflexivity. }
  assert (Htok : token confLine (tokenStart me) (k - tokenStart me) = f2).
  { rewrite Hte, Htd, Htc. unfold k, confLine.
    replace (S n + length f2 - (n + 1))%nat with (length f2) by lia.
    change (f2 ++ d :: rest) with (f2 ++ [d] ++ rest).
    apply (token_second f1 f2 ":" ([d] ++ rest)). }
  destruct (take_mask_field E opt confLine k me f2 Hf1 Htok)
    as (mf & Hrf & Ff & Hnf & Hmask).
  (* what is left of the line *)
  destruct (scan_record_frame E opt confLine rest (S k) mf)
    as (mg & Hrg & Fg & Hng).
  (* the whole scan *)
  assert (Hscan :
    scan_record E opt confLine confLine 0 m0 =
    (trace (scan_record E opt confLine f1 0 m0)
     ++ trace (check_char E opt n ":" ma)
     ++ trace (take_field E opt confLine n mb)
     ++ trace (scan_record E opt confLine f2 (S n) mc)
     ++ trace (check_char E opt k d md)
     ++ trace (take_field E opt confLine k me)
     ++ trace (scan_record E opt confLine rest (S k) mf),
     Done mg)).
  { unfold confLine at 2.
    rewrite scan_record_app by now apply field_text_no_end.
    apply (bind_done_eq _ _ ma); [exact Hra |].
    cbn [Nat.add]. fold n. rewrite scan_delimiter by reflexivity.
    apply (bind_done_eq _ _ mb); [exact Hrb |].
    apply (bind_done_eq _ _ mc); [exact Hrc |].
    rewrite scan_record_app by now apply field_text_no_end.
    apply (bind_done_eq _ _ md); [exact Hrd |].
    fold k. rewrite scan_delimiter by exact Hd.
    apply (bind_done_eq _ _ me); [exact Hre |].
    apply (bind_done_eq _ _ mf); [exact Hrf |].
    rewrite (prog_eta (scan_record E opt confLine rest (S k) mf)), Hrg.
    reflexivity. }
  assert (F : scan_frame m0 mg).
  { apply (scan_frame_trans _ ma); [exact Fa |].
    apply (scan_frame_trans _ mb); [exact Fb |].
    apply (scan_frame_trans _ mc); [exact Fc |].
    apply (scan_frame_trans _ md); [exact Fd |].
    apply (scan_frame_trans _ me); [exact Fe |].
    apply (scan_frame_trans _ mf); [exact Ff | exact Fg]. }
  exists mg. split; [now rewrite Hscan |]. split; [exact F |].
  split; [destruct Fg; lia |].
  destruct (forallb isdigit f2).
  - destruct Fg as [_ _ _ _ _ _ _ Ha _]. rewrite Ha by lia. exact Hmask.
  - destruct Hmask as (Hb & Ht). split.
    + destruct Fg as [_ _ _ _ Hbad _ _ _ _]. apply Hbad. rewrite Hb. discriminate.
    + rewrite Hscan. cbn [trace fst]. rewrite Ht.
      assert (Hl : lineNo me = S (lineNo m)).
      { destruct Fa as [_ _ _ La _ _ _ _ _], Fb as [_ _ _ Lb _ _ _ _ _],
          Fc as [_ _ _ Lc _ _ _ _ _], Fd as [_ _ _ Ld _ _ _ _ _],
          Fe as [_ _ _ Le _ _ _ _ _].
        rewrite Le, Ld, Lc, Lb, La. reflexivity. }
      rewrite Hl.
      exists (trace (scan_record E opt confLine f1 0 m0)
              ++ trace (check_char E opt n ":" ma)
              ++ trace (take_field E opt confLine n mb)
              ++ trace (scan_record E opt confLine f2 (S n) mc)
              ++ trace (check_char E opt k d md)).
      exists (trace (scan_record E opt confLine rest (S k) mf)).
      now rewrite <- !app_assoc.
Qed.

(** *** Decimal digits *)

Lemma isdigit_val (c : ascii) : isdigit c = true -> 0 <= digit_val c <= 9.
Proof.
  unfold isdigit, digit_val. intros H. apply andb_true_iff in H as [H1 H2].
  apply Nat.leb_le in H1, H2. lia.
Qed.

Lemma isdigit_not_space (c : ascii) : isdigit c = true -> isspace c = false.
Proof.
  unfold isdigit, isspace. intros H. apply andb_true_iff in H as [H1 H2].
  apply Nat.leb_le in H1, H2.
  destruct (Nat.eqb_spec (code c) 32); [lia |].
  destruct (Nat.leb_spec 9 (code c)); [| reflexivity].
  destruct (Nat.leb_spec (code c) 13); [lia | reflexivity].
Qed.

Lemma isdigit_not_sign (c : ascii) :
  isdigit c = true -> Ascii.eqb c "-" = false /\ Ascii.eqb c "+" = false.
Proof.
  intros H. split.
  - destruct (Ascii.eqb_spec c "-") as [-> | _]; [discriminate H | reflexivity].
  - destruct (Ascii.eqb_spec c "+") as [-> | _]; [discriminate H | reflexivity].
Qed.

Lemma digits_from_fold (s : cstring) :
  forall acc,
    forallb isdigit s = true ->
    digits_from acc s = fold_left (fun a c => 10 * a + digit_val c) s acc.
Proof.
  induction s as [| c s IH]; intros acc H; [reflexivity |].
  cbn [forallb] in H. apply andb_true_iff in H as [Hc Hs].
  cbn [digits_from fold_left]. rewrite Hc. now apply IH.
Qed.

Lemma fold_digits_nonneg (s : cstring) :
  forall acc,
    forallb isdigit s = true -> 0 <= acc ->
    0 <= fold_left (fun a c => 10 * a + digit_val c) s acc.
Proof.
  induction s as [| c s IH]; intros acc H Hacc; [exact Hacc |].
  cbn [forallb] in H. apply andb_true_iff in H as [Hc Hs].
  cbn [fold_left]. apply IH; [exact Hs |].
  pose proof (isdigit_val c Hc). lia.
Qed.

Lemma strtol10_digits (s : cstring) :
  forallb isdigit s = true ->
  strtol10 s = Z.min LONG_MAX (decimal_value s).
Proof.
  intros H. pose proof (fold_digits_nonneg s 0 H (Z.le_refl 0)) as Hpos.
  fold (decimal_value s) in Hpos. unfold strtol10.
  destruct s as [| c s]; [reflexivity |].
  pose proof H as H'. cbn [forallb] in H'. apply andb_true_iff in H' as [Hc _].
  cbn [skip_space]. rewrite (isdigit_not_space c Hc).
  destruct (isdigit_not_sign c Hc) as (-> & ->).
  rewrite digits_from_fold by exact H. fold (decimal_value (c :: s)).
  unfold LONG_MIN, LONG_MAX in *. lia.
Qed.

Lemma to_uint32_range (z : Z) : 0 <= to_uint32 z < 2 ^ 32.
Proof. unfold to_uint32. apply Z.mod_pos_bound. lia. Qed.

Lemma to_uint32_to_int (z : Z) : to_uint32 (to_int z) = z mod 2 ^ 32.
Proof.
  unfold to_uint32, to_int. rewrite Zminus_mod_idemp_l.
  f_equal. lia.
Qed.

Lemma atoi_digits (s : cstring) :
  forallb isdigit s = true ->
  decimal_value s < 2 ^ 32 ->
  to_uint32 (atoi s) = decimal_value s.
Proof.
  intros H Hlt. pose proof (fold_digits_nonneg s 0 H (Z.le_refl 0)) as Hpos.
  fold (decimal_value s) in Hpos.
  unfold atoi. rewrite to_uint32_to_int, strtol10_digits by exact H.
  rewrite Z.min_r by (unfold LONG_MAX; lia).
  apply Z.mod_small. lia.
Qed.

Lemma msg_mask_not_empty opt n : msg_mask opt n <> [].
Proof. discriminate. Qed.

(** C8: the turn of the [switch] for the second field accepts the field
    exactly when all its characters are decimal digits: it then stores
    the value of [atoi] as a 32-bit unsigned integer and logs nothing,
    and otherwise logs the non-numeric mask and flags the pony.  In a
    line, a mask field that is not all digits is logged and the line is
    discarded, the table left as it was; and when a line whose mask
    field is all digits yields a trick, the mask of the trick lies
    within 32 unsigned bits and is the number that the digits write,
    for every such number below 2^32. *)
Theorem mask_field_parsing (E : env) (opt : opts_t) (m : main_t)
  (f1 f2 : cstring) (d : ascii) (rest : cstring) :
  let confLine := f1 ++ ":" :: f2 ++ d :: rest in
  field_text f1 = true ->
  field_text f2 = true ->
  is_delimiter d = true ->
  (forall fieldLen m2,
     fieldNo m2 = 2%nat ->
     load_field E opt f2 fieldLen m2 =
     if forallb isdigit f2 then
       ([], Done (set_pony (set_actions (to_uint32 (atoi f2)) (pony m2)) m2))
     else
       (logged E opt (msg_mask opt (lineNo m2)), Done (set_badPony 2 m2))) /\
  (forallb isdigit f2 = false ->
   yields (load_line E opt m confLine)
          (fun m' => trickHeap m' = trickHeap m /\
                     trickCount m' = trickCount m) /\
   In (Print stdout (log_line E (msg_mask opt (S (lineNo m)))))
      (trace (load_line E opt m confLine)) /\
   In (Print stdout (log_line E (msg_discard opt (S (lineNo m)))))
      (trace (load_line E opt m confLine))) /\
  (forallb isdigit f2 = true ->
   forall m' t,
     result (load_line E opt m confLine) = Done m' ->
     trickHeap m' = trickHeap m ++ [t] ->
     actions t = to_uint32 (atoi f2) /\
     0 <= actions t < 2 ^ 32 /\
     (decimal_value f2 < 2 ^ 32 -> actions t = decimal_value f2)).
Proof.
  intros confLine H1 H2 Hd.
  split; [intros fieldLen m2 Hf; now apply load_mask_field |].
  destruct (scan_mask_line E opt m f1 f2 d rest H1 H2 Hd)
    as (mg & Hr & F & Hn & Hmask).
  fold confLine in Hr, Hmask.
  rewrite (load_line_eq E opt m confLine mg Hr).
  destruct F as [Hh Hc _ Hl _ _ _ _ _]. cbn in Hh, Hc, Hl.
  split.
  - intros Hdig. rewrite Hdig in Hmask.
    destruct Hmask as (Hbad & before & after & Ht).
    rewrite accept_line_bad by (assumption || lia). rewrite Hl, Ht.
    cbn [result trace fst snd]. repeat split.
    + exists mg. now split.
    + apply in_or_app. left. apply in_or_app. right. apply in_or_app. left.
      apply logged_prints, msg_mask_not_empty.
    + apply in_or_app. right. apply logged_prints, msg_discard_not_empty.
  - intros Hdig m' t Hres Hheap. rewrite Hdig in Hmask.
    cbn [result snd] in Hres.
    assert (Ha : actions t = to_uint32 (atoi f2)).
    { destruct (accept_line_heap E opt mg m' Hres)
        as [(_ & Hsame) | (_ & _ & wd & Happ)].
      - rewrite Hsame, Hh in Hheap.
        apply (f_equal (@length trick_t)) in Hheap.
        rewrite length_app in Hheap. simpl in Hheap. lia.
      - rewrite Happ, Hh in Hheap. apply app_inv_head in Hheap.
        injection Hheap as <-. exact Hmask. }
    rewrite Ha. split; [reflexivity |].
    split; [apply to_uint32_range |].
    intros Hlt. now apply atoi_digits.
Qed.

(** C8 at the masks [4294967295] and [12x]. *)
Lemma mask_field_parsing_witness :
  let tail := str "/bin/true:root:root" ++ [LF] in
  let good := str "/tmp/inbox" ++ ":" :: str "4294967295" ++ ":" :: tail in
  let bad := str "/tmp/inbox" ++ ":" :: str "12x" ++ ":" :: tail in
  (exists m' t,
     result (load_line stub_machine opt_default main0 good) = Done m' /\
     trickHeap m' = [t] /\ actions t = 4294967295) /\
  tricks_of (load_line stub_machine opt_default main0 bad) = Some [] /\
  In (Print stdout (log_line stub_machine (msg_mask opt_default 1)))
     (trace (load_line stub_machine opt_default main0 bad)) /\
  result (load_field stub_machine opt_default (str "12x") 3
                     (set_fieldNo 2 main0)) =
  Done (set_badPony 2 (set_fieldNo 2 main0)).
Proof.
  intros tail good bad.
  destruct (mask_field_parsing stub_machine opt_default main0
              (str "/tmp/inbox") (str "4294967295") ":" tail
              eq_refl eq_refl eq_refl) as (_ & _ & Hgood).
  destruct (mask_field_parsing stub_machine opt_default main0
              (str "/tmp/inbox") (str "12x") ":" tail
              eq_refl eq_refl eq_refl) as (Hfield & Hbad & _).
  split; [| split; [| split]].
  - eexists. eexists. split; [vm_compute; reflexivity |].
    split; [reflexivity |].
    eapply Hgood; [reflexivity | vm_compute; reflexivity | reflexivity |].
    vm_compute. reflexivity.
  - destruct (Hbad eq_refl) as ((m' & Hm' & Hh & _) & _).
    unfold tricks_of. fold bad in Hm'. now rewrite Hm', Hh.
  - destruct (Hbad eq_refl) as (_ & Hin & _). exact Hin.
  - rewrite Hfield by reflexivity. reflexivity.
Defined.

(** *** The paths of the table *)

Lemma check_char_plain E opt n c m :
  yields (check_char E opt n c m)
         (fun m' => badPony m' = 0 -> plain c = true).
Proof.
  unfold check_char, plain.
  destruct (isprint c) eqn:Hp; cbn [negb].
  - destruct (Ascii.eqb_spec c apostrophe) as [-> | Ha].
    + apply yields_log, yields_ret. cbn. discriminate.
    + apply yields_ret. intros _.
      destruct (Ascii.eqb_spec c NUL) as [-> | _]; [discriminate Hp | reflexivity].
  - destruct (Ascii.eqb_spec c LF) as [-> | Hl]; cbn [negb].
    + apply yields_ret. reflexivity.
    + apply yields_log, yields_ret. cbn. discriminate.
Qed.

(** The turn of the [switch] for the first field. *)
Lemma take_first_field E opt confLine n (m : main_t) :
  fieldNo m = 0%nat ->
  yields (take_field E opt confLine n m)
         (fun m' => badPony m' = 0 ->
                    fileName (pony m') =
                    token confLine (tokenStart m) (n - tokenStart m)).
Proof.
  intros Hf. unfold take_field, load_field. cbn [fieldNo set_fieldNo tokenStart].
  rewrite Hf. destruct (_ <=? 0).
  - rewrite bind_assoc. apply yields_log. rewrite bind_ret_l.
    apply yields_ret. cbn. discriminate.
  - destruct (_ >? _).
    + rewrite !bind_assoc. apply yields_when_log. rewrite !bind_ret_l.
      apply yields_ret. reflexivity.
    + rewrite !bind_ret_l. apply yields_ret. reflexivity.
Qed.

Lemma frame_badPony_zero (m m' : main_t) :
  scan_frame m m' -> badPony m' = 0 -> badPony m = 0.
Proof.
  intros F H. destruct (Z.eq_dec (badPony m) 0) as [E | N]; [exact E |].
  destruct F as [_ _ _ _ Hb _ _ _ _]. now apply Hb in N.
Qed.

Lemma yields_and {A} (p : prog A) (P Q : A -> Prop) :
  yields p P -> yields p Q -> yields p (fun a => P a /\ Q a).
Proof.
  intros (a & Ha & HP) (b & Hb & HQ).
  assert (a = b) by congruence. subst b. exists a. auto.
Qed.

(** While a line is scanned and the pony is good, the characters met so
    far are plain, and so is the path of the pony once the first field
    is taken. *)
Lemma scan_record_plain E opt confLine (rest : cstring) :
  forall (seen : cstring) (m : main_t),
    confLine = seen ++ rest ->
    (badPony m = 0 -> forallb plain seen = true) ->
    (fieldNo m = 0%nat -> tokenStart m = 0%nat) ->
    ((1 <= fieldNo m)%nat -> badPony m = 0 ->
     forallb plain (fileName (pony m)) = true) ->
    yields (scan_record E opt confLine rest (length seen) m)
           (fun m' => (1 <= fieldNo m')%nat -> badPony m' = 0 ->
                      forallb plain (fileName (pony m')) = true).
Proof.
  induction rest as [| c rest IH]; intros seen m HL Hseen Htok Hpath.
  - apply yields_ret. exact Hpath.
  - cbn [scan_record]. destruct (ends_record c).
    + apply yields_ret. exact Hpath.
    + assert (HL' : confLine = (seen ++ [c]) ++ rest)
        by now rewrite <- app_assoc.
      assert (Hlen : S (length seen) = length (seen ++ [c]))
        by (rewrite length_app; simpl; lia).
      eapply yields_bind;
        [apply yields_and; [apply check_char_frame | apply check_char_plain] |].
      cbn beta. intros m1 ((F1 & Hn1 & Ht1 & Hp1 & _) & Hc).
      assert (Hseen1 : badPony m1 = 0 -> forallb plain (seen ++ [c]) = true).
      { intros H. rewrite forallb_app. cbn [forallb].
        rewrite (Hseen (frame_badPony_zero _ _ F1 H)), (Hc H). reflexivity. }
      destruct (is_delimiter c).
      * destruct (Nat.eq_dec (fieldNo m1) 0) as [H0 | H0].
        -- eapply yields_bind;
             [apply yields_and;
              [apply take_field_frame | apply (take_first_field _ _ _ _ _ H0)] |].
           cbn beta. intros m2 ((F2 & Hn2 & _) & Hfile).
           rewrite Hlen. apply (IH (seen ++ [c]) m2 HL').
           ++ intros H. apply Hseen1. exact (frame_badPony_zero _ _ F2 H).
           ++ lia.
           ++ intros _ H. rewrite (Hfile H), Ht1, (Htok ltac:(lia)).
              rewrite Nat.sub_0_r. unfold token. cbn [skipn].
              rewrite HL, firstn_app, firstn_all, Nat.sub_diag. cbn [firstn].
              rewrite app_nil_r. apply Hseen.
              apply (frame_badPony_zero _ _ F1).
              exact (frame_badPony_zero _ _ F2 H).
        -- eapply yields_bind; [apply take_field_frame |].
           cbn beta. intros m2 (F2 & Hn2 & _).
           rewrite Hlen. apply (IH (seen ++ [c]) m2 HL').
           ++ intros H. apply Hseen1. exact (frame_badPony_zero _ _ F2 H).
           ++ lia.
           ++ intros _ H. rewrite (frame_fileName _ _ F2) by lia. rewrite Hp1.
              apply Hpath; [lia |].
              apply (frame_badPony_zero _ _ F1).
              exact (frame_badPony_zero _ _ F2 H).
      * rewrite bind_ret_l. rewrite Hlen. apply (IH (seen ++ [c]) m1 HL').
        -- exact Hseen1.
        -- intros H. rewrite Ht1. apply Htok. lia.
        -- intros H1 H. rewrite Hp1. apply Hpath; [lia |].
           exact (frame_badPony_zero _ _ F1 H).
Qed.

Lemma load_line_paths E opt m confLine m' :
  Forall (fun t => forallb plain (fileName t) = true) (trickHeap m) ->
  result (load_line E opt m confLine) = Done m' ->
  Forall (fun t => forallb plain (fileName t) = true) (trickHeap m').
Proof.
  intros Hall Hres.
  destruct (scan_line E opt m confLine) as (m2 & Hr & F & _).
  destruct (scan_record_plain E opt confLine confLine [] (line_start m))
    as (m2' & Hr' & Hplain); try reflexivity; try (cbn; lia).
  cbn [length] in Hr'. assert (m2' = m2) by congruence. subst m2'.
  rewrite (load_line_eq E opt m confLine m2 Hr) in Hres. cbn [result snd] in Hres.
  pose proof (frame_trickHeap _ _ F) as Hh. cbn in Hh.
  destruct (accept_line_heap E opt m2 m' Hres)
    as [(_ & Hsame) | (Hb & H5 & wd & Happ)].
  - now rewrite Hsame, Hh.
  - rewrite Happ, Hh. apply Forall_app. split; [exact Hall |].
    constructor; [| constructor]. cbn. apply Hplain; [lia | exact Hb].
Qed.

Lemma load_lines_paths E opt (configFile : list cstring) :
  forall m m',
    Forall (fun t => forallb plain (fileName t) = true) (trickHeap m) ->
    result (load_lines E opt m configFile) = Done m' ->
    Forall (fun t => forallb plain (fileName t) = true) (trickHeap m').
Proof.
  induction configFile as [| confLine more IH]; intros m m' Hall Hres.
  - injection Hres as <-. exact Hall.
  - cbn [load_lines] in Hres. rewrite result_bind in Hres.
    destruct (result (load_line E opt m confLine)) as [m1 | s] eqn:H1;
      [| discriminate Hres].
    apply (IH m1 m'); [| exact Hres].
    exact (load_line_paths E opt m confLine m1 Hall H1).
Qed.

Lemma plain_string (s : cstring) :
  forallb plain s = true -> no_NUL s = true /\ apostrophes s = 0%nat.
Proof.
  induction s as [| c s IH]; [now split |].
  cbn [forallb]. intros H. apply andb_true_iff in H as [Hc Hs].
  destruct (IH Hs) as (Hn & Ha). unfold plain in Hc.
  apply andb_true_iff in Hc as [Hc1 Hc2]. split.
  - unfold no_NUL in *. cbn [forallb]. now rewrite Hc1, Hn.
  - rewrite apostrophes_cons, Ha. apply negb_true_iff in Hc2. now rewrite Hc2.
Qed.

(** The path of the trick of an event is a well-formed string without
    apostrophe, the table being the one that the loop built. *)
Lemma trick_path_plain E opt (configFile : list cstring) m event pony :
  result (load_config E opt configFile) = Done m ->
  trick_of m event = Some pony ->
  no_NUL (fileName pony) = true /\ apostrophes (fileName pony) = 0%nat.
Proof.
  intros Hload Htrick. apply plain_string.
  pose proof (load_lines_paths E opt configFile (main_on E) m (Forall_nil _) Hload)
    as Hall.
  unfold trick_of in Htrick. destruct (wd event <? 1); [discriminate |].
  apply nth_error_In in Htrick.
  rewrite Forall_forall in Hall. now apply Hall.
Qed.

(** ** The name of the triggering object, for a loaded table *)

(** What assembly does with a path that is a well-formed string. *)
Lemma assemble_munges (E : env) (opt : opts_t) (M : Z)
  (pony : trick_t) (event : event_t) :
  no_NUL (fileName pony) = true ->
  let nm := name_read (len event) (name event) 0 in
  (Z.of_nat (length (fileName pony ++ slash :: munged nm)) <= M ->
   exists r, assemble E opt M pony event = ([], Done r)) /\
  (forall r,
     result (assemble E opt M pony event) = Done r ->
     assembled r = fileName pony ++ slash :: munged nm /\
     apostrophes (assembled r) = apostrophes (fileName pony) /\
     occurrences mungeChar (assembled r) =
     (apostrophes nm + occurrences mungeChar (fileName pony)
      + occurrences mungeChar nm)%nat).
Proof.
  intros Hn nm. split.
  - intros Hfit. now apply assemble_fits.
  - intros r Hr. rewrite (assemble_done E opt M pony event r Hn Hr). fold nm.
    repeat split.
    + change (slash :: munged nm) with ([slash] ++ munged nm).
      rewrite !apostrophes_app, apostrophes_munged.
      change (apostrophes [slash]) with 0%nat. lia.
    + rewrite occurrences_separated, occurrences_munged. lia.
Qed.

(** C2, as the code has it.  For a table loaded from a configuration
    file and an event on one of its tricks: the assembled name is the
    path of the trick, a slash, and the name of the event read up to its
    first NUL with each apostrophe replaced by [%27] and every other
    character kept in its place; assembly gets to its end whenever that
    string is no longer than [maxNameLen].  The assembled name holds no
    apostrophe, and [%27] occurs in it as often as there are apostrophes
    in the name, plus the occurrences that the path and the name hold
    already. *)
Theorem assembled_name_is_munged (E : env) (opt : opts_t)
  (configFile : list cstring) (m : main_t) (event : event_t) (pony : trick_t) :
  result (load_config E opt configFile) = Done m ->
  trick_of m event = Some pony ->
  let nm := name_read (len event) (name event) 0 in
  (Z.of_nat (length (fileName pony ++ slash :: munged nm)) <= maxNameLen m ->
   exists r, assemble E opt (maxNameLen m) pony event = ([], Done r)) /\
  (forall r,
     result (assemble E opt (maxNameLen m) pony event) = Done r ->
     assembled r = fileName pony ++ slash :: munged nm /\
     apostrophes (assembled r) = 0%nat /\
     occurrences mungeChar (assembled r) =
     (apostrophes nm + occurrences mungeChar (fileName pony)
      + occurrences mungeChar nm)%nat).
Proof.
  intros Hload Htrick nm.
  destruct (trick_path_plain E opt configFile m event pony Hload Htrick)
    as (Hn & Ha).
  destruct (assemble_munges E opt (maxNameLen m) pony event Hn) as (Hfit & Hdone).
  split; [exact Hfit |].
  intros r Hr. destruct (Hdone r Hr) as (H1 & H2 & H3).
  split; [exact H1 |]. split; [now rewrite H2 | exact H3].
Qed.

(** C2 at the file [it's.txt] under [/tmp/inbox]. *)
Lemma assembled_name_is_munged_witness :
  let configFile :=
    [ln "/tmp/inbox:256:/bin/echo hello:nobody:ops@example.test"] in
  let event :=
    {| wd := 1; mask := 256; cookie := 0; len := 16;
       name := str "it's.txt" ++ repeat NUL 8 |} in
  exists m pony r,
    result (load_config stub_machine opt_default configFile) = Done m /\
    trick_of m event = Some pony /\
    assemble stub_machine opt_default (maxNameLen m) pony event = ([], Done r) /\
    assembled r = str "/tmp/inbox/it%27s.txt" /\
    apostrophes (assembled r) = 0%nat /\
    occurrences mungeChar (assembled r) = 1%nat.
Proof.
  intros configFile event.
  destruct (result (load_config stub_machine opt_default configFile))
    as [m | s] eqn:Hload; [| vm_compute in Hload; discriminate Hload].
  pose proof Hload as Hval. vm_compute in Hval. injection Hval as Hval.
  assert (Htrick : trick_of m event = Some (nth 0 (trickHeap m) pony0))
    by (rewrite <- Hval; reflexivity).
  destruct (assembled_name_is_munged stub_machine opt_default configFile m
              event _ Hload Htrick) as (Hfit & Hdone).
  destruct Hfit as (r & Hr);
    [rewrite <- Hval; vm_compute; discriminate |].
  exists m, (nth 0 (trickHeap m) pony0), r.
  split; [reflexivity |]. split; [exact Htrick |]. split; [exact Hr |].
  destruct (Hdone r) as (Ha & Hq & Ho); [now rewrite Hr |].
  split; [rewrite Ha, <- Hval; reflexivity |].
  split; [exact Hq |]. rewrite Ho, <- Hval. reflexivity.
Defined.

(** C2 as it was claimed fails at a name that holds [%27] itself: the
    name [a%27b] has no apostrophe, and the assembled name has one
    occurrence of [%27]. *)
Lemma munge_count_counterexample :
  let configFile :=
    [ln "/tmp/inbox:256:/bin/echo hello:nobody:ops@example.test"] in
  let event :=
    {| wd := 1; mask := 256; cookie := 0; len := 16;
       name := str "a%27b" ++ repeat NUL 11 |} in
  apostrophes (name_read (len event) (name event) 0) = 0%nat /\
  match result (load_config stub_machine opt_default configFile) with
  | Done m =>
      match trick_of m event with
      | Some pony =>
          assembled_of (assemble stub_machine opt_default (maxNameLen m)
                                 pony event)
      | None => None
      end
  | Exit _ => None
  end = Some (str "/tmp/inbox/a%27b") /\
  occurrences mungeChar (str "/tmp/inbox/a%27b") = 1%nat.
Proof. vm_compute. repeat split. Qed.

(** The copy of the path of the trick is not tested: when the path is
    as long as [maxNameLen] or longer and the event names nothing, the
    child leaves the assembly without a word, having stored past the
    end of [fileOrFolder]. *)
Lemma path_copy_not_tested (E : env) (opt : opts_t) (M : Z)
  (pony : trick_t) (event : event_t) :
  no_NUL (fileName pony) = true ->
  0 <= M <= Z.of_nat (length (fileName pony)) ->
  name_read (len event) (name event) 0 = [] ->
  exists r,
    assemble E opt M pony event = ([], Done r) /\
    Z.of_nat (snd r) > M /\
    CArray.in_bounds (fst r) = false.
Proof.
  intros Hn HM Hname. unfold assemble.
  destruct (copy_from_stores (fileName pony) 0 (CArray.fresh (Z.to_nat M)) Hn)
    as (w & Hw & _).
  rewrite Hw. cbn [Nat.add CArray.capacity CArray.fresh].
  destruct (name event) as [| c rest] eqn:Hev.
  - eexists. split; [reflexivity |]. cbn [fst snd]. split; [lia |].
    unfold CArray.in_bounds, CArray.store.
    cbn [CArray.stores CArray.capacity CArray.fresh forallb fst Nat.add].
    destruct (Nat.ltb_spec (length (fileName pony)) (Z.to_nat M)); [lia | reflexivity].
  - cbn [name_read munge_name] in *.
    destruct ((0 <=? len event)%nat && negb (Ascii.eqb c NUL));
      [discriminate Hname |].
    eexists. split; [reflexivity |]. cbn [fst snd]. split; [lia |].
    unfold CArray.in_bounds, CArray.store.
    cbn [CArray.stores CArray.capacity CArray.fresh forallb fst Nat.add].
    destruct (Nat.ltb_spec (length (fileName pony)) (Z.to_nat M)); [lia | reflexivity].
Qed.

(** C5, the code at two events for which [maxNameLen] is 255.  In the
    first the path of the trick is 255 characters long and the event
    carries no name: the copy of the path stores its terminator, and
    then the slash, at index 255, past the end of [fileOrFolder]; the
    loop that holds the only test is not entered, and the child goes on
    with a name of 256 characters.  In the second the name ends with an
    apostrophe whose [%27] fills the array to its last cell: the
    terminator of [mungeChar] is stored at index 255 and the test, made
    after the store, lets it pass. *)
Theorem name_overflow_not_caught (E : env) (opt : opts_t) :
  let long :=
    {| watchHandle := 1; actions := 2; fileName := str "/tmp/" ++ repeat "a" 250;
       script := str "/bin/true"; userid := str "root"; mail := str "root" |} in
  let bare := {| wd := 1; mask := 2; cookie := 0; len := 0; name := [NUL] |} in
  let short :=
    {| watchHandle := 1; actions := 256; fileName := str "/tmp/inbox";
       script := str "/bin/true"; userid := str "root"; mail := str "root" |} in
  let quoted :=
    {| wd := 1; mask := 256; cookie := 0; len := 256;
       name := repeat "a" 241 ++ [apostrophe] ++ repeat NUL 14 |} in
  (exists r,
     assemble E opt 255 long bare = ([], Done r) /\
     snd r = 256%nat /\
     CArray.capacity (fst r) = 255%nat /\
     CArray.in_bounds (fst r) = false /\
     firstn 2 (CArray.stores (fst r)) = [(255%nat, slash); (255%nat, NUL)]) /\
  (exists r,
     assemble E opt 255 short quoted = ([], Done r) /\
     snd r = 255%nat /\
     CArray.capacity (fst r) = 255%nat /\
     CArray.in_bounds (fst r) = false /\
     firstn 1 (CArray.stores (fst r)) = [(255%nat, NUL)]).
Proof.
  intros long bare short quoted. split.
  - eexists. split; [vm_compute; reflexivity |]. vm_compute. repeat split.
  - eexists. split; [vm_compute; reflexivity |]. vm_compute. repeat split.
Qed.

(** * Further properties *)

(** ** The scan of an entry *)

Lemma field_char_spec (c : ascii) :
  field_char c = true ->
  isprint c = true /\ Ascii.eqb c apostrophe = false /\
  Ascii.eqb c ":" = false /\ Ascii.eqb c "#" = false /\
  Ascii.eqb c NUL = false /\ Ascii.eqb c LF = false.
Proof.
  unfold field_char. intros H.
  apply andb_true_iff in H as [H H4]. apply andb_true_iff in H as [H H3].
  apply andb_true_iff in H as [H1 H2].
  apply negb_true_iff in H2, H3, H4. repeat split; try assumption.
  - destruct (Ascii.eqb_spec c NUL) as [-> | _]; [discriminate H1 | reflexivity].
  - destruct (Ascii.eqb_spec c LF) as [-> | _]; [discriminate H1 | reflexivity].
Qed.

Lemma check_char_field E opt n c m :
  field_char c = true -> check_char E opt n c m = ret m.
Proof.
  intros H. destruct (field_char_spec c H) as (Hp & Ha & _).
  unfold check_char. now rewrite Hp, Ha.
Qed.

Lemma check_char_delimiter E opt n d m :
  is_delimiter d = true -> check_char E opt n d m = ret m.
Proof.
  unfold is_delimiter. intros H.
  apply orb_true_iff in H as [H | H]; apply Ascii.eqb_eq in H; subst d;
    reflexivity.
Qed.

Lemma clean_no_end (f : cstring) :
  clean f = true -> forallb (fun c => negb (ends_record c)) f = true.
Proof.
  unfold clean. rewrite !forallb_forall. intros H c Hc.
  destruct (field_char_spec c (H c Hc)) as (_ & _ & _ & Hh & Hn & _).
  unfold ends_record. now rewrite Hn, Hh.
Qed.

Lemma clean_field_text (f : cstring) : clean f = true -> field_text f = true.
Proof.
  unfold clean, field_text. rewrite !forallb_forall. intros H c Hc.
  destruct (field_char_spec c (H c Hc)) as (_ & _ & Hd & Hh & Hn & Hl).
  unfold ends_record, is_delimiter. now rewrite Hn, Hh, Hd, Hl.
Qed.

(** The text of a field whose characters are all legal is scanned
    without a word and without a change. *)
Lemma scan_clean E opt confLine (f : cstring) :
  forall n m, clean f = true -> scan_record E opt confLine f n m = ret m.
Proof.
  induction f as [| c f IH]; intros n m Hf; [reflexivity |].
  cbn [clean forallb] in Hf. apply andb_true_iff in Hf as [Hc Hf].
  destruct (field_char_spec c Hc) as (_ & _ & Hd & Hh & Hn & Hl).
  cbn [scan_record]. unfold ends_record, is_delimiter.
  rewrite Hn, Hh, Hd, Hl. cbn [orb].
  rewrite (check_char_field E opt n c m Hc), !bind_ret_l.
  now apply IH.
Qed.

Lemma token_middle (pre f rest : cstring) :
  token (pre ++ f ++ rest) (length pre) (length f) = f.
Proof.
  unfold token. rewrite skipn_app, skipn_all, Nat.sub_diag. cbn [app skipn].
  rewrite firstn_app, firstn_all, Nat.sub_diag. cbn [firstn]. apply app_nil_r.
Qed.

(** The scan of one field and of its delimiter: the turn of the
    [switch] on the field, and the start of the next token. *)
Lemma scan_field E opt confLine (pre f : cstring) (d : ascii) (rest : cstring)
  (n : nat) (m : main_t) :
  confLine = pre ++ f ++ d :: rest ->
  clean f = true ->
  is_delimiter d = true ->
  n = length pre ->
  tokenStart m = n ->
  scan_record E opt confLine (f ++ d :: rest) n m =
  bind (load_field E opt f (length f) (set_fieldNo (S (fieldNo m)) m))
       (fun m' => scan_record E opt confLine rest (n + length f + 1)
                              (set_tokenStart (n + length f + 1) m')).
Proof.
  intros HL Hf Hd Hn Ht.
  rewrite scan_record_app by now apply clean_no_end.
  rewrite scan_clean by exact Hf. rewrite bind_ret_l.
  rewrite scan_delimiter by exact Hd.
  rewrite check_char_delimiter by exact Hd. rewrite bind_ret_l.
  unfold take_field. cbn [tokenStart set_fieldNo]. rewrite Ht.
  replace (n + length f - n)%nat with (length f) by lia.
  rewrite HL, Hn, token_middle, bind_assoc.
  apply bind_ext. intros m'. rewrite bind_ret_l.
  now rewrite !Nat.add_1_r.
Qed.

Lemma count_fields_text (f rest : cstring) :
  field_text f = true -> count_fields (f ++ rest) = count_fields rest.
Proof.
  induction f as [| c f IH]; intros Hf; [reflexivity |].
  cbn [field_text forallb] in Hf. apply andb_true_iff in Hf as [Hc Hf].
  apply andb_true_iff in Hc as [Hd He]. apply negb_true_iff in Hd, He.
  cbn [app count_fields]. rewrite He, Hd. now apply IH.
Qed.

Lemma count_fields_colon (rest : cstring) :
  count_fields (":" :: rest) = S (count_fields rest).
Proof. reflexivity. Qed.

(** *** The turns of the [switch], one by one *)

Lemma set_maxNameLen_same (m : main_t) : set_maxNameLen (maxNameLen m) m = m.
Proof. destruct m; reflexivity. Qed.

Lemma bind_pair {A B} (t : list effect) (a : A) (k : A -> prog B) :
  bind (t, Done a) k = (t ++ trace (k a), result (k a)).
Proof. apply bind_done. reflexivity. Qed.

Lemma load_path_field_read E opt (f : cstring) (fieldLen : nat) (m : main_t) :
  fieldNo m = 1%nat ->
  load_field E opt f fieldLen m =
  if pathconf_NAME_MAX E f <=? 0 then
    (logged E opt (until_NUL (msg_pathconf f)), Done (set_badPony 1 m))
  else
    ((if (pathconf_NAME_MAX E f >? maxNameLen m) && truthy (verbose opt)
      then logged E opt (msg_maxname (pathconf_NAME_MAX E f)) else []),
     Done (set_pony (set_fileName f (pony m))
             (set_maxNameLen (Z.max (maxNameLen m) (pathconf_NAME_MAX E f)) m))).
Proof.
  intros Hf. unfold load_field. rewrite Hf.
  destruct (_ <=? 0).
  - rewrite sprintf_logx_until, logx_logged. cbn. now rewrite app_nil_r.
  - destruct (Z.gtb_spec (pathconf_NAME_MAX E f) (maxNameLen m)) as [Hgt | Hle].
    + rewrite Z.max_r by lia. unfold when.
      destruct (truthy (verbose opt)); cbn [andb].
      * rewrite sprintf_logx_logged by plain_text. cbn. now rewrite !app_nil_r.
      * reflexivity.
    + rewrite Z.max_l by lia. rewrite set_maxNameLen_same. reflexivity.
Qed.

Lemma load_path_field E opt (f : cstring) (fieldLen : nat) (m : main_t) :
  fieldNo m = 1%nat ->
  no_NUL f = true ->
  load_field E opt f fieldLen m =
  if pathconf_NAME_MAX E f <=? 0 then
    (logged E opt (msg_pathconf f), Done (set_badPony 1 m))
  else
    ((if (pathconf_NAME_MAX E f >? maxNameLen m) && truthy (verbose opt)
      then logged E opt (msg_maxname (pathconf_NAME_MAX E f)) else []),
     Done (set_pony (set_fileName f (pony m))
             (set_maxNameLen (Z.max (maxNameLen m) (pathconf_NAME_MAX E f)) m))).
Proof.
  intros Hf Hn. rewrite load_path_field_read by exact Hf.
  rewrite until_NUL_no_NUL by plain_text. reflexivity.
Qed.

Lemma load_script_field E opt (f : cstring) (fieldLen : nat) (m : main_t) :
  fieldNo m = 3%nat ->
  load_field E opt f fieldLen m =
  if Z.of_nat fieldLen >? maxScriptLen then
    (logged E opt (msg_script opt (lineNo m)), Done (set_badPony 3 m))
  else ([], Done (set_scriptNULL false (set_pony (set_script f (pony m)) m))).
Proof.
  intros Hf. unfold load_field. rewrite Hf.
  destruct (_ >? _); [| reflexivity].
  rewrite sprintf_logx_logged by plain_text. cbn. now rewrite app_nil_r.
Qed.

Lemma load_userid_field E opt (f : cstring) (fieldLen : nat) (m : main_t) :
  fieldNo m = 4%nat ->
  load_field E opt f fieldLen m =
  if Z.of_nat fieldLen >? LOGIN_NAME_MAX E then
    (logged E opt (msg_script opt (lineNo m)), Done (set_badPony 4 m))
  else ([], Done (set_pony (set_userid f (pony m)) m)).
Proof.
  intros Hf. unfold load_field. rewrite Hf.
  destruct (_ >? _); [| reflexivity].
  rewrite sprintf_logx_logged by plain_text. cbn. now rewrite app_nil_r.
Qed.

(** The fifth turn stores the address when [pony.script] is not
    [NULL]. *)
Lemma load_mail_field_read E opt (f : cstring) (fieldLen : nat) (m : main_t) :
  fieldNo m = 5%nat ->
  load_field E opt f fieldLen m =
  if Z.of_nat fieldLen >? maxEmailLen then
    (logged E opt (msg_email opt (lineNo m)), Done (set_badPony 7 m))
  else if scriptNULL m then
    (logged E opt (until_NUL (msg_alloc_mail f (lineNo m))),
     Done (set_badPony 8 m))
  else ([], Done (set_pony (set_mail f (pony m)) m)).
Proof.
  intros Hf. unfold load_field. rewrite Hf.
  destruct (_ >? _); [| destruct (scriptNULL m); [| reflexivity]].
  - rewrite sprintf_logx_logged by plain_text. cbn. now rewrite app_nil_r.
  - rewrite sprintf_logx_until, logx_logged. cbn. now rewrite app_nil_r.
Qed.

Lemma load_mail_field E opt (f : cstring) (fieldLen : nat) (m : main_t) :
  fieldNo m = 5%nat ->
  no_NUL f = true ->
  load_field E opt f fieldLen m =
  if Z.of_nat fieldLen >? maxEmailLen then
    (logged E opt (msg_email opt (lineNo m)), Done (set_badPony 7 m))
  else if scriptNULL m then
    (logged E opt (msg_alloc_mail f (lineNo m)), Done (set_badPony 8 m))
  else ([], Done (set_pony (set_mail f (pony m)) m)).
Proof.
  intros Hf Hn. rewrite load_mail_field_read by exact Hf.
  rewrite until_NUL_no_NUL by plain_text. reflexivity.
Qed.

(** The turn on a field past the fifth reports the field and stores
    nothing. *)
Lemma load_surplus_field E opt (f : cstring) (fieldLen : nat) (m : main_t) :
  (6 <= fieldNo m)%nat ->
  no_NUL f = true ->
  load_field E opt f fieldLen m =
  (logged E opt (msg_too_many (lineNo m) f), Done m).
Proof.
  intros Hf Hn. unfold load_field.
  destruct (fieldNo m) as [| [| [| [| [| [| k]]]]]]; try lia.
  rewrite sprintf_logx_logged by plain_text. cbn. now rewrite app_nil_r.
Qed.

(** What [add_trick] does when the kernel grants the watch with the
    descriptor that is expected, and when it refuses the watch. *)
Lemma add_trick_granted E opt m :
  let wd := inotify_add_watch E (watches m) (fileName (pony m))
                              (actions (pony m)) in
  let p := set_watchHandle wd (pony m) in
  no_NUL (fileName (pony m)) = true ->
  wd = Z.of_nat (trickCount m) + 1 ->
  add_trick E opt m =
  ((if truthy (verbose opt) then logged E opt (msg_added p) else []),
   Done (set_trickCount (S (trickCount m))
           (set_trickHeap (trickHeap m ++ [p])
              (set_watches (S (watches m)) (set_pony p m))))).
Proof.
  intros wd p Hn Hwd. unfold add_trick. fold wd. fold p.
  destruct (Z.ltb_spec wd 0) as [H | _]; [lia |].
  cbn [set_watches set_pony trickCount pony lineNo trickHeap].
  destruct (Z.eqb_spec wd (Z.of_nat (trickCount m) + 1)) as [_ | H]; [| lia].
  cbn [negb when]. rewrite bind_ret_l. unfold when.
  destruct (truthy (verbose opt)).
  - rewrite sprintf_logx_logged by (subst p; plain_text).
    cbn. now rewrite app_nil_r.
  - reflexivity.
Qed.

Lemma add_trick_refused E opt m :
  let wd := inotify_add_watch E (watches m) (fileName (pony m))
                              (actions (pony m)) in
  let p := set_watchHandle wd (pony m) in
  no_NUL (fileName (pony m)) = true ->
  no_NUL (strerror E (errno_add_watch E (watches m))) = true ->
  wd < 0 ->
  add_trick E opt m =
  (logged E opt (msg_add_watch E (watches m) p)
   ++ logged E opt (msg_discard opt (lineNo m)),
   Done (set_watches (S (watches m)) (set_pony p m))).
Proof.
  intros wd p Hn He Hwd. unfold add_trick. fold wd. fold p.
  destruct (Z.ltb_spec wd 0) as [_ | H]; [| lia].
  cbn [set_watches set_pony trickCount pony lineNo trickHeap].
  rewrite !sprintf_logx_logged by (subst p; plain_text).
  cbn. now rewrite app_nil_r.
Qed.

Lemma bind_ext_done {A B} (p : prog A) (k k' : A -> prog B) :
  (forall a, result p = Done a -> k a = k' a) -> bind p k = bind p k'.
Proof.
  intros H. destruct p as [t [a | s]]; [| reflexivity].
  cbn [bind]. now rewrite (H a eq_refl).
Qed.

Lemma load_field_fieldNo E opt f fieldLen m m' :
  (1 <= fieldNo m)%nat ->
  result (load_field E opt f fieldLen m) = Done m' ->
  fieldNo m' = fieldNo m.
Proof.
  intros Hf Hr. destruct (load_field_frame E opt f fieldLen m Hf)
    as (a & Ha & Hn & _).
  congruence.
Qed.

Lemma bind_ret_r {A} (p : prog A) : bind p (fun a => ret a) = p.
Proof.
  destruct p as [t [a | x]]; [| reflexivity].
  cbn [bind ret]. now rewrite app_nil_r.
Qed.

(** The scan of a line that starts with five fields is the sequence of
    their five turns, and then the scan of what follows the delimiter of
    the fifth. *)
Lemma scan_five E opt m (f1 f2 f3 f4 f5 : cstring) (d : ascii) (rest : cstring) :
  clean f1 = true -> clean f2 = true -> clean f3 = true ->
  clean f4 = true -> clean f5 = true ->
  is_delimiter d = true ->
  let L := f1 ++ ":" :: f2 ++ ":" :: f3 ++ ":" :: f4 ++ ":" :: f5 ++ d :: rest in
  scan_record E opt L L 0 (line_start m) =
  bind (entry_turns E opt m f1 f2 f3 f4 f5)
       (fun m5 =>
          scan_record E opt L rest
            (length f1 + 1 + length f2 + 1 + length f3 + 1 + length f4 + 1
             + length f5 + 1) m5).
Proof.
  intros H1 H2 H3 H4 H5 Hd L.
  unfold entry_turns. cbv zeta. rewrite !bind_assoc.
  unfold L at 2.
  (* first field *)
  rewrite (scan_field E opt L [] f1 ":" _ 0 (line_start m));
    try reflexivity; try assumption.
  apply bind_ext_done. intros m1 Hr1.
  apply load_field_fieldNo in Hr1; [| cbn; lia]. cbn in Hr1.
  (* second field *)
  rewrite (scan_field E opt L (f1 ++ [":"]) f2 ":" _ (0 + length f1 + 1));
    try reflexivity; try assumption;
    [| unfold L; now rewrite <- app_assoc
     | rewrite length_app; cbn; lia].
  cbn [fieldNo set_tokenStart]. rewrite Hr1. cbn [Nat.add].
  rewrite !bind_assoc.
  apply bind_ext_done. intros m2 Hr2.
  apply load_field_fieldNo in Hr2; [| cbn; lia]. cbn in Hr2.
  (* third field *)
  rewrite (scan_field E opt L (f1 ++ ":" :: f2 ++ [":"]) f3 ":" _
                      (length f1 + 1 + length f2 + 1));
    try reflexivity; try assumption;
    [| unfold L; rewrite <- !app_assoc; cbn [app];
       now rewrite <- !app_assoc
     | rewrite !length_app; cbn; rewrite !length_app; cbn; lia].
  cbn [fieldNo set_tokenStart]. rewrite Hr2.
  rewrite !bind_assoc.
  apply bind_ext_done. intros m3 Hr3.
  apply load_field_fieldNo in Hr3; [| cbn; lia]. cbn in Hr3.
  (* fourth field *)
  rewrite (scan_field E opt L (f1 ++ ":" :: f2 ++ ":" :: f3 ++ [":"]) f4 ":" _
                      (length f1 + 1 + length f2 + 1 + length f3 + 1));
    try reflexivity; try assumption;
    [| unfold L; rewrite <- !app_assoc; cbn [app];
       rewrite <- !app_assoc; cbn [app]; now rewrite <- !app_assoc
     | repeat (rewrite !length_app; cbn [length]); lia].
  cbn [fieldNo set_tokenStart]. rewrite Hr3.
  rewrite !bind_assoc.
  apply bind_ext_done. intros m4 Hr4.
  apply load_field_fieldNo in Hr4; [| cbn; lia]. cbn in Hr4.
  (* fifth field *)
  rewrite (scan_field E opt L (f1 ++ ":" :: f2 ++ ":" :: f3 ++ ":" :: f4 ++ [":"])
                      f5 d rest
                      (length f1 + 1 + length f2 + 1 + length f3 + 1
                       + length f4 + 1));
    try reflexivity; try assumption;
    [| unfold L; rewrite <- !app_assoc; cbn [app];
       rewrite <- !app_assoc; cbn [app]; rewrite <- !app_assoc; cbn [app];
       now rewrite <- !app_assoc
     | repeat (rewrite !length_app; cbn [length]); lia].
  cbn [fieldNo set_tokenStart]. rewrite Hr4.
  rewrite !bind_assoc.
  apply bind_ext_done. intros m5 Hr5. now rewrite bind_ret_l.
Qed.

(** The scan of an entry is the sequence of its five turns. *)
Lemma scan_entry E opt m (f1 f2 f3 f4 f5 : cstring) :
  clean f1 = true -> clean f2 = true -> clean f3 = true ->
  clean f4 = true -> clean f5 = true ->
  scan_record E opt (entry_line f1 f2 f3 f4 f5) (entry_line f1 f2 f3 f4 f5) 0
              (line_start m) =
  entry_turns E opt m f1 f2 f3 f4 f5.
Proof.
  intros H1 H2 H3 H4 H5.
  pose proof (scan_five E opt m f1 f2 f3 f4 f5 LF [] H1 H2 H3 H4 H5 eq_refl)
    as H.
  cbv zeta in H. unfold entry_line. rewrite H. cbn [scan_record].
  apply bind_ret_r.
Qed.

(** The scan of the fields past the fifth is the sequence of their
    turns. *)
Lemma scan_surplus E opt (L : cstring) (more : list cstring) :
  forall (pre s : cstring) (m : main_t),
    L = pre ++ s ++ surplus_text more ++ [LF] ->
    clean s = true ->
    forallb clean more = true ->
    tokenStart m = length pre ->
    scan_record E opt L (s ++ surplus_text more ++ [LF]) (length pre) m =
    surplus_turns E opt (s :: more) (length pre) m.
Proof.
  induction more as [| s' more IH]; intros pre s m HL Hs Hmore Ht.
  - cbn [surplus_text map concat app] in *.
    rewrite (scan_field E opt L pre s LF [] (length pre) m)
      by (assumption || reflexivity).
    cbn [surplus_turns scan_record]. reflexivity.
  - cbn [forallb] in Hmore. apply andb_true_iff in Hmore as [Hs' Hmore].
    change (surplus_text (s' :: more)) with ((":"%char :: s') ++ surplus_text more)
      in *.
    rewrite <- app_assoc in *. cbn [app] in *.
    rewrite (scan_field E opt L pre s ":" _ (length pre) m)
      by (assumption || reflexivity).
    cbn [surplus_turns]. apply bind_ext_done. intros m1 _.
    replace (length pre + length s + 1)%nat with (length (pre ++ s ++ [":"%char]))
      by (rewrite !length_app; cbn [length]; lia).
    apply IH; try assumption.
    + rewrite HL, <- !app_assoc. cbn [app]. reflexivity.
    + cbn [tokenStart set_tokenStart]. reflexivity.
Qed.
(** *** The turns of an entry, and of a longer line *)

Lemma bind_effects {A B} (t : list effect) (a : A) (k : A -> prog B) :
  bind (t, Done a) k = after_effects t (k a).
Proof. apply bind_pair. Qed.

Lemma fields_pass_spec E f1 f2 f3 f4 f5 :
  fields_pass E f1 f2 f3 f4 f5 = true <->
  0 < pathconf_NAME_MAX E f1 /\
  forallb isdigit f2 = true /\
  Z.of_nat (length f3) <= maxScriptLen /\
  Z.of_nat (length f4) <= LOGIN_NAME_MAX E /\
  Z.of_nat (length f5) <= maxEmailLen.
Proof.
  unfold fields_pass. rewrite !andb_true_iff, Z.ltb_lt, !Z.leb_le. tauto.
Qed.

Lemma after_effects_twice {A} (t1 t2 : list effect) (p : prog A) :
  after_effects t1 (after_effects t2 p) = after_effects (t1 ++ t2) p.
Proof. unfold after_effects. cbn [trace result fst snd]. now rewrite app_assoc. Qed.

Lemma after_effects_nil {A} (p : prog A) : after_effects [] p = p.
Proof. unfold after_effects. cbn [app]. now rewrite <- prog_eta. Qed.

Lemma after_effects_done {A} (t : list effect) (a : A) :
  after_effects t (ret a) = (t, Done a).
Proof. unfold after_effects. cbn [trace result fst snd]. now rewrite app_nil_r. Qed.

Lemma after_effects_pair {A} (t t' : list effect) (r : outcome A) :
  after_effects t (t', r) = (t ++ t', r).
Proof. reflexivity. Qed.

(** The five turns on fields that pass their checks: the pony is
    loaded with the five fields. *)
Lemma entry_turns_pass E opt m (f1 f2 f3 f4 f5 : cstring) :
  no_NUL f1 = true -> no_NUL f5 = true ->
  fields_pass E f1 f2 f3 f4 f5 = true ->
  entry_turns E opt m f1 f2 f3 f4 f5 =
  (maxname_log E opt m f1,
   Done (set_tokenStart (length f1 + 1 + length f2 + 1 + length f3 + 1
                         + length f4 + 1 + length f5 + 1)
           (set_pony (set_mail f5 (set_userid f4 (set_script f3
              (set_actions (to_uint32 (atoi f2))
                 (set_fileName f1 (pony m))))))
              (set_scriptNULL false
                 (set_fieldNo 5
                    (set_maxNameLen
                       (Z.max (maxNameLen m) (pathconf_NAME_MAX E f1))
                       (line_start m))))))).
Proof.
  intros N1 N5 Hpass.
  apply fields_pass_spec in Hpass as (P1 & P2 & P3 & P4 & P5).
  unfold entry_turns. cbv zeta.
  rewrite load_path_field by (assumption || reflexivity).
  destruct (Z.leb_spec (pathconf_NAME_MAX E f1) 0) as [Hn | _]; [lia |].
  cbn [maxNameLen set_fieldNo line_start set_badPony set_tokenStart set_lineNo].
  rewrite bind_effects. fold (maxname_log E opt m f1).
  rewrite load_mask_field, P2 by reflexivity.
  rewrite bind_effects, after_effects_nil.
  rewrite load_script_field by reflexivity.
  destruct (Z.gtb_spec (Z.of_nat (length f3)) maxScriptLen) as [Hn | _]; [lia |].
  rewrite bind_effects, after_effects_nil.
  rewrite load_userid_field by reflexivity.
  destruct (Z.gtb_spec (Z.of_nat (length f4)) (LOGIN_NAME_MAX E)) as [Hn | _];
    [lia |].
  rewrite bind_effects, after_effects_nil.
  rewrite load_mail_field by (assumption || reflexivity).
  destruct (Z.gtb_spec (Z.of_nat (length f5)) maxEmailLen) as [Hn | _]; [lia |].
  cbn [scriptNULL set_fieldNo set_tokenStart set_pony set_scriptNULL].
  rewrite bind_effects, after_effects_nil.
  apply after_effects_done.
Qed.

Lemma entry_turns_tokenStart E opt m (f1 f2 f3 f4 f5 : cstring) (m5 : main_t) :
  result (entry_turns E opt m f1 f2 f3 f4 f5) = Done m5 ->
  tokenStart m5 =
  (length f1 + 1 + length f2 + 1 + length f3 + 1 + length f4 + 1
   + length f5 + 1)%nat.
Proof.
  unfold entry_turns. cbv zeta.
  repeat (rewrite result_bind;
          match goal with
          | |- context [result (load_field ?a ?b ?c ?d ?e)] =>
              destruct (result (load_field a b c d e)); [| discriminate]
          end).
  intros [= <-]. reflexivity.
Qed.

(** The scan of a line of five fields and more is the sequence of the
    turns on its fields. *)
Lemma scan_long_line E opt m (f1 f2 f3 f4 f5 : cstring) (more : list cstring) :
  clean f1 = true -> clean f2 = true -> clean f3 = true ->
  clean f4 = true -> clean f5 = true ->
  forallb clean more = true ->
  let L := long_line f1 f2 f3 f4 f5 more in
  scan_record E opt L L 0 (line_start m) =
  bind (entry_turns E opt m f1 f2 f3 f4 f5)
       (fun m5 =>
          surplus_turns E opt more
            (length f1 + 1 + length f2 + 1 + length f3 + 1 + length f4 + 1
             + length f5 + 1) m5).
Proof.
  intros H1 H2 H3 H4 H5 Hmore L.
  destruct more as [| s more].
  - subst L. change (long_line f1 f2 f3 f4 f5 []) with (entry_line f1 f2 f3 f4 f5).
    rewrite scan_entry by assumption. cbn [surplus_turns].
    symmetry. apply bind_ret_r.
  - cbn [forallb] in Hmore. apply andb_true_iff in Hmore as [Hs Hmore].
    assert (HL : L = f1 ++ ":" :: f2 ++ ":" :: f3 ++ ":" :: f4 ++ ":" :: f5
                     ++ ":" :: s ++ surplus_text more ++ [LF]).
    { subst L. unfold long_line.
      change (surplus_text (s :: more))
        with ((":"%char :: s) ++ surplus_text more).
      rewrite <- app_assoc. reflexivity. }
    rewrite HL.
    rewrite (scan_five E opt m f1 f2 f3 f4 f5 ":" _ H1 H2 H3 H4 H5 eq_refl).
    apply bind_ext_done. intros m5 Hr5.
    apply entry_turns_tokenStart in Hr5.
    set (pre := f1 ++ ":" :: f2 ++ ":" :: f3 ++ ":" :: f4 ++ ":" :: f5 ++ [":"%char]).
    assert (Hpre : length pre =
                   (length f1 + 1 + length f2 + 1 + length f3 + 1 + length f4 + 1
                    + length f5 + 1)%nat).
    { subst pre. repeat (rewrite !length_app; cbn [length]). lia. }
    rewrite <- Hpre.
    apply scan_surplus; try assumption.
    + subst pre. rewrite <- !app_assoc. cbn [app].
      rewrite <- !app_assoc. cbn [app]. rewrite <- !app_assoc. cbn [app].
      rewrite <- !app_assoc. cbn [app]. rewrite <- !app_assoc. reflexivity.
    + now rewrite Hpre.
Qed.

Lemma scan_state_same (m : main_t) :
  set_tokenStart (tokenStart m) (set_fieldNo (fieldNo m + 0) m) = m.
Proof. destruct m. cbn. now rewrite Nat.add_0_r. Qed.

(** The turns on the fields past the fifth report them one by one and
    leave the pony as it is. *)
Lemma surplus_turns_run E opt (more : list cstring) :
  forall n m,
    (5 <= fieldNo m)%nat ->
    forallb clean more = true ->
    exists n',
      surplus_turns E opt more n m =
      (surplus_log E opt (lineNo m) more,
       Done (set_tokenStart n' (set_fieldNo (fieldNo m + length more) m))).
Proof.
  induction more as [| s more IH]; intros n m Hf Hmore.
  - exists (tokenStart m). cbn [surplus_turns length].
    now rewrite scan_state_same.
  - cbn [forallb] in Hmore. apply andb_true_iff in Hmore as [Hs Hmore].
    cbn [surplus_turns].
    rewrite load_surplus_field by (cbn; lia || now apply clean_no_NUL).
    rewrite bind_effects. cbn [lineNo set_fieldNo].
    destruct (IH (n + length s + 1)%nat
                 (set_tokenStart (n + length s + 1) (set_fieldNo (S (fieldNo m)) m)))
      as (n' & Hrun); [cbn; lia | exact Hmore |].
    exists n'. rewrite Hrun. rewrite after_effects_pair.
    cbn [lineNo set_tokenStart set_fieldNo fieldNo length].
    unfold surplus_log. cbn [map concat]. f_equal. f_equal.
    replace (fieldNo m + S (length more))%nat
      with (S (fieldNo m) + length more)%nat by lia.
    destruct m. reflexivity.
Qed.

(** A line of five fields that pass their checks, and of more fields:
    the scan loads the pony with the first five and reports each of the
    others. *)
Lemma long_line_scanned E opt m (f1 f2 f3 f4 f5 : cstring) (more : list cstring) :
  clean f1 = true -> clean f2 = true -> clean f3 = true ->
  clean f4 = true -> clean f5 = true ->
  forallb clean more = true ->
  fields_pass E f1 f2 f3 f4 f5 = true ->
  let L := long_line f1 f2 f3 f4 f5 more in
  exists n,
    scan_record E opt L L 0 (line_start m) =
    (maxname_log E opt m f1 ++ surplus_log E opt (S (lineNo m)) more,
     Done (set_tokenStart n
             (set_pony (set_mail f5 (set_userid f4 (set_script f3
                (set_actions (to_uint32 (atoi f2))
                   (set_fileName f1 (pony m))))))
                (set_scriptNULL false
                   (set_fieldNo (5 + length more)
                      (set_maxNameLen
                         (Z.max (maxNameLen m) (pathconf_NAME_MAX E f1))
                         (line_start m))))))).
Proof.
  intros H1 H2 H3 H4 H5 Hmore Hpass L. subst L.
  rewrite scan_long_line by assumption.
  rewrite entry_turns_pass by (assumption || now apply clean_no_NUL).
  rewrite bind_effects.
  match goal with
  | |- context [surplus_turns E opt more ?n ?m5] =>
      destruct (surplus_turns_run E opt more n m5) as (n' & Hrun);
        [cbn; lia | exact Hmore |]
  end.
  exists n'. rewrite Hrun, after_effects_pair. reflexivity.
Qed.

Lemma count_fields_long_line (f1 f2 f3 f4 f5 : cstring) (more : list cstring) :
  clean f1 = true -> clean f2 = true -> clean f3 = true ->
  clean f4 = true -> clean f5 = true ->
  forallb clean more = true ->
  count_fields (long_line f1 f2 f3 f4 f5 more) = (5 + length more)%nat.
Proof.
  intros H1 H2 H3 H4 H5 Hmore. unfold long_line.
  rewrite (count_fields_text f1), count_fields_colon by now apply clean_field_text.
  rewrite (count_fields_text f2), count_fields_colon by now apply clean_field_text.
  rewrite (count_fields_text f3), count_fields_colon by now apply clean_field_text.
  rewrite (count_fields_text f4), count_fields_colon by now apply clean_field_text.
  rewrite (count_fields_text f5) by now apply clean_field_text.
  assert (Hs : count_fields (surplus_text more ++ [LF]) = S (length more)).
  { clear -Hmore. induction more as [| s more IH]; [reflexivity |].
    cbn [forallb] in Hmore. apply andb_true_iff in Hmore as [Hs Hmore].
    change (surplus_text (s :: more)) with ((":"%char :: s) ++ surplus_text more).
    rewrite <- app_assoc. cbn [app]. rewrite count_fields_colon.
    rewrite (count_fields_text s) by now apply clean_field_text.
    rewrite IH by exact Hmore. reflexivity. }
  rewrite Hs. lia.
Qed.

Lemma accept_line_good E opt m :
  (5 <= fieldNo m)%nat -> badPony m = 0 ->
  accept_line E opt m = add_trick E opt m.
Proof.
  intros Hf Hb. unfold accept_line, truthy. rewrite Hb.
  destruct (Nat.eqb_spec (fieldNo m) 0) as [H | _]; [lia |].
  destruct (Nat.ltb_spec (fieldNo m) 5) as [H | _]; [lia |].
  reflexivity.
Qed.

(** What the loop does with such a line when the kernel grants the
    watch with the descriptor that is expected. *)
Lemma long_line_granted E opt m (f1 f2 f3 f4 f5 : cstring) (more : list cstring) :
  clean f1 = true -> clean f2 = true -> clean f3 = true ->
  clean f4 = true -> clean f5 = true ->
  forallb clean more = true ->
  fields_pass E f1 f2 f3 f4 f5 = true ->
  let wd := inotify_add_watch E (watches m) f1 (to_uint32 (atoi f2)) in
  let t := {| watchHandle := wd; actions := to_uint32 (atoi f2);
              fileName := f1; script := f3; userid := f4; mail := f5 |} in
  wd = Z.of_nat (trickCount m) + 1 ->
  exists m',
    load_line E opt m (long_line f1 f2 f3 f4 f5 more) =
    (maxname_log E opt m f1 ++ surplus_log E opt (S (lineNo m)) more
     ++ added_log E opt t, Done m') /\
    trickHeap m' = trickHeap m ++ [t] /\
    trickCount m' = S (trickCount m) /\
    maxNameLen m' = Z.max (maxNameLen m) (pathconf_NAME_MAX E f1) /\
    lineNo m' = S (lineNo m) /\
    watches m' = S (watches m).
Proof.
  intros H1 H2 H3 H4 H5 Hmore Hpass wd t Hwd.
  destruct (long_line_scanned E opt m f1 f2 f3 f4 f5 more
              H1 H2 H3 H4 H5 Hmore Hpass) as (n & Hscan).
  cbv zeta in Hscan. unfold load_line. rewrite Hscan, bind_effects.
  rewrite accept_line_good by (cbn; lia).
  rewrite add_trick_granted
    by first [exact Hwd | cbn; now apply clean_no_NUL].
  eexists. split.
  - rewrite after_effects_pair, <- app_assoc. reflexivity.
  - cbn. repeat split.
Qed.

(** And when the kernel refuses the watch. *)
Lemma long_line_refused E opt m (f1 f2 f3 f4 f5 : cstring) (more : list cstring) :
  clean f1 = true -> clean f2 = true -> clean f3 = true ->
  clean f4 = true -> clean f5 = true ->
  forallb clean more = true ->
  fields_pass E f1 f2 f3 f4 f5 = true ->
  let wd := inotify_add_watch E (watches m) f1 (to_uint32 (atoi f2)) in
  let t := {| watchHandle := wd; actions := to_uint32 (atoi f2);
              fileName := f1; script := f3; userid := f4; mail := f5 |} in
  no_NUL (strerror E (errno_add_watch E (watches m))) = true ->
  wd < 0 ->
  exists m',
    load_line E opt m (long_line f1 f2 f3 f4 f5 more) =
    (maxname_log E opt m f1 ++ surplus_log E opt (S (lineNo m)) more
     ++ logged E opt (msg_add_watch E (watches m) t)
     ++ logged E opt (msg_discard opt (S (lineNo m))), Done m') /\
    trickHeap m' = trickHeap m /\
    trickCount m' = trickCount m /\
    lineNo m' = S (lineNo m) /\
    watches m' = S (watches m).
Proof.
  intros H1 H2 H3 H4 H5 Hmore Hpass wd t He Hwd.
  destruct (long_line_scanned E opt m f1 f2 f3 f4 f5 more
              H1 H2 H3 H4 H5 Hmore Hpass) as (n & Hscan).
  cbv zeta in Hscan. unfold load_line. rewrite Hscan, bind_effects.
  rewrite accept_line_good by (cbn; lia).
  rewrite add_trick_refused
    by first [exact Hwd | exact He | cbn; now apply clean_no_NUL].
  eexists. split.
  - rewrite after_effects_pair, <- app_assoc. reflexivity.
  - cbn. repeat split.
Qed.

(** The five turns on fields of which one fails its check: the reports
    come in the order of the fields, and the pony is bad. *)
Lemma entry_turns_fail E opt m (f1 f2 f3 f4 f5 : cstring) :
  no_NUL f1 = true -> no_NUL f5 = true ->
  fields_pass E f1 f2 f3 f4 f5 = false ->
  exists m5,
    entry_turns E opt m f1 f2 f3 f4 f5 =
    (entry_reports E opt m f1 f2 f3 f4 f5, Done m5) /\
    trickHeap m5 = trickHeap m /\ trickCount m5 = trickCount m /\
    watches m5 = watches m /\ lineNo m5 = S (lineNo m) /\
    fieldNo m5 = 5%nat /\ badPony m5 <> 0.
Proof.
  intros N1 N5 Hfail.
  assert (Hnot : ~ (0 < pathconf_NAME_MAX E f1 /\
                    forallb isdigit f2 = true /\
                    Z.of_nat (length f3) <= maxScriptLen /\
                    Z.of_nat (length f4) <= LOGIN_NAME_MAX E /\
                    Z.of_nat (length f5) <= maxEmailLen)).
  { rewrite <- fields_pass_spec, Hfail. discriminate. }
  unfold entry_turns, entry_reports. cbv zeta.
  rewrite load_path_field by (assumption || reflexivity).
  destruct (Z.leb_spec (pathconf_NAME_MAX E f1) 0) as [C1 | C1];
    rewrite bind_effects;
    rewrite load_mask_field by reflexivity;
    destruct (forallb isdigit f2) eqn:C2;
    rewrite bind_effects;
    rewrite load_script_field by reflexivity;
    destruct (Z.gtb_spec (Z.of_nat (length f3)) maxScriptLen) as [C3 | C3];
    rewrite bind_effects;
    rewrite load_userid_field by reflexivity;
    destruct (Z.gtb_spec (Z.of_nat (length f4)) (LOGIN_NAME_MAX E)) as [C4 | C4];
    rewrite bind_effects;
    rewrite load_mail_field by (assumption || reflexivity);
    destruct (Z.gtb_spec (Z.of_nat (length f5)) maxEmailLen) as [C5 | C5];
    cbn [scriptNULL set_fieldNo set_tokenStart set_pony set_scriptNULL
         set_badPony set_maxNameLen line_start set_lineNo andb];
    try destruct (scriptNULL m);
    rewrite bind_effects;
    try (exfalso; apply Hnot; repeat split; (assumption || lia));
    (eexists; split;
     [ rewrite !after_effects_twice, after_effects_done;
       cbn [lineNo set_fieldNo set_tokenStart set_pony set_scriptNULL
            set_badPony set_maxNameLen line_start set_lineNo];
       rewrite ?app_nil_r, <- ?app_assoc; reflexivity
     | cbn; repeat split; (lia || discriminate) ]).
Qed.

(** A line of five fields of which one fails its check, and of more
    fields: the reports of the checks, then those of the further
    fields, then the report that the line is discarded. *)
Lemma long_line_bad E opt m (f1 f2 f3 f4 f5 : cstring) (more : list cstring) :
  clean f1 = true -> clean f2 = true -> clean f3 = true ->
  clean f4 = true -> clean f5 = true ->
  forallb clean more = true ->
  fields_pass E f1 f2 f3 f4 f5 = false ->
  exists m',
    load_line E opt m (long_line f1 f2 f3 f4 f5 more) =
    (entry_reports E opt m f1 f2 f3 f4 f5
     ++ surplus_log E opt (S (lineNo m)) more
     ++ logged E opt (msg_discard opt (S (lineNo m))), Done m') /\
    trickHeap m' = trickHeap m /\ trickCount m' = trickCount m /\
    watches m' = watches m.
Proof.
  intros H1 H2 H3 H4 H5 Hmore Hfail.
  destruct (entry_turns_fail E opt m f1 f2 f3 f4 f5) as
    (m5 & Hturns & Hheap & Hcount & Hwatch & Hline & Hfield & Hbad);
    [now apply clean_no_NUL | now apply clean_no_NUL | exact Hfail |].
  unfold load_line. rewrite scan_long_line by assumption.
  rewrite Hturns, bind_effects.
  match goal with
  | |- context [surplus_turns E opt more ?n m5] =>
      destruct (surplus_turns_run E opt more n m5) as (n' & Hrun);
        [lia | exact Hmore |]
  end.
  rewrite Hrun, after_effects_pair, bind_effects.
  rewrite accept_line_bad by (cbn; (assumption || lia)).
  rewrite after_effects_pair. cbn [lineNo set_tokenStart set_fieldNo].
  rewrite Hline, <- app_assoc.
  eexists. split; [reflexivity |]. cbn. repeat split; assumption.
Qed.

(** *** Lines without a field *)

Lemma logged_cases E opt (text : cstring) (e : effect) :
  text <> [] ->
  In e (logged E opt text) ->
  e = Print stdout (log_line E text) \/
  e = Syslog (sloglev opt) (log_line E text).
Proof.
  intros Hne. unfold logged. rewrite trace_logx by exact Hne.
  cbn [Z.eqb]. intros [<- | H]; [now left |].
  destruct (syslog opt =? 1); [| destruct H].
  destruct H as [<- | []]. now right.
Qed.

Lemma log_line_inj E (t1 t2 : cstring) :
  log_line E t1 = log_line E t2 -> t1 = t2.
Proof.
  unfold log_line. intros H.
  repeat apply app_inv_head in H. now apply app_inv_tail in H.
Qed.

Lemma Print_inj (fh fh' : stream) (t t' : cstring) :
  Print fh t = Print fh' t' -> t = t'.
Proof. intros [= _ H]. exact H. Qed.

(** The report of a character is not the report that a line is
    discarded. *)
Lemma character_report_not_discard E opt n k :
  ~ character_report E opt n (Print stdout (log_line E (msg_discard opt k))).
Proof.
  intros (r & [H | H]);
    (apply logged_cases in H; [| discriminate]);
    (destruct H as [H | H]; [| discriminate H]);
    apply Print_inj, log_line_inj in H; discriminate H.
Qed.

(** The scan of a text without a delimiter logs nothing but the reports
    of its characters. *)
Lemma scan_no_field E opt (L rest : cstring) :
  forall n m,
    count_fields rest = 0%nat ->
    Forall (character_report E opt (lineNo m))
           (trace (scan_record E opt L rest n m)).
Proof.
  induction rest as [| c rest IH]; intros n m Hc; [constructor |].
  cbn [scan_record count_fields] in *.
  destruct (ends_record c); [constructor |].
  destruct (is_delimiter c); [discriminate Hc |]. cbn [Nat.add] in Hc.
  assert (Hsay : forall text,
            no_NUL text = true ->
            (exists r, text = msg_invisible opt (lineNo m) r \/
                       text = msg_illegal opt (lineNo m) r) ->
            Forall (character_report E opt (lineNo m))
                   (trace (m1 <- (sprintf_logx E 0 opt text ;;
                                  ret (set_badPony 1 m)) ;;
                           m2 <- ret m1 ;;
                           scan_record E opt L rest (S n) m2))).
  { intros text Hn (r & Hr).
    rewrite sprintf_logx_logged by exact Hn.
    rewrite bind_effects, after_effects_done, bind_effects, bind_ret_l.
    cbn [trace fst after_effects]. apply Forall_app. split.
    - apply Forall_forall. intros e He. exists r.
      destruct Hr as [-> | ->]; [left | right]; exact He.
    - apply (IH (S n) (set_badPony 1 m) Hc). }
  unfold check_char.
  destruct (negb (isprint c)); [destruct (negb (Ascii.eqb c LF)) |
                                destruct (Ascii.eqb c apostrophe)].
  - apply Hsay; [plain_text | eexists; left; reflexivity].
  - rewrite !bind_ret_l. now apply IH.
  - apply Hsay; [plain_text | eexists; right; reflexivity].
  - rewrite !bind_ret_l. now apply IH.
Qed.

(** A line that counts no field leaves the table as it is, and is not
    reported as discarded. *)
Lemma unterminated_line E opt m (confLine : cstring) :
  count_fields confLine = 0%nat ->
  yields (load_line E opt m confLine)
         (fun m' => trickHeap m' = trickHeap m /\
                    trickCount m' = trickCount m /\
                    watches m' = watches m) /\
  Forall (character_report E opt (S (lineNo m)))
         (trace (load_line E opt m confLine)).
Proof.
  intros Hc. destruct (scan_line E opt m confLine) as (m2 & Hr & F & Hf).
  rewrite (load_line_eq E opt m confLine m2 Hr).
  destruct F as [Hh Ht Hw _ _ _ _ _ _]. cbn in Hh, Ht, Hw.
  unfold accept_line. rewrite Hf, Hc. cbn [Nat.eqb negb].
  cbn [trace result ret fst snd]. rewrite app_nil_r. split.
  - exists m2. split; [reflexivity | now repeat split].
  - apply (scan_no_field E opt confLine confLine 0 (line_start m) Hc).
Qed.

(** *** Records with too few and with too many fields *)

(** C3, as the code has it.  The number of fields that the scan counts
    is the number of delimiters before the end of the record.  A record
    of one to four fields is reported as discarded and leaves the table
    as it was.  A record that counts no field, its text being closed by
    neither a colon nor a newline, leaves the table as it was too, but
    is not reported as discarded; when its characters are legal nothing
    is logged at all.  A line of five fields and of more fields has each
    of the further fields reported, the texts fitting [logtxt], and is
    not discarded for that: when the five fields pass their checks and
    the kernel grants the watch with the expected descriptor, the trick
    made of the first five fields is stored behind those of the table;
    the line is discarded, after the reports of the checks and of the
    further fields, when one of the five fields fails its check. *)
Theorem field_count_rule (E : env) (opt : opts_t) (m : main_t) :
  (forall confLine,
     exists m2,
       result (scan_record E opt confLine confLine 0 (line_start m)) = Done m2 /\
       fieldNo m2 = count_fields confLine) /\
  (forall confLine,
     (1 <= count_fields confLine < 5)%nat ->
     yields (load_line E opt m confLine)
            (fun m' => trickHeap m' = trickHeap m /\
                       trickCount m' = trickCount m) /\
     In (Print stdout (log_line E (msg_discard opt (S (lineNo m)))))
        (trace (load_line E opt m confLine))) /\
  (forall confLine,
     count_fields confLine = 0%nat ->
     yields (load_line E opt m confLine)
            (fun m' => trickHeap m' = trickHeap m /\
                       trickCount m' = trickCount m /\
                       watches m' = watches m) /\
     ~ In (Print stdout (log_line E (msg_discard opt (S (lineNo m)))))
          (trace (load_line E opt m confLine))) /\
  (forall text tail,
     clean text = true ->
     tail = [] \/ ends_record (hd LF tail) = true ->
     count_fields (text ++ tail) = 0%nat /\
     load_line E opt m (text ++ tail) = ([], Done (line_start m))) /\
  (forall f1 f2 f3 f4 f5 more,
     clean f1 = true -> clean f2 = true -> clean f3 = true ->
     clean f4 = true -> clean f5 = true ->
     forallb clean more = true ->
     fields_pass E f1 f2 f3 f4 f5 = true ->
     forallb (fun s => fits_logtxt (msg_too_many (S (lineNo m)) s)) more = true ->
     let wd := inotify_add_watch E (watches m) f1 (to_uint32 (atoi f2)) in
     let t := {| watchHandle := wd; actions := to_uint32 (atoi f2);
                 fileName := f1; script := f3; userid := f4; mail := f5 |} in
     (truthy (verbose opt) = true -> fits_logtxt (msg_added t) = true) ->
     wd = Z.of_nat (trickCount m) + 1 ->
     count_fields (long_line f1 f2 f3 f4 f5 more) = (5 + length more)%nat /\
     exists m',
       load_line E opt m (long_line f1 f2 f3 f4 f5 more) =
       (maxname_log E opt m f1 ++ surplus_log E opt (S (lineNo m)) more
        ++ added_log E opt t, Done m') /\
       trickHeap m' = trickHeap m ++ [t] /\
       trickCount m' = S (trickCount m)) /\
  (forall f1 f2 f3 f4 f5 more,
     clean f1 = true -> clean f2 = true -> clean f3 = true ->
     clean f4 = true -> clean f5 = true ->
     forallb clean more = true ->
     fields_pass E f1 f2 f3 f4 f5 = false ->
     forallb (fun s => fits_logtxt (msg_too_many (S (lineNo m)) s)) more = true ->
     (pathconf_NAME_MAX E f1 <= 0 -> fits_logtxt (msg_pathconf f1) = true) ->
     exists m',
       load_line E opt m (long_line f1 f2 f3 f4 f5 more) =
       (entry_reports E opt m f1 f2 f3 f4 f5
        ++ surplus_log E opt (S (lineNo m)) more
        ++ logged E opt (msg_discard opt (S (lineNo m))), Done m') /\
       trickHeap m' = trickHeap m /\
       trickCount m' = trickCount m /\
       watches m' = watches m).
Proof.
  split; [| split; [| split; [| split; [| split]]]].
  - intros confLine.
    destruct (scan_line E opt m confLine) as (m2 & Hr & _ & Hf).
    exists m2. now split.
  - intros confLine Hc.
    destruct (short_record_discarded E opt m confLine Hc) as (Hy & before & Ht).
    split; [exact Hy |]. rewrite Ht. apply in_or_app. right.
    apply logged_prints, msg_discard_not_empty.
  - intros confLine Hc.
    destruct (unterminated_line E opt m confLine Hc) as (Hy & Hall).
    split; [exact Hy |]. intros Hin.
    rewrite Forall_forall in Hall.
    exact (character_report_not_discard E opt _ _ (Hall _ Hin)).
  - intros text tail Htext Htail.
    assert (Hc : count_fields (text ++ tail) = 0%nat).
    { rewrite count_fields_text by now apply clean_field_text.
      destruct Htail as [-> | Ht]; [reflexivity |].
      destruct tail as [| c tail]; [reflexivity |].
      cbn [hd] in Ht. cbn [count_fields]. now rewrite Ht. }
    split; [exact Hc |].
    unfold load_line.
    rewrite scan_record_app by now apply clean_no_end.
    rewrite scan_clean by exact Htext. rewrite bind_ret_l.
    assert (Hrest :
      scan_record E opt (text ++ tail) tail (0 + length text) (line_start m) =
      ret (line_start m)).
    { destruct Htail as [-> | Ht]; [reflexivity |].
      destruct tail as [| c tail]; [reflexivity |].
      cbn [hd] in Ht. cbn [scan_record]. now rewrite Ht. }
    rewrite Hrest, bind_ret_l. reflexivity.
  - intros f1 f2 f3 f4 f5 more H1 H2 H3 H4 H5 Hmore Hpass _ wd t _ Hwd.
    split; [now apply count_fields_long_line |].
    destruct (long_line_granted E opt m f1 f2 f3 f4 f5 more
                H1 H2 H3 H4 H5 Hmore Hpass Hwd)
      as (m' & Hrun & Hheap & Hcount & _).
    exists m'. split; [exact Hrun |]. split; assumption.
  - intros f1 f2 f3 f4 f5 more H1 H2 H3 H4 H5 Hmore Hfail _ _.
    now apply long_line_bad.
Qed.

(** C3 at a record of two fields, at two texts that no newline closes,
    one of them with an apostrophe, at a record of six fields, and at
    one whose mask is written in hexadecimal. *)
Lemma field_count_rule_witness :
  let short := ln "/tmp/inbox:256" in
  let open := str "/tmp/inbox" in
  let quoted := str "it's" in
  let long := ln "/tmp/inbox:256:/bin/true:root:root:extra" in
  let bad := ln "/tmp/inbox:0x100:/bin/true:root:root:extra" in
  (tricks_of (load_line stub_machine opt_default main0 short) = Some [] /\
   In (Print stdout (log_line stub_machine (msg_discard opt_default 1)))
      (trace (load_line stub_machine opt_default main0 short))) /\
  load_line stub_machine opt_default main0 open = ([], Done (line_start main0)) /\
  (tricks_of (load_line stub_machine opt_default main0 quoted) = Some [] /\
   ~ In (Print stdout (log_line stub_machine (msg_discard opt_default 1)))
        (trace (load_line stub_machine opt_default main0 quoted))) /\
  count_fields long = 6%nat /\
  trace (load_line stub_machine opt_default main0 long) =
  [Print stdout (log_line stub_machine (msg_too_many 1 (str "extra")))] /\
  tricks_of (load_line stub_machine opt_default main0 long) =
  Some [{| watchHandle := 1; actions := 256; fileName := str "/tmp/inbox";
           script := str "/bin/true"; userid := str "root";
           mail := str "root" |}] /\
  tricks_of (load_line stub_machine opt_default main0 bad) = Some [] /\
  trace (load_line stub_machine opt_default main0 bad) =
  [Print stdout (log_line stub_machine (msg_mask opt_default 1));
   Print stdout (log_line stub_machine (msg_too_many 1 (str "extra")));
   Print stdout (log_line stub_machine (msg_discard opt_default 1))].
Proof.
  intros short open quoted long bad.
  destruct (field_count_rule stub_machine opt_default main0)
    as (_ & Hshort & Hnone & Hopen & Hlong & Hbad).
  destruct (Hbad (str "/tmp/inbox") (str "0x100") (str "/bin/true") (str "root")
                 (str "root") [str "extra"]
                 eq_refl eq_refl eq_refl eq_refl eq_refl eq_refl eq_refl eq_refl)
    as (m4 & Hm4 & Hh4 & _); [intros _; reflexivity |].
  destruct (Hshort short) as ((m1 & Hm1 & Hh1 & _) & Hin); [vm_compute; lia |].
  destruct (Hopen open []) as (_ & Hsilent);
    [vm_compute; reflexivity | left; reflexivity |].
  destruct (Hnone quoted) as ((m3 & Hm3 & Hh3 & _) & Hnot);
    [vm_compute; reflexivity |].
  destruct (Hlong (str "/tmp/inbox") (str "256") (str "/bin/true") (str "root")
                  (str "root") [str "extra"])
    as (Hsix & m2 & Hm2 & Hh2 & _);
    try (vm_compute; reflexivity).
  split; [split; [unfold tricks_of; now rewrite Hm1, Hh1 | exact Hin] |].
  split; [rewrite <- Hsilent; now rewrite app_nil_r |].
  split; [split; [unfold tricks_of; now rewrite Hm3, Hh3 | exact Hnot] |].
  split; [exact Hsix |].
  change long with (long_line (str "/tmp/inbox") (str "256") (str "/bin/true")
                              (str "root") (str "root") [str "extra"]).
  rewrite Hm2. split; [reflexivity |].
  split; [unfold tricks_of; cbn [result snd]; rewrite Hh2; reflexivity |].
  change bad with (long_line (str "/tmp/inbox") (str "0x100") (str "/bin/true")
                             (str "root") (str "root") [str "extra"]).
  rewrite Hm4. split; [unfold tricks_of; cbn [result snd]; now rewrite Hh4 |].
  vm_compute. reflexivity.
Defined.

(** C3 as it was claimed fails at a record of six fields: the sixth is
    reported and dropped, and the record yields its trick.  It fails
    also at a text that neither a colon nor a newline closes, which is
    dropped without a word. *)
Lemma six_fields_counterexample :
  let confLine := ln "/tmp/inbox:256:/bin/true:root:root:extra" in
  let open := str "/tmp/inbox" in
  (count_fields confLine = 6%nat /\
   option_map (map fileName)
     (tricks_of (load_config stub_machine opt_default [confLine])) =
   Some [str "/tmp/inbox"] /\
   trace (load_config stub_machine opt_default [confLine]) =
   [Print stdout (log_line stub_machine (msg_too_many 1 (str "extra")))]) /\
  (count_fields open = 0%nat /\
   tricks_of (load_config stub_machine opt_default [open]) = Some [] /\
   trace (load_config stub_machine opt_default [open]) = []).
Proof. vm_compute. repeat split. Qed.

(** ** Entries of five fields *)

(** X1: an entry of five fields made of legal characters that pass the
    five checks is loaded as the trick of exactly these fields, the mask
    being the value of [atoi], when the kernel grants the watch with the
    expected descriptor; nothing is logged unless [-v] is given, and
    [maxNameLen] rises to the name length of the path if that is larger.
    When the kernel refuses the watch, the refusal and then the
    discarding are logged and the table stays as it was.  The texts
    that hold the path are taken to fit [logtxt]. *)
Theorem entry_is_loaded (E : env) (opt : opts_t) (m : main_t)
  (f1 f2 f3 f4 f5 : cstring) :
  clean f1 = true -> clean f2 = true -> clean f3 = true ->
  clean f4 = true -> clean f5 = true ->
  fields_pass E f1 f2 f3 f4 f5 = true ->
  let wd := inotify_add_watch E (watches m) f1 (to_uint32 (atoi f2)) in
  let t := {| watchHandle := wd; actions := to_uint32 (atoi f2);
              fileName := f1; script := f3; userid := f4; mail := f5 |} in
  (wd = Z.of_nat (trickCount m) + 1 ->
   (truthy (verbose opt) = true -> fits_logtxt (msg_added t) = true) ->
   exists m',
     load_line E opt m (entry_line f1 f2 f3 f4 f5) =
     (entry_log E opt m t, Done m') /\
     trickHeap m' = trickHeap m ++ [t] /\
     trickCount m' = S (trickCount m) /\
     maxNameLen m' = Z.max (maxNameLen m) (pathconf_NAME_MAX E f1) /\
     lineNo m' = S (lineNo m) /\
     (verbose opt = 0 -> entry_log E opt m t = [])) /\
  (wd < 0 ->
   fits_logtxt (msg_add_watch E (watches m) t) = true ->
   no_NUL (strerror E (errno_add_watch E (watches m))) = true ->
   exists m',
     load_line E opt m (entry_line f1 f2 f3 f4 f5) =
     (maxname_log E opt m f1
      ++ logged E opt (msg_add_watch E (watches m) t)
      ++ logged E opt (msg_discard opt (S (lineNo m))), Done m') /\
     trickHeap m' = trickHeap m /\
     trickCount m' = trickCount m).
Proof.
  intros H1 H2 H3 H4 H5 Hpass wd t.
  change (entry_line f1 f2 f3 f4 f5) with (long_line f1 f2 f3 f4 f5 []).
  split.
  - intros Hwd _.
    destruct (long_line_granted E opt m f1 f2 f3 f4 f5 []
                H1 H2 H3 H4 H5 eq_refl Hpass Hwd)
      as (m' & Hrun & Hheap & Hcount & Hmax & Hline & _).
    exists m'. split; [exact Hrun |].
    repeat (split; [assumption |]).
    intros Hv. unfold entry_log, truthy. rewrite Hv. cbn.
    now rewrite andb_false_r.
  - intros Hwd _ He.
    destruct (long_line_refused E opt m f1 f2 f3 f4 f5 []
                H1 H2 H3 H4 H5 eq_refl Hpass He Hwd)
      as (m' & Hrun & Hheap & Hcount & _).
    exists m'. split; [exact Hrun |]. split; assumption.
Qed.

(** X1 at the entry [/tmp/inbox:256:/bin/echo hello:nobody:ops@example.test]
    read first by the quiet program, and at an entry with the mask 0 on
    a machine that refuses it. *)
Lemma entry_is_loaded_witness :
  let entry :=
    entry_line (str "/tmp/inbox") (str "256") (str "/bin/echo hello")
               (str "nobody") (str "ops@example.test") in
  let E := linux_machine [(str "/tmp/inbox", 0)] in
  (exists m',
     load_line stub_machine opt_default main0 entry = ([], Done m') /\
     trickHeap m' =
     [{| watchHandle := 1; actions := 256; fileName := str "/tmp/inbox";
         script := str "/bin/echo hello"; userid := str "nobody";
         mail := str "ops@example.test" |}] /\
     maxNameLen m' = 255) /\
  trace (load_line E opt_default main0
           (entry_line (str "/tmp/inbox") (str "0") (str "/bin/true")
                       (str "nobody") (str "root"))) =
  [Print stdout
     (log_line E (str "ERROR -1: Unable to add watch for /tmp/inbox"
                  ++ [TAB] ++ str "Invalid argument (22)"));
   Print stdout (log_line E (msg_discard opt_default 1))].
Proof.
  intros entry E. split.
  - destruct (entry_is_loaded stub_machine opt_default main0
                (str "/tmp/inbox") (str "256") (str "/bin/echo hello")
                (str "nobody") (str "ops@example.test"))
      as (Hgrant & _); try (vm_compute; reflexivity).
    destruct Hgrant as (m' & Hrun & Hheap & _ & Hmax & _ & Hquiet);
      try (vm_compute; reflexivity).
    exists m'. split; [| split].
    + unfold entry. rewrite Hrun, Hquiet; reflexivity.
    + rewrite Hheap. reflexivity.
    + rewrite Hmax. reflexivity.
  - pose proof (entry_is_loaded E opt_default main0
                  (str "/tmp/inbox") (str "0") (str "/bin/true")
                  (str "nobody") (str "root")
                  eq_refl eq_refl eq_refl eq_refl eq_refl eq_refl)
      as (_ & Hrefuse).
    destruct Hrefuse as (m' & Hrun & _);
      [vm_compute; reflexivity | vm_compute; reflexivity | reflexivity |].
    rewrite Hrun. vm_compute. reflexivity.
Defined.

(** X2: an entry of five fields made of legal characters of which one
    fails its check logs the report of each failing check, in the order
    of the fields, and then the report that the line is discarded; it
    leaves the table as it was and asks the kernel for nothing.  The
    report for an account name that is too long is the one for the
    script name, and an address that is short enough is refused with
    the words of a failed allocation when the script was refused and no
    script was stored before.  The report that holds the path is taken
    to fit [logtxt]. *)
Theorem entry_with_bad_field (E : env) (opt : opts_t) (m : main_t)
  (f1 f2 f3 f4 f5 : cstring) :
  clean f1 = true -> clean f2 = true -> clean f3 = true ->
  clean f4 = true -> clean f5 = true ->
  fields_pass E f1 f2 f3 f4 f5 = false ->
  (pathconf_NAME_MAX E f1 <= 0 -> fits_logtxt (msg_pathconf f1) = true) ->
  exists m',
    load_line E opt m (entry_line f1 f2 f3 f4 f5) =
    (entry_reports E opt m f1 f2 f3 f4 f5
     ++ logged E opt (msg_discard opt (S (lineNo m))), Done m') /\
    trickHeap m' = trickHeap m /\ trickCount m' = trickCount m /\
    watches m' = watches m.
Proof.
  intros H1 H2 H3 H4 H5 Hfail _.
  destruct (entry_turns_fail E opt m f1 f2 f3 f4 f5) as
    (m5 & Hturns & Hheap & Hcount & Hwatch & Hline & Hfield & Hbad);
    [now apply clean_no_NUL | now apply clean_no_NUL | exact Hfail |].
  unfold load_line. rewrite scan_entry by assumption.
  rewrite Hturns, bind_effects.
  rewrite accept_line_bad by (assumption || lia).
  rewrite after_effects_pair, Hline.
  exists m5. repeat split; assumption.
Qed.

(** X2 at an entry whose mask is written in hexadecimal and whose mail
    address has 37 characters, and at the first entry of a file, whose
    script name has 257 characters. *)
Lemma entry_with_bad_field_witness :
  let run :=
    load_line stub_machine opt_default main0
      (entry_line (str "/tmp/inbox") (str "0x100") (str "/bin/true")
                  (str "nobody")
                  (str "operations-of-the-night@example.test1")) in
  let long_script := str "/" ++ repeat "s"%char 256 in
  let first :=
    load_line stub_machine opt_default main0
      (entry_line (str "/tmp/inbox") (str "256") long_script
                  (str "nobody") (str "root")) in
  (tricks_of run = Some [] /\
   trace run =
   [Print stdout (log_line stub_machine (msg_mask opt_default 1));
    Print stdout (log_line stub_machine (msg_email opt_default 1));
    Print stdout (log_line stub_machine (msg_discard opt_default 1))]) /\
  (tricks_of first = Some [] /\
   trace first =
   [Print stdout (log_line stub_machine (msg_script opt_default 1));
    Print stdout (log_line stub_machine (msg_alloc_mail (str "root") 1));
    Print stdout (log_line stub_machine (msg_discard opt_default 1))]).
Proof.
  intros run long_script first.
  destruct (entry_with_bad_field stub_machine opt_default main0
              (str "/tmp/inbox") (str "0x100") (str "/bin/true")
              (str "nobody") (str "operations-of-the-night@example.test1"))
    as (m' & Hrun & Hheap & _);
    try (vm_compute; reflexivity).
  destruct (entry_with_bad_field stub_machine opt_default main0
              (str "/tmp/inbox") (str "256") long_script
              (str "nobody") (str "root"))
    as (m'' & Hfirst & Hheap' & _);
    try (vm_compute; reflexivity).
  split; split.
  - unfold tricks_of, run. rewrite Hrun. cbn [result snd]. now rewrite Hheap.
  - unfold run. rewrite Hrun. vm_compute. reflexivity.
  - unfold tricks_of, first. rewrite Hfirst. cbn [result snd]. now rewrite Hheap'.
  - unfold first. rewrite Hfirst. vm_compute. reflexivity.
Defined.

(** ** Characters that spoil a line *)

Lemma check_char_bad E opt n c m :
  Ascii.eqb c apostrophe = true \/
  isprint c = false /\ Ascii.eqb c LF = false ->
  check_char E opt n c m =
  (logged E opt ((if isprint c then msg_illegal else msg_invisible)
                   opt (lineNo m) n),
   Done (set_badPony 1 m)).
Proof.
  intros H. unfold check_char.
  destruct H as [Ha | (Hp & Hl)].
  - apply Ascii.eqb_eq in Ha. subst c.
    replace (isprint apostrophe) with true by reflexivity.
    cbn [negb]. rewrite Ascii.eqb_refl, sprintf_logx_logged by plain_text. cbn. now rewrite app_nil_r.
  - rewrite Hp, Hl. cbn [negb]. rewrite sprintf_logx_logged by plain_text. cbn. now rewrite app_nil_r.
Qed.

Lemma accept_line_bad_pony E opt m :
  badPony m <> 0 ->
  exists t, accept_line E opt m = (t, Done m).
Proof.
  intros Hb. destruct (Nat.eq_dec (fieldNo m) 0) as [H0 | H0].
  - unfold accept_line. rewrite H0. cbn. eexists. reflexivity.
  - rewrite accept_line_bad by assumption. eexists. reflexivity.
Qed.

(** X3: an apostrophe, or a character that is neither printable nor
    the newline, met before the end of the record is reported with its
    position, counted from 1, and the line yields no trick. *)
Theorem bad_character_spoils_line (E : env) (opt : opts_t) (m : main_t)
  (pre : cstring) (c : ascii) (rest : cstring) :
  forallb (fun x => negb (ends_record x)) pre = true ->
  ends_record c = false ->
  Ascii.eqb c apostrophe = true \/
  isprint c = false /\ Ascii.eqb c LF = false ->
  let run := load_line E opt m (pre ++ c :: rest) in
  (exists m',
     result run = Done m' /\
     trickHeap m' = trickHeap m /\ trickCount m' = trickCount m /\
     watches m' = watches m) /\
  In (Print stdout
        (log_line E ((if isprint c then msg_illegal else msg_invisible)
                       opt (S (lineNo m)) (length pre))))
     (trace run).
Proof.
  intros Hpre Hend Hbad run. subst run.
  set (L := pre ++ c :: rest).
  destruct (scan_record_frame E opt L pre 0 (line_start m))
    as (ma & Hra & Fa & _).
  assert (Hdel : is_delimiter c = false).
  { unfold is_delimiter. destruct Hbad as [Ha | (Hp & Hl)].
    - apply Ascii.eqb_eq in Ha. subst c. reflexivity.
    - rewrite Hl, orb_false_r.
      destruct (Ascii.eqb_spec c ":") as [-> | _]; [discriminate Hp | reflexivity]. }
  destruct (scan_record_frame E opt L rest (S (length pre)) (set_badPony 1 ma))
    as (mg & Hrg & Fg & _).
  assert (Hscan :
    scan_record E opt L L 0 (line_start m) =
    (trace (scan_record E opt L pre 0 (line_start m))
     ++ logged E opt ((if isprint c then msg_illegal else msg_invisible)
                        opt (lineNo ma) (length pre))
     ++ trace (scan_record E opt L rest (S (length pre)) (set_badPony 1 ma)),
     Done mg)).
  { unfold L at 2. rewrite scan_record_app by exact Hpre.
    apply (bind_done_eq _ _ ma); [exact Hra |].
    cbn [Nat.add scan_record]. rewrite Hend, Hdel, (check_char_bad _ _ _ _ _ Hbad).
    rewrite bind_pair, bind_ret_l. cbn [fst snd trace result].
    now rewrite Hrg. }
  assert (Hb : badPony mg <> 0).
  { apply (frame_badPony _ _ Fg). discriminate. }
  destruct (accept_line_bad_pony E opt mg Hb) as (t & Hacc).
  assert (Hres : result (scan_record E opt L L 0 (line_start m)) = Done mg)
    by now rewrite Hscan.
  rewrite (load_line_eq E opt m L mg Hres), Hacc, Hscan.
  cbn [result trace fst snd]. split.
  - exists mg. split; [reflexivity |].
    pose proof (frame_trickHeap _ _ Fa) as A1.
    pose proof (frame_trickCount _ _ Fa) as A2.
    pose proof (frame_watches _ _ Fa) as A3.
    pose proof (frame_trickHeap _ _ Fg) as B1.
    pose proof (frame_trickCount _ _ Fg) as B2.
    pose proof (frame_watches _ _ Fg) as B3.
    cbn in A1, A2, A3, B1, B2, B3. repeat split; congruence.
  - pose proof (frame_lineNo _ _ Fa) as Hl. cbn in Hl. rewrite Hl.
    apply in_or_app. left. apply in_or_app. right. apply in_or_app. left.
    apply logged_prints. destruct (isprint c); discriminate.
Qed.

(** ** Entries that are not closed *)

(** X4: an entry whose fifth field is not closed by a newline or by a
    colon, because a comment follows it on the line or because the file
    ends there, counts four fields: it is reported as discarded and
    yields no trick. *)
Theorem unclosed_entry_is_discarded (E : env) (opt : opts_t) (m : main_t)
  (f1 f2 f3 f4 f5 tail : cstring) :
  field_text f1 = true -> field_text f2 = true -> field_text f3 = true ->
  field_text f4 = true -> field_text f5 = true ->
  tail = [] \/ ends_record (hd LF tail) = true ->
  let confLine :=
    f1 ++ ":" :: f2 ++ ":" :: f3 ++ ":" :: f4 ++ ":" :: f5 ++ tail in
  count_fields confLine = 4%nat /\
  yields (load_line E opt m confLine)
         (fun m' => trickHeap m' = trickHeap m /\
                    trickCount m' = trickCount m) /\
  In (Print stdout (log_line E (msg_discard opt (S (lineNo m)))))
     (trace (load_line E opt m confLine)).
Proof.
  intros H1 H2 H3 H4 H5 Htail confLine.
  assert (Hc : count_fields confLine = 4%nat).
  { unfold confLine.
    rewrite (count_fields_text f1), count_fields_colon by assumption.
    rewrite (count_fields_text f2), count_fields_colon by assumption.
    rewrite (count_fields_text f3), count_fields_colon by assumption.
    rewrite (count_fields_text f4), count_fields_colon by assumption.
    rewrite (count_fields_text f5) by assumption.
    destruct Htail as [-> | Ht]; [reflexivity |].
    destruct tail as [| c tail]; [reflexivity |].
    cbn [hd] in Ht. cbn [count_fields]. now rewrite Ht. }
  split; [exact Hc |].
  destruct (short_record_discarded E opt m confLine) as (Hy & before & Ht);
    [lia |].
  split; [exact Hy |]. rewrite Ht. apply in_or_app. right.
  apply logged_prints, msg_discard_not_empty.
Qed.

(** X3 at a line with an apostrophe in its third field, and at one with
    a bell character in its first. *)
Lemma bad_character_spoils_line_witness :
  let quoted := ln "/tmp/inbox:256:/bin/echo 'hi':nobody:root" in
  let bell := "/"%char :: "007"%char :: ln "tmp:256:/bin/true:nobody:root" in
  tricks_of (load_line stub_machine opt_default main0 quoted) = Some [] /\
  In (Print stdout (log_line stub_machine (msg_illegal opt_default 1 25)))
     (trace (load_line stub_machine opt_default main0 quoted)) /\
  In (Print stdout (log_line stub_machine (msg_invisible opt_default 1 1)))
     (trace (load_line stub_machine opt_default main0 bell)).
Proof.
  intros quoted bell.
  destruct (bad_character_spoils_line stub_machine opt_default main0
              (str "/tmp/inbox:256:/bin/echo ") apostrophe
              (ln "hi':nobody:root"))
    as ((m' & Hrun & Hheap & _) & Hsaid);
    [vm_compute; reflexivity | vm_compute; reflexivity
     | left; vm_compute; reflexivity |].
  destruct (bad_character_spoils_line stub_machine opt_default main0
              (str "/") "007"%char (ln "tmp:256:/bin/true:nobody:root"))
    as (_ & Hbell);
    [vm_compute; reflexivity | vm_compute; reflexivity
     | right; split; vm_compute; reflexivity |].
  split; [| split].
  - unfold tricks_of. change quoted with
      (str "/tmp/inbox:256:/bin/echo " ++ apostrophe :: ln "hi':nobody:root").
    now rewrite Hrun, Hheap.
  - exact Hsaid.
  - exact Hbell.
Defined.

(** X4 at an entry followed by a comment and at one that ends the
    file. *)
Lemma unclosed_entry_is_discarded_witness :
  let commented := ln "/tmp/inbox:256:/bin/true:nobody:root# nightly" in
  let last := str "/tmp/inbox:256:/bin/true:nobody:root" in
  tricks_of (load_line stub_machine opt_default main0 commented) = Some [] /\
  tricks_of (load_line stub_machine opt_default main0 last) = Some [] /\
  In (Print stdout (log_line stub_machine (msg_discard opt_default 1)))
     (trace (load_line stub_machine opt_default main0 last)).
Proof.
  intros commented last.
  destruct (unclosed_entry_is_discarded stub_machine opt_default main0
              (str "/tmp/inbox") (str "256") (str "/bin/true")
              (str "nobody") (str "root") (ln "# nightly"))
    as (_ & (m1 & Hr1 & Hh1 & _) & _);
    try (vm_compute; reflexivity);
    [right; vm_compute; reflexivity |].
  destruct (unclosed_entry_is_discarded stub_machine opt_default main0
              (str "/tmp/inbox") (str "256") (str "/bin/true")
              (str "nobody") (str "root") [])
    as (_ & (m2 & Hr2 & Hh2 & _) & Hsaid);
    try (vm_compute; reflexivity);
    [left; reflexivity |].
  split; [| split].
  - unfold tricks_of.
    change commented with
      (str "/tmp/inbox" ++ ":" :: str "256" ++ ":" :: str "/bin/true" ++ ":"
       :: str "nobody" ++ ":" :: str "root" ++ ln "# nightly")%char.
    now rewrite Hr1, Hh1.
  - unfold tricks_of.
    change last with
      (str "/tmp/inbox" ++ ":" :: str "256" ++ ":" :: str "/bin/true" ++ ":"
       :: str "nobody" ++ ":" :: str "root" ++ [])%char.
    now rewrite Hr2, Hh2.
  - exact Hsaid.
Defined.

(** ** What every trick of the table satisfies *)

Lemma pony_ok_less E k k' M M' p :
  pony_ok E k M p -> (k' <= k)%nat -> M <= M' -> pony_ok E k' M' p.
Proof.
  intros [H1 H2 H3 H4 H5] Hk HM. constructor; intros H.
  - destruct H1 as (Hc & Hp); [lia |]. split; [exact Hc | lia].
  - apply H2. lia.
  - apply H3. lia.
  - apply H4. lia.
  - apply H5. lia.
Qed.

Lemma pony_ok_surplus E k M p :
  (5 <= k)%nat -> pony_ok E k M p -> pony_ok E (S k) M p.
Proof.
  intros Hk [H1 H2 H3 H4 H5]. constructor; intros _.
  - apply H1. lia.
  - apply H2. lia.
  - apply H3. lia.
  - apply H4. lia.
  - apply H5. lia.
Qed.

Lemma check_char_legal E opt n c m :
  yields (check_char E opt n c m)
         (fun m' => fieldNo m' = fieldNo m /\ tokenStart m' = tokenStart m /\
                    pony m' = pony m /\ maxNameLen m' = maxNameLen m /\
                    (badPony m' = 0 ->
                     badPony m = 0 /\
                     (ends_record c = false -> is_delimiter c = false ->
                      field_char c = true))).
Proof.
  unfold check_char.
  destruct (isprint c) eqn:Hp; cbn [negb].
  - destruct (Ascii.eqb c apostrophe) eqn:Ha.
    + apply yields_log, yields_ret. cbn. repeat split; discriminate.
    + apply yields_ret. repeat split; try assumption.
      intros He Hd. unfold field_char. rewrite Hp, Ha. cbn [negb andb].
      unfold ends_record in He. unfold is_delimiter in Hd.
      apply orb_false_iff in He as (_ & ->). apply orb_false_iff in Hd as (-> & _).
      reflexivity.
  - destruct (Ascii.eqb c LF) eqn:Hl; cbn [negb].
    + apply yields_ret. repeat split; try assumption.
      intros _ Hd. unfold is_delimiter in Hd. rewrite Hl, orb_true_r in Hd.
      discriminate.
    + apply yields_log, yields_ret. cbn. repeat split; discriminate.
Qed.

(** A clause of [pony_ok] after one turn of the [switch]: it is void,
    or kept from before the turn, or holds by the check of the turn. *)
Ltac field_kept :=
  first
    [ lia
    | apply to_uint32_range
    | match goal with
      | Hk : _ -> ?G |- ?G => apply Hk; lia
      end
    | split; [auto | lia] ].

Lemma take_field_ok E opt confLine n (cur : cstring) m :
  token confLine (tokenStart m) (n - tokenStart m) = cur ->
  length cur = (n - tokenStart m)%nat ->
  (badPony m = 0 -> clean cur = true) ->
  (badPony m = 0 -> pony_ok E (fieldNo m) (maxNameLen m) (pony m)) ->
  yields (take_field E opt confLine n m)
         (fun m' => tokenStart m' = (n + 1)%nat /\
                    maxNameLen m <= maxNameLen m' /\
                    (badPony m' = 0 ->
                     pony_ok E (fieldNo m') (maxNameLen m') (pony m'))).
Proof.
  intros Htok Hlen Hclean Hok. unfold take_field. cbv zeta.
  cbn [tokenStart set_fieldNo]. rewrite Htok, <- Hlen.
  destruct (fieldNo m) as [| [| [| [| [| k]]]]] eqn:Hf.
  - rewrite load_path_field_read by reflexivity.
    destruct (Z.leb_spec (pathconf_NAME_MAX E cur) 0) as [Hp | Hp];
      rewrite bind_pair; eexists; (split; [reflexivity |]); cbn;
      (split; [reflexivity |]); (split; [lia |]); [discriminate |].
    intros Hb. constructor; cbn; intros H; try lia.
    split; [now apply Hclean | lia].
  - rewrite load_mask_field by reflexivity.
    destruct (forallb isdigit cur);
      rewrite bind_pair; eexists; (split; [reflexivity |]); cbn;
      (split; [reflexivity |]); (split; [lia |]); [| discriminate].
    intros Hb. destruct (Hok Hb) as [H1 H2 H3 H4 H5].
    constructor; cbn; intros H; field_kept.
  - rewrite load_script_field by reflexivity.
    destruct (Z.gtb_spec (Z.of_nat (length cur)) maxScriptLen) as [Hs | Hs];
      rewrite bind_pair; eexists; (split; [reflexivity |]); cbn;
      (split; [reflexivity |]); (split; [lia |]); [discriminate |].
    intros Hb. destruct (Hok Hb) as [H1 H2 H3 H4 H5].
    constructor; cbn; intros H; field_kept.
  - rewrite load_userid_field by reflexivity.
    destruct (Z.gtb_spec (Z.of_nat (length cur)) (LOGIN_NAME_MAX E)) as [Hs | Hs];
      rewrite bind_pair; eexists; (split; [reflexivity |]); cbn;
      (split; [reflexivity |]); (split; [lia |]); [discriminate |].
    intros Hb. destruct (Hok Hb) as [H1 H2 H3 H4 H5].
    constructor; cbn; intros H; field_kept.
  - rewrite load_mail_field_read by reflexivity.
    destruct (Z.gtb_spec (Z.of_nat (length cur)) maxEmailLen) as [Hs | Hs];
      [| destruct (scriptNULL _)];
      rewrite bind_pair; eexists; (split; [reflexivity |]); cbn;
      (split; [reflexivity |]); (split; [lia |]);
      [discriminate | discriminate |].
    intros Hb. destruct (Hok Hb) as [H1 H2 H3 H4 H5].
    constructor; cbn; intros H; field_kept.
  - unfold load_field. cbn [fieldNo set_fieldNo].
    rewrite bind_assoc. apply yields_log. rewrite !bind_ret_l.
    apply yields_ret. cbn. split; [reflexivity |]. split; [lia |].
    intros Hb. apply pony_ok_surplus; [lia |]. now apply Hok.
Qed.

(** The scan keeps the checks that the fields taken so far have
    passed.  [done] is the part of the line before the field that is
    being read, [cur] what has been read of that field. *)
Lemma scan_record_ok E opt (rest : cstring) :
  forall (done cur : cstring) (m : main_t),
    tokenStart m = length done ->
    (badPony m = 0 -> clean cur = true) ->
    (badPony m = 0 -> pony_ok E (fieldNo m) (maxNameLen m) (pony m)) ->
    yields (scan_record E opt (done ++ cur ++ rest) rest
                        (length done + length cur) m)
           (fun m' => maxNameLen m <= maxNameLen m' /\
                      (badPony m' = 0 ->
                       pony_ok E (fieldNo m') (maxNameLen m') (pony m'))).
Proof.
  induction rest as [| c rest IH]; intros done cur m Hts Hclean Hok.
  - apply yields_ret. split; [lia | exact Hok].
  - cbn [scan_record]. destruct (ends_record c) eqn:He.
    + apply yields_ret. split; [lia | exact Hok].
    + eapply yields_bind; [apply check_char_legal |].
      cbn beta. intros m1 (Hf1 & Ht1 & Hp1 & Hm1 & Hb1).
      destruct (is_delimiter c) eqn:Hd.
      * eapply yields_bind.
        -- apply (take_field_ok E opt _ _ cur).
           ++ rewrite Ht1, Hts.
              replace (length done + length cur - length done)%nat
                with (length cur) by lia.
              apply token_middle.
           ++ rewrite Ht1, Hts. lia.
           ++ intros Hb. apply Hclean. now apply Hb1.
           ++ intros Hb. rewrite Hf1, Hm1, Hp1. apply Hok. now apply Hb1.
        -- cbn beta. intros m2 (Ht2 & Hm2 & Hok2).
           replace (done ++ cur ++ c :: rest)
             with ((done ++ cur ++ [c]) ++ [] ++ rest)
             by (cbn [app]; now rewrite <- !app_assoc).
           replace (S (length done + length cur))
             with (length (done ++ cur ++ [c]) + length (@nil ascii))%nat
             by (rewrite !length_app; cbn [length]; lia).
           eapply yields_weaken.
           ++ apply IH.
              ** rewrite Ht2, !length_app. cbn [length]. lia.
              ** reflexivity.
              ** exact Hok2.
           ++ cbn beta. intros m3 (Hm3 & Hok3). split; [lia | exact Hok3].
      * rewrite bind_ret_l.
        replace (done ++ cur ++ c :: rest)
          with (done ++ (cur ++ [c]) ++ rest)
          by (now rewrite <- !app_assoc).
        replace (S (length done + length cur))
          with (length done + length (cur ++ [c]))%nat
          by (rewrite length_app; cbn [length]; lia).
        eapply yields_weaken.
        -- apply IH.
           ++ now rewrite Ht1.
           ++ intros Hb. destruct (Hb1 Hb) as (Hb0 & Hc).
              unfold clean. rewrite forallb_app. cbn [forallb].
              fold (clean cur). rewrite (Hclean Hb0), (Hc He eq_refl).
              reflexivity.
           ++ intros Hb. rewrite Hf1, Hm1, Hp1. apply Hok. now apply Hb1.
        -- cbn beta. intros m3 (Hm3 & Hok3). split; [lia | exact Hok3].
Qed.

Lemma accept_line_keeps E opt m m' :
  result (accept_line E opt m) = Done m' ->
  maxNameLen m' = maxNameLen m /\ lineNo m' = lineNo m /\
  (watches m <= watches m')%nat.
Proof.
  unfold accept_line, truthy.
  destruct (negb (fieldNo m =? 0)%nat); [| intros [= <-]; repeat split; lia].
  destruct (negb (badPony m =? 0) || (fieldNo m <? 5)%nat).
  - rewrite result_bind, result_sprintf_logx. intros [= <-]. repeat split; lia.
  - unfold add_trick. cbv zeta.
    destruct (_ <? 0).
    + rewrite result_bind, result_sprintf_logx. cbn [Z.eqb].
      rewrite result_bind, result_sprintf_logx. cbn [Z.eqb].
      intros [= <-]. cbn. repeat split; lia.
    + unfold when. destruct (negb _).
      * rewrite result_bind, result_sprintf_logx. discriminate.
      * rewrite bind_ret_l. destruct (truthy (verbose opt)).
        -- rewrite result_bind, result_sprintf_logx. cbn [Z.eqb].
           intros [= <-]. cbn. repeat split; lia.
        -- rewrite bind_ret_l. intros [= <-]. cbn. repeat split; lia.
Qed.

Lemma load_line_ok E opt m confLine m' :
  table_ok E m ->
  result (load_line E opt m confLine) = Done m' ->
  table_ok E m'.
Proof.
  intros Hinv Hres.
  destruct (scan_record_ok E opt confLine [] [] (line_start m))
    as (mg & Hscan & Hmax & Hok);
    [reflexivity | reflexivity | intros _; constructor; cbn; lia |].
  cbn [app length Nat.add] in Hscan.
  destruct (scan_record_frame E opt confLine confLine 0 (line_start m))
    as (mg' & Hscan' & Fg & _).
  assert (mg' = mg) by congruence. subst mg'.
  rewrite (load_line_eq E opt m confLine mg Hscan) in Hres.
  destruct (accept_line_keeps E opt mg m' Hres) as (Hmax' & _).
  pose proof (frame_trickHeap _ _ Fg) as Hheap. cbn in Hheap, Hmax.
  assert (Hold : Forall (pony_ok E 5 (maxNameLen m')) (trickHeap m)).
  { eapply Forall_impl; [| exact Hinv]. intros t Ht.
    apply (pony_ok_less E 5 5 (maxNameLen m)); [exact Ht | lia | lia]. }
  unfold table_ok.
  destruct (accept_line_heap E opt mg m' Hres)
    as [(_ & Hh) | (Hb & H5 & wd & Hh)]; rewrite Hh, Hheap.
  - exact Hold.
  - apply Forall_app. split; [exact Hold |]. constructor; [| constructor].
    destruct (pony_ok_less E _ 5 _ (maxNameLen m') _ (Hok Hb) H5 ltac:(lia))
      as [H1 H2 H3 H4 H5'].
    constructor; cbn; assumption.
Qed.

Lemma load_lines_ok E opt (configFile : list cstring) :
  forall m m',
    table_ok E m ->
    result (load_lines E opt m configFile) = Done m' ->
    table_ok E m'.
Proof.
  induction configFile as [| confLine more IH]; intros m m' Hinv.
  - intros [= <-]. exact Hinv.
  - cbn [load_lines]. rewrite result_bind.
    destruct (result (load_line E opt m confLine)) as [m1 | x] eqn:H1;
      [| discriminate].
    intros Hres. apply (IH m1 m'); [| exact Hres].
    now apply (load_line_ok E opt m confLine).
Qed.

Lemma table_ok_main_on E : table_ok E (main_on E).
Proof. constructor. Qed.

(** X5: every trick of the table that the configuration loop leaves
    has fields made of printable characters other than the apostrophe,
    the colon and the comment character, a script of at most 256
    characters, an account name of at most [LOGIN_NAME_MAX] characters,
    a mail address of at most 36 characters, and a mask below 2^32. *)
Theorem loaded_tricks_are_well_formed (E : env) (opt : opts_t)
  (configFile : list cstring) (m : main_t) (t : trick_t) :
  result (load_config E opt configFile) = Done m ->
  In t (trickHeap m) ->
  (clean (fileName t) = true /\ clean (script t) = true /\
   clean (userid t) = true /\ clean (mail t) = true) /\
  Z.of_nat (length (script t)) <= maxScriptLen /\
  Z.of_nat (length (userid t)) <= LOGIN_NAME_MAX E /\
  Z.of_nat (length (mail t)) <= maxEmailLen /\
  0 <= actions t < 2 ^ 32.
Proof.
  intros Hres Hin.
  pose proof (load_lines_ok E opt configFile (main_on E) m
                (table_ok_main_on E) Hres)
    as Hok.
  unfold table_ok in Hok. rewrite Forall_forall in Hok.
  destruct (Hok t Hin) as [H1 H2 H3 H4 H5].
  destruct H1 as (C1 & _); [lia |]. destruct H3 as (C3 & L3); [lia |].
  destruct H4 as (C4 & L4); [lia |]. destruct H5 as (C5 & L5); [lia |].
  repeat split; try assumption; apply H2; lia.
Qed.

Lemma loaded_tricks_are_well_formed_witness :
  let configFile :=
    [ln "# tricks"; ln "/tmp/inbox:256:/bin/echo 'hi':nobody:root";
     ln "/tmp/outbox:4294967552:/bin/true:nobody:ops@example.test"] in
  exists m t,
    result (load_config stub_machine opt_default configFile) = Done m /\
    trickHeap m = [t] /\
    clean (script t) = true /\ 0 <= actions t < 2 ^ 32.
Proof.
  intros configFile. eexists. eexists.
  split; [vm_compute; reflexivity |]. split; [reflexivity |].
  destruct (loaded_tricks_are_well_formed stub_machine opt_default configFile
              _ _ ltac:(vm_compute; reflexivity) (or_introl eq_refl))
    as ((_ & Hs & _) & _ & _ & _ & Ha).
  split; [exact Hs | exact Ha].
Defined.

(** X6: when the configuration loop has ended, [maxNameLen], from which
    the event buffer is sized, is at least the file name length that
    [pathconf] gave for the path of each trick of the table, and that
    length is positive. *)
Theorem event_buffer_covers_every_trick (E : env) (opt : opts_t)
  (configFile : list cstring) (m : main_t) (t : trick_t) :
  result (load_config E opt configFile) = Done m ->
  In t (trickHeap m) ->
  0 < pathconf_NAME_MAX E (fileName t) <= maxNameLen m.
Proof.
  intros Hres Hin.
  pose proof (load_lines_ok E opt configFile (main_on E) m
                (table_ok_main_on E) Hres)
    as Hok.
  unfold table_ok in Hok. rewrite Forall_forall in Hok.
  destruct (Hok t Hin) as [H1 _ _ _ _]. apply H1. lia.
Qed.

Lemma event_buffer_covers_every_trick_witness :
  let E :=
    {| getpid := 4242; clock := str "2011-02-15 12:00:00";
       LOGIN_NAME_MAX := 256;
       pathconf_NAME_MAX := fun p => 100 + Z.of_nat (length p);
       inotify_add_watch := fun n _ _ => Z.of_nat n + 1;
       errno_add_watch := fun _ => 0; strerror := fun _ => str "Success";
       popen_mail := true; mailTime := str "Tue Feb 15 12:00:00 2011";
       PATH_SENDMAIL := str "/usr/lib/sendmail";
       pony_script_NULL := true |} in
  let configFile :=
    [ln "/tmp/inbox/today:256:/bin/true:nobody:root";
     ln "/tmp:256:/bin/true:nobody:root"] in
  exists m,
    result (load_config E opt_default configFile) = Done m /\
    map fileName (trickHeap m) = [str "/tmp/inbox/today"; str "/tmp"] /\
    maxNameLen m = 116 /\
    Forall (fun t => 0 < pathconf_NAME_MAX E (fileName t) <= maxNameLen m)
           (trickHeap m).
Proof.
  intros E configFile. eexists.
  split; [vm_compute; reflexivity |]. split; [reflexivity |].
  split; [reflexivity |].
  apply Forall_forall. intros t Hin.
  apply (event_buffer_covers_every_trick E opt_default configFile);
    [vm_compute; reflexivity | exact Hin].
Defined.

(** ** What the loop counts *)

Lemma accept_line_steps E opt m m' :
  result (accept_line E opt m) = Done m' ->
  lineNo m' = lineNo m /\
  (trickHeap m' = trickHeap m /\ trickCount m' = trickCount m /\
   (watches m <= watches m' <= S (watches m))%nat \/
   (exists t, trickHeap m' = trickHeap m ++ [t]) /\
   trickCount m' = S (trickCount m) /\ watches m' = S (watches m)).
Proof.
  unfold accept_line, truthy.
  destruct (negb (fieldNo m =? 0)%nat);
    [| intros [= <-]; split; [reflexivity | left; repeat split; lia]].
  destruct (negb (badPony m =? 0) || (fieldNo m <? 5)%nat).
  - rewrite result_bind, result_sprintf_logx. intros [= <-].
    split; [reflexivity | left; repeat split; lia].
  - unfold add_trick. cbv zeta.
    destruct (_ <? 0).
    + rewrite result_bind, result_sprintf_logx. cbn [Z.eqb].
      rewrite result_bind, result_sprintf_logx. cbn [Z.eqb].
      intros [= <-]. cbn.
      split; [reflexivity | left; repeat split; lia].
    + unfold when. destruct (negb _).
      * rewrite result_bind, result_sprintf_logx. discriminate.
      * rewrite bind_ret_l. destruct (truthy (verbose opt)).
        -- rewrite result_bind, result_sprintf_logx. cbn [Z.eqb].
           intros [= <-]. cbn.
           split; [reflexivity | right]. split; [eexists; reflexivity |].
           split; reflexivity.
        -- rewrite bind_ret_l. intros [= <-]. cbn.
           split; [reflexivity | right]. split; [eexists; reflexivity |].
           split; reflexivity.
Qed.

Lemma load_line_steps E opt m confLine m' :
  result (load_line E opt m confLine) = Done m' ->
  lineNo m' = S (lineNo m) /\
  (trickHeap m' = trickHeap m /\ trickCount m' = trickCount m /\
   (watches m <= watches m' <= S (watches m))%nat \/
   (exists t, trickHeap m' = trickHeap m ++ [t]) /\
   trickCount m' = S (trickCount m) /\ watches m' = S (watches m)).
Proof.
  intros Hres.
  destruct (scan_record_frame E opt confLine confLine 0 (line_start m))
    as (mg & Hscan & Fg & _).
  rewrite (load_line_eq E opt m confLine mg Hscan) in Hres.
  pose proof (frame_trickHeap _ _ Fg) as Hh.
  pose proof (frame_trickCount _ _ Fg) as Hc.
  pose proof (frame_watches _ _ Fg) as Hw.
  pose proof (frame_lineNo _ _ Fg) as Hl.
  cbn in Hh, Hc, Hw, Hl.
  destruct (accept_line_steps E opt mg m' Hres) as (Hl' & Hcase).
  rewrite Hh, Hc, Hw in Hcase. split; [congruence | exact Hcase].
Qed.

(** X7: the loop counts every line that it reads, stores at most one
    trick per line, behind those that the table holds already, and asks
    the kernel for at most one watch per line and for one per trick
    that it stores. *)
Theorem loop_counts_lines_and_tricks (E : env) (opt : opts_t)
  (configFile : list cstring) :
  forall m m',
    result (load_lines E opt m configFile) = Done m' ->
    lineNo m' = (lineNo m + length configFile)%nat /\
    exists new,
      trickHeap m' = trickHeap m ++ new /\
      trickCount m' = (trickCount m + length new)%nat /\
      (watches m + length new <= watches m')%nat /\
      (watches m' <= watches m + length configFile)%nat.
Proof.
  induction configFile as [| confLine more IH]; intros m m'.
  - intros [= <-]. split; [cbn; lia |]. exists [].
    rewrite app_nil_r. cbn. repeat split; lia.
  - cbn [load_lines]. rewrite result_bind.
    destruct (result (load_line E opt m confLine)) as [m1 | x] eqn:H1;
      [| discriminate].
    intros Hres. destruct (IH m1 m' Hres) as (Hl & new & Hh & Hc & Hw1 & Hw2).
    destruct (load_line_steps E opt m confLine m1 H1) as (Hl1 & Hcase).
    split; [cbn [length]; lia |].
    destruct Hcase as [(Hh1 & Hc1 & Hw) | ((t & Hh1) & Hc1 & Hw)].
    + exists new. rewrite Hh, Hh1. cbn [length]. repeat split; lia.
    + exists (t :: new). rewrite Hh, Hh1, <- app_assoc. cbn [length app].
      repeat split; lia.
Qed.

Lemma loop_counts_lines_and_tricks_witness :
  let configFile :=
    [ln "# tricks"; ln "/tmp/inbox:256:/bin/true:nobody:root";
     ln "/tmp/outbox:0:/bin/true:nobody:root"; ln "/tmp/inbox:256"] in
  exists m,
    result (load_lines
              (linux_machine [(str "/tmp/inbox", 256); (str "/tmp/outbox", 0)])
              opt_default main0 configFile) = Done m /\
    lineNo m = 4%nat /\ trickCount m = 1%nat /\ watches m = 2%nat.
Proof.
  intros configFile. eexists.
  split; [vm_compute; reflexivity |].
  destruct (loop_counts_lines_and_tricks
              (linux_machine [(str "/tmp/inbox", 256); (str "/tmp/outbox", 0)])
              opt_default configFile
              main0 _ ltac:(vm_compute; reflexivity)) as (Hl & _).
  split; [exact Hl |]. split; reflexivity.
Defined.

(** ** The trick of an event *)

(** X8: in the table that the configuration loop leaves, the trick of
    an event is defined exactly for the watch descriptors from 1 to
    [trickCount], and it is the trick that holds the descriptor of the
    event.  The event that reports an overflow of the queue, whose
    descriptor is -1, has none. *)
Theorem event_trick_lookup (E : env) (opt : opts_t)
  (configFile : list cstring) (m : main_t) (event : event_t) :
  result (load_config E opt configFile) = Done m ->
  (1 <= wd event <= Z.of_nat (trickCount m) ->
   exists t, trick_of m event = Some t /\ In t (trickHeap m) /\
             watchHandle t = wd event) /\
  (wd event < 1 \/ Z.of_nat (trickCount m) < wd event ->
   trick_of m event = None).
Proof.
  intros Hres.
  pose proof (load_lines_inv E opt configFile (main_on E)
                (loader_inv_main_on E)) as H.
  unfold done_or_corrupt in H. fold (load_config E opt configFile) in H.
  rewrite Hres in H. destruct H as (Hidx & _).
  destruct (heap_indexed_nth m Hidx) as (Hlen & Hnth).
  unfold trick_of. split.
  - intros (Hlo & Hhi).
    destruct (Z.ltb_spec (wd event) 1) as [Hlt | _]; [lia |].
    destruct (nth_error (trickHeap m) (Z.to_nat (wd event - 1))) as [t |] eqn:Hn.
    + exists t. split; [reflexivity |].
      split; [eapply nth_error_In; exact Hn |].
      rewrite (Hnth _ _ Hn). lia.
    + apply nth_error_None in Hn. lia.
  - intros [Hlo | Hhi].
    + destruct (Z.ltb_spec (wd event) 1) as [_ | Hge]; [reflexivity | lia].
    + destruct (Z.ltb_spec (wd event) 1) as [_ | Hge]; [reflexivity |].
      apply nth_error_None. lia.
Qed.

Lemma event_trick_lookup_witness :
  let configFile :=
    [ln "/tmp/inbox:256:/bin/true:nobody:root";
     ln "/tmp/outbox:512:/bin/false:nobody:root"] in
  let created :=
    {| wd := 2; mask := 512; cookie := 0; len := 16; name := str "report" |} in
  let overflow :=
    {| wd := -1; mask := 16384; cookie := 0; len := 0; name := [] |} in
  exists m,
    result (load_config stub_machine opt_default configFile) = Done m /\
    (exists t, trick_of m created = Some t /\ script t = str "/bin/false") /\
    trick_of m overflow = None.
Proof.
  intros configFile created overflow. eexists.
  split; [vm_compute; reflexivity |].
  split; [eexists; split; reflexivity |].
  destruct (event_trick_lookup stub_machine opt_default configFile _ overflow
              ltac:(vm_compute; reflexivity)) as (_ & Hnone).
  apply Hnone. left. cbn. lia.
Defined.

(** ** The options *)

Lemma last_default_irrelevant {A} (l : list A) :
  forall (a d d' : A), last (a :: l) d = last (a :: l) d'.
Proof.
  induction l as [| b l IH]; intros a d d'; [reflexivity |].
  change (last (b :: l) d = last (b :: l) d'). apply IH.
Qed.

Lemma last_app_default {A} (xs ys : list A) (d : A) :
  last (xs ++ ys) d = last ys (last xs d).
Proof.
  revert d. induction xs as [| x xs IH]; intros d; [reflexivity |].
  destruct xs as [| x' xs].
  - cbn [app]. destruct ys as [| y ys]; [reflexivity |].
    change (last (y :: ys) d = last (y :: ys) x).
    apply last_default_irrelevant.
  - change (last ((x' :: xs) ++ ys) d = last ys (last (x' :: xs) d)).
    apply IH.
Qed.

Lemma last_copied_app (xs ys : list cstring) (d : cstring) :
  last_copied (xs ++ ys) d = last_copied ys (last_copied xs d).
Proof. unfold last_copied. now rewrite map_app, last_app_default. Qed.

Ltac turn_now :=
  constructor;
  cbn [daemon verbose log2file syslog sloglev config logfile pidfile
       set_daemon set_verbose set_log2file set_syslog set_sloglev
       set_config set_logfile set_pidfile];
  unfold given, args_of, last_copied, copies_fit;
  cbn [existsb flat_map app orb andb Ascii.eqb Bool.eqb map last forallb];
  rewrite ?c_str_strcpy, ?strcpy_capacity, ?strcpy_in_bounds,
    ?andb_true_r;
  try reflexivity; try lia.

Lemma gig_opt_turned (opt : opts_t) (g : getopt_t) (opt' : opts_t) :
  result (gig_opt opt g) = Done opt' -> turned opt g opt'.
Proof.
  destruct g as [o optarg | optopt | optopt]; cbn [gig_opt].
  - destruct (Ascii.eqb_spec o "d") as [-> | _].
    { intros [= <-]. turn_now. }
    destruct (Ascii.eqb_spec o "V") as [-> | _]; [discriminate |].
    destruct (Ascii.eqb_spec o "v") as [-> | _].
    { intros [= <-]. turn_now. }
    destruct (Ascii.eqb_spec o "c") as [-> | _].
    { destruct (MAX_CONFIG_NAME_LEN <? strlen optarg)%nat; [discriminate |].
      intros [= <-]. turn_now. }
    destruct (Ascii.eqb_spec o "l") as [-> | _].
    { destruct (MAX_LOG_NAME_LEN <? strlen optarg)%nat; [discriminate |].
      intros [= <-]. turn_now. }
    destruct (Ascii.eqb_spec o "p") as [-> | _].
    { destruct (MAX_PID_NAME_LEN <? strlen optarg)%nat; [discriminate |].
      intros [= <-]. turn_now. }
    destruct (Ascii.eqb_spec o "s") as [-> | _]; [| discriminate].
    match goal with
    | |- context [if (?lev >? 7) || (?lev <? 0) then _ else _] =>
        destruct (Z.gtb_spec lev 7); destruct (Z.ltb_spec lev 0);
        cbn [orb]; try discriminate
    end.
    intros [= <-]. turn_now.
  - destruct (Ascii.eqb optopt "s").
    + intros [= <-]. turn_now.
    + rewrite result_bind. cbn. intros [= <-]. turn_now.
  - discriminate.
Qed.

Lemma given_cons (o : ascii) (g : getopt_t) (gs : list getopt_t) :
  given o (g :: gs) = given o [g] || given o gs.
Proof. unfold given. cbn [existsb]. now rewrite orb_false_r. Qed.

Lemma args_of_cons (o : ascii) (g : getopt_t) (gs : list getopt_t) :
  args_of o (g :: gs) = args_of o [g] ++ args_of o gs.
Proof. unfold args_of. cbn [flat_map]. now rewrite app_nil_r. Qed.

Lemma copies_fit_app (cap : nat) (xs ys : list cstring) :
  copies_fit cap (xs ++ ys) = copies_fit cap xs && copies_fit cap ys.
Proof. apply forallb_app. Qed.

Lemma gig_opts_loop_looped (gs : list getopt_t) :
  forall opt opt',
    result (gig_opts_loop opt gs) = Done opt' -> looped opt gs opt'.
Proof.
  induction gs as [| g gs IH]; intros opt opt'.
  - intros [= <-]. constructor; cbn; try reflexivity; try tauto;
      now rewrite andb_true_r.
  - cbn [gig_opts_loop]. rewrite result_bind.
    destruct (result (gig_opt opt g)) as [opt1 | s] eqn:H1; [| discriminate].
    intros Hres. apply gig_opt_turned in H1. apply IH in Hres.
    destruct H1 as [T1 T2 T3 T4 T5 T6 T7 T8 T9 T10 T11 T12 T13 T14].
    destruct Hres as [L1 L2 L3 L4 L5 L6 L7 L8 L9 L10 L11 L12 L13 L14].
    constructor;
      rewrite ?(given_cons _ g gs), ?(args_of_cons _ g gs),
        ?last_copied_app, ?copies_fit_app.
    + rewrite L1, T1. destruct (given "d" [g]), (given "d" gs); reflexivity.
    + rewrite L2, T2. destruct (given "v" [g]), (given "v" gs); reflexivity.
    + rewrite L3, T3.
      destruct (given "d" [g]), (given "d" gs), (given "l" [g]),
        (given "l" gs); reflexivity.
    + rewrite L4, T4. destruct (given "s" [g]), (given "s" gs); reflexivity.
    + intros H. apply L5, T5, H.
    + now rewrite L6, T6.
    + now rewrite L7, T7.
    + now rewrite L8, T8.
    + congruence.
    + congruence.
    + congruence.
    + now rewrite L12, T12, T9, andb_assoc.
    + now rewrite L13, T13, T10, andb_assoc.
    + now rewrite L14, T14, T11, andb_assoc.
Qed.

(** What follows the loop. *)
Lemma gig_opts_operands_done (opt : opts_t) (operands : list cstring)
  (opt' : opts_t) :
  result (gig_opts_operands opt operands) = Done opt' ->
  (length operands <= 1)%nat /\
  opt' = match operands with
         | [] => opt
         | a :: _ => set_config (CArray.strcpy (config opt) a) opt
         end.
Proof.
  destruct operands as [| a [| b more]]; cbn [gig_opts_operands].
  - intros [= <-]. split; [cbn; lia | reflexivity].
  - rewrite result_bind.
    destruct (MAX_CONFIG_NAME_LEN <? strlen a)%nat;
      [rewrite result_bind; discriminate |].
    cbn. intros [= <-]. split; [lia | reflexivity].
  - rewrite result_bind.
    destruct (MAX_CONFIG_NAME_LEN <? strlen a)%nat;
      [rewrite result_bind; discriminate |].
    cbn. discriminate.
Qed.

Lemma gig_opts_done (argv : list cstring) (opt : opts_t) :
  result (gig_opts argv) = Done opt ->
  exists opt1,
    looped opt_default (fst (getopt_all (tl argv))) opt1 /\
    (length (snd (getopt_all (tl argv))) <= 1)%nat /\
    opt = match snd (getopt_all (tl argv)) with
          | [] => opt1
          | a :: _ => set_config (CArray.strcpy (config opt1) a) opt1
          end.
Proof.
  unfold gig_opts. destruct (getopt_all (tl argv)) as [gs operands].
  cbn [fst snd]. rewrite result_bind.
  destruct (result (gig_opts_loop opt_default gs)) as [opt1 | s] eqn:H1;
    [| discriminate].
  intros Hres. exists opt1. split; [now apply gig_opts_loop_looped |].
  now apply gig_opts_operands_done.
Qed.

(** X9: when [gig_opts] returns and no copy has gone past the end of
    the array it was made into, the configuration file is the operand
    if there is one, else the argument of the last [-c], else the
    default; the log file and the pid file are the arguments of the
    last [-l] and of the last [-p], else their defaults; each as a
    reader of the array finds it.  The three arrays lie side by side in
    the struct: a copy that overruns one of them lands in the next, and
    what is read then is not told here. *)
Theorem option_paths_follow_command_line (argv : list cstring) (opt : opts_t) :
  result (gig_opts argv) = Done opt ->
  CArray.in_bounds (config opt) = true ->
  CArray.in_bounds (logfile opt) = true ->
  CArray.in_bounds (pidfile opt) = true ->
  let gs := fst (getopt_all (tl argv)) in
  let operands := snd (getopt_all (tl argv)) in
  CArray.c_str (config opt) =
  last_copied (args_of "c" gs ++ operands) DEFAULT_CONFIG_FILE /\
  CArray.c_str (logfile opt) = last_copied (args_of "l" gs) DEFAULT_LOG_FILE /\
  CArray.c_str (pidfile opt) = last_copied (args_of "p" gs) DEFAULT_PID_FILE.
Proof.
  intros Hres _ _ _ gs operands.
  destruct (gig_opts_done argv opt Hres) as (opt1 & L & Hn & ->).
  fold gs in L. fold operands in Hn |- *.
  pose proof (loop_config _ _ _ L) as Hc.
  pose proof (loop_logfile _ _ _ L) as Hl.
  pose proof (loop_pidfile _ _ _ L) as Hp.
  change (CArray.c_str (config opt_default)) with DEFAULT_CONFIG_FILE in Hc.
  change (CArray.c_str (logfile opt_default)) with DEFAULT_LOG_FILE in Hl.
  change (CArray.c_str (pidfile opt_default)) with DEFAULT_PID_FILE in Hp.
  rewrite last_copied_app, <- Hc.
  destruct operands as [| a [| b more]]; [| | cbn in Hn; lia].
  - repeat split; assumption.
  - cbn [config logfile pidfile set_config]. rewrite c_str_strcpy.
    repeat split; assumption.
Qed.

Lemma option_paths_follow_command_line_witness :
  let argv :=
    [str "gidget"; str "-vc"; str "/etc/first.conf"; str "-l/tmp/gidget.log";
     str "-c"; str "/etc/second.conf"] in
  exists opt,
    gig_opts argv = ([], Done opt) /\
    CArray.c_str (config opt) = str "/etc/second.conf" /\
    CArray.c_str (logfile opt) = str "/tmp/gidget.log" /\
    CArray.c_str (pidfile opt) = str "/var/run/gidget.pid".
Proof.
  intros argv. eexists. split; [vm_compute; reflexivity |].
  destruct (option_paths_follow_command_line argv _
              ltac:(vm_compute; reflexivity) ltac:(vm_compute; reflexivity)
              ltac:(vm_compute; reflexivity) ltac:(vm_compute; reflexivity))
    as (Hc & Hl & Hp).
  split; [exact Hc |]. split; [exact Hl | exact Hp].
Defined.

(** X10: when [gig_opts] returns, [daemon], [verbose] and [syslog] are 1
    exactly when [-d], [-v] and [-s] with its argument were given, and 0
    otherwise; [log2file] is 1 exactly when [-d] or [-l] was given; the
    syslog level lies between 0 and 7; and the command line holds at
    most one operand. *)
Theorem option_flags_follow_command_line (argv : list cstring) (opt : opts_t) :
  result (gig_opts argv) = Done opt ->
  let gs := fst (getopt_all (tl argv)) in
  daemon opt = (if given "d" gs then 1 else 0) /\
  verbose opt = (if given "v" gs then 1 else 0) /\
  log2file opt = (if given "d" gs || given "l" gs then 1 else 0) /\
  syslog opt = (if given "s" gs then 1 else 0) /\
  0 <= sloglev opt <= 7 /\
  (length (snd (getopt_all (tl argv))) <= 1)%nat.
Proof.
  intros Hres gs.
  destruct (gig_opts_done argv opt Hres) as (opt1 & L & Hn & ->).
  fold gs in L.
  destruct L as [L1 L2 L3 L4 L5 _ _ _ _ _ _ _ _ _].
  assert (H0 : 0 <= sloglev opt_default <= 7) by (cbn; lia).
  specialize (L5 H0).
  destruct (snd (getopt_all (tl argv))) as [| a more];
    cbn [daemon verbose log2file syslog sloglev set_config];
    repeat split; try assumption; lia.
Qed.

Lemma option_flags_follow_command_line_witness :
  let argv := [str "gidget"; str "-d"; str "-s"; str "5"; str "/etc/g.conf"] in
  exists opt,
    gig_opts argv = ([], Done opt) /\
    daemon opt = 1 /\ verbose opt = 0 /\ log2file opt = 1 /\
    syslog opt = 1 /\ sloglev opt = 5.
Proof.
  intros argv. eexists. split; [vm_compute; reflexivity |].
  destruct (option_flags_follow_command_line argv _
              ltac:(vm_compute; reflexivity)) as (Hd & Hv & Hl & Hs & _).
  split; [exact Hd |]. split; [exact Hv |]. split; [exact Hl |].
  split; [exact Hs | reflexivity].
Defined.

(** X11: when [gig_opts] returns, the array of the configuration file
    has been written inside its bounds only exactly when every argument
    of [-c], and the operand, is shorter than the array; the same holds
    for the arrays of the log file and of the pid file with the
    arguments of [-l] and of [-p]. *)
Theorem option_arrays_in_bounds (argv : list cstring) (opt : opts_t) :
  result (gig_opts argv) = Done opt ->
  let gs := fst (getopt_all (tl argv)) in
  let operands := snd (getopt_all (tl argv)) in
  CArray.in_bounds (config opt) =
  copies_fit MAX_CONFIG_NAME_LEN (args_of "c" gs ++ operands) /\
  CArray.in_bounds (logfile opt) = copies_fit MAX_LOG_NAME_LEN (args_of "l" gs) /\
  CArray.in_bounds (pidfile opt) = copies_fit MAX_PID_NAME_LEN (args_of "p" gs).
Proof.
  intros Hres gs operands.
  destruct (gig_opts_done argv opt Hres) as (opt1 & L & Hn & ->).
  fold gs in L. fold operands in Hn |- *.
  pose proof (loop_config_in _ _ _ L) as Hc.
  pose proof (loop_logfile_in _ _ _ L) as Hl.
  pose proof (loop_pidfile_in _ _ _ L) as Hp.
  pose proof (loop_config_cap _ _ _ L) as Hcap.
  change (CArray.in_bounds (config opt_default)) with true in Hc.
  change (CArray.in_bounds (logfile opt_default)) with true in Hl.
  change (CArray.in_bounds (pidfile opt_default)) with true in Hp.
  change (CArray.capacity (config opt_default)) with MAX_CONFIG_NAME_LEN
    in Hc, Hcap.
  change (CArray.capacity (logfile opt_default)) with MAX_LOG_NAME_LEN in Hl.
  change (CArray.capacity (pidfile opt_default)) with MAX_PID_NAME_LEN in Hp.
  cbn [andb] in Hc, Hl, Hp. rewrite copies_fit_app, <- Hc.
  destruct operands as [| a [| b more]]; [| | cbn in Hn; lia].
  - change (copies_fit MAX_CONFIG_NAME_LEN []) with true.
    rewrite andb_true_r. repeat split; assumption.
  - cbn [config logfile pidfile set_config].
    rewrite strcpy_in_bounds, Hcap.
    change (copies_fit MAX_CONFIG_NAME_LEN [a])
      with ((length (until_NUL a) <? MAX_CONFIG_NAME_LEN)%nat && true).
    rewrite andb_true_r. repeat split; assumption.
Qed.

Lemma option_arrays_in_bounds_witness :
  let argv := [str "gidget"; str "-p"; repeat "x"%char 128; str "-c/etc/g.conf"] in
  exists opt,
    gig_opts argv = ([], Done opt) /\
    CArray.in_bounds (config opt) = true /\
    CArray.in_bounds (logfile opt) = true /\
    CArray.in_bounds (pidfile opt) = false.
Proof.
  intros argv. eexists. split; [vm_compute; reflexivity |].
  destruct (option_arrays_in_bounds argv _ ltac:(vm_compute; reflexivity))
    as (Hc & Hl & Hp).
  split; [rewrite Hc; reflexivity |].
  split; [rewrite Hl; reflexivity | rewrite Hp; reflexivity].
Defined.

(** ** Leaving the program from the options *)

Lemma gig_opt_exit (opt : opts_t) (g : getopt_t) (s : Z) :
  result (gig_opt opt g) = Exit s ->
  exists fh text,
    trace (gig_opt opt g) = [Print fh text] /\ exit_said s fh text.
Proof.
  unfold exit_said, too_long_messages.
  destruct g as [o optarg | optopt | optopt]; cbn [gig_opt].
  - destruct (Ascii.eqb o "d"); [discriminate |].
    destruct (Ascii.eqb o "V").
    { intros [= <-]. exists stdout, version_banner.
      split; [reflexivity | left; repeat split]. }
    destruct (Ascii.eqb o "v"); [discriminate |].
    destruct (Ascii.eqb o "c").
    { destruct (MAX_CONFIG_NAME_LEN <? strlen optarg)%nat; [| discriminate].
      intros [= <-]. eexists. eexists. split; [reflexivity |].
      right. split; [reflexivity |]. right. split; [reflexivity |].
      cbn [In]. auto. }
    destruct (Ascii.eqb o "l").
    { destruct (MAX_LOG_NAME_LEN <? strlen optarg)%nat; [| discriminate].
      intros [= <-]. eexists. eexists. split; [reflexivity |].
      right. split; [reflexivity |]. right. split; [reflexivity |].
      cbn [In]. auto. }
    destruct (Ascii.eqb o "p").
    { destruct (MAX_PID_NAME_LEN <? strlen optarg)%nat; [| discriminate].
      intros [= <-]. eexists. eexists. split; [reflexivity |].
      right. split; [reflexivity |]. right. split; [reflexivity |].
      cbn [In]. auto. }
    destruct (Ascii.eqb o "s").
    { match goal with
      | |- context [if ?b then _ else _] => destruct b; [| discriminate]
      end.
      intros [= <-]. eexists. eexists. split; [reflexivity |].
      right. split; [reflexivity |]. now left. }
    intros [= <-]. eexists. eexists. split; [reflexivity |].
    right. split; [reflexivity |]. now left.
  - destruct (Ascii.eqb optopt "s"); [discriminate |].
    rewrite result_bind. cbn. discriminate.
  - intros [= <-]. eexists. eexists. split; [reflexivity |].
    right. split; [reflexivity |]. now left.
Qed.

Lemma gig_opts_loop_exit (gs : list getopt_t) :
  forall opt s,
    result (gig_opts_loop opt gs) = Exit s ->
    exists before fh text,
      trace (gig_opts_loop opt gs) = before ++ [Print fh text] /\
      exit_said s fh text.
Proof.
  induction gs as [| g gs IH]; intros opt s; [discriminate |].
  cbn [gig_opts_loop]. rewrite result_bind, trace_bind.
  destruct (result (gig_opt opt g)) as [opt1 | s1] eqn:H1.
  - intros Hres. destruct (IH opt1 s Hres) as (before & fh & text & Ht & Hs).
    exists (trace (gig_opt opt g) ++ before), fh, text.
    split; [now rewrite Ht, app_assoc | exact Hs].
  - intros [= <-]. destruct (gig_opt_exit opt g s1 H1) as (fh & text & Ht & Hs).
    exists [], fh, text. split; [exact Ht | exact Hs].
Qed.

(** X12: [gig_opts] leaves the program with status 0 or 1 only, and
    right after it has printed: with 0 after the version on [stdout],
    with 1 after the usage text or after the complaint on [stderr] about
    a file name that is too long. *)
Theorem options_exit_after_a_message (argv : list cstring) (s : Z) :
  result (gig_opts argv) = Exit s ->
  exists before fh text,
    trace (gig_opts argv) = before ++ [Print fh text] /\
    exit_said s fh text.
Proof.
  unfold gig_opts. destruct (getopt_all (tl argv)) as [gs operands].
  rewrite result_bind, trace_bind.
  destruct (result (gig_opts_loop opt_default gs)) as [opt1 | s1] eqn:H1.
  - destruct operands as [| a more]; cbn [gig_opts_operands]; [discriminate |].
    rewrite result_bind, trace_bind.
    destruct (MAX_CONFIG_NAME_LEN <? strlen a)%nat.
    + cbn. intros [= <-].
      exists (trace (gig_opts_loop opt_default gs)), stderr,
        (str "configuration file name too long!" ++ [LF]).
      split; [reflexivity |]. right. split; [reflexivity |]. right.
      split; [reflexivity |]. cbn. auto.
    + cbn [result ret snd]. destruct more as [| b more]; [discriminate |].
      cbn. intros [= <-].
      exists (trace (gig_opts_loop opt_default gs)), stderr, usage_text.
      split; [reflexivity |]. right. split; [reflexivity |]. now left.
  - intros [= <-]. now apply gig_opts_loop_exit.
Qed.

Lemma options_exit_after_a_message_witness :
  let asked := [str "gidget"; str "-v"; str "-V"; str "-s"; str "9"] in
  let wrong := [str "gidget"; str "-s"; str "9"; str "-V"] in
  gig_opts asked = ([Print stdout version_banner], Exit 0) /\
  gig_opts wrong = ([Print stderr usage_text], Exit 1) /\
  exists before fh text,
    trace (gig_opts wrong) = before ++ [Print fh text] /\
    exit_said 1 fh text.
Proof.
  intros asked wrong. split; [reflexivity |]. split; [reflexivity |].
  apply (options_exit_after_a_message wrong 1). reflexivity.
Defined.

(** ** The end of the assembled name *)

Lemma copy_from_load_above (src : cstring) :
  forall i a j,
    (snd (CArray.copy_from src i a) < j)%nat ->
    CArray.load (fst (CArray.copy_from src i a)) j = CArray.load a j.
Proof.
  induction src as [| c src IH]; intros i a j; cbn [CArray.copy_from].
  - cbn [fst snd]. intros Hj.
    unfold CArray.load, CArray.store. cbn [CArray.stores CArray.lookup].
    destruct (Nat.eqb_spec j i); [lia | reflexivity].
  - destruct (Ascii.eqb c NUL).
    + cbn [fst snd]. intros Hj.
      unfold CArray.load, CArray.store. cbn [CArray.stores CArray.lookup].
      destruct (Nat.eqb_spec j i); [lia | reflexivity].
    + intros Hj. rewrite IH by exact Hj.
      assert (Hi : (i < j)%nat).
      { pose proof (copy_from_index src (S i) (CArray.store i c a)). lia. }
      unfold CArray.load, CArray.store. cbn [CArray.stores CArray.lookup].
      destruct (Nat.eqb_spec j i); [lia | reflexivity].
Qed.

Lemma copy_from_terminator (src : cstring) :
  forall i a,
    CArray.load (fst (CArray.copy_from src i a))
                (snd (CArray.copy_from src i a)) = Some NUL.
Proof.
  induction src as [| c src IH]; intros i a; cbn [CArray.copy_from].
  - apply load_store_same.
  - destruct (Ascii.eqb c NUL); [apply load_store_same | apply IH].
Qed.

Lemma last_cons {A} (c : A) (l : list A) (d : A) :
  last (c :: l) d = last l c.
Proof.
  destruct l as [| b l]; [reflexivity |].
  change (last (b :: l) d = last (b :: l) c). apply last_default_irrelevant.
Qed.

(** The loop over the name leaves a terminator at [terminus] exactly
    when the last character that it has read is an apostrophe; [d]
    stands for the character read before [rest]. *)
Lemma munge_name_end E opt M len (rest : list ascii) :
  forall i a t d r,
    CArray.load a t = (if Ascii.eqb d apostrophe then Some NUL else None) ->
    (forall j, (t < j)%nat -> CArray.load a j = None) ->
    result (munge_name E opt M len rest i a t) = Done r ->
    CArray.load (fst r) (snd r) =
    (if Ascii.eqb (last (name_read len rest i) d) apostrophe
     then Some NUL else None) /\
    (forall j, (snd r < j)%nat -> CArray.load (fst r) j = None).
Proof.
  induction rest as [| c rest IH]; intros i a t d r Ht Habove Hr.
  - cbn in Hr. injection Hr as <-. cbn [name_read last fst snd].
    split; assumption.
  - cbn [munge_name name_read] in *.
    destruct ((i <=? len)%nat && negb (Ascii.eqb c NUL)).
    + rewrite last_cons.
      destruct (Ascii.eqb c apostrophe) eqn:Hc.
      * pose proof (copy_from_terminator mungeChar t a) as Hterm.
        pose proof (copy_from_load_above mungeChar t a) as Habove'.
        pose proof (copy_from_index mungeChar t a) as Hidx.
        destruct (CArray.copy_from mungeChar t a) as [a' t'].
        cbn [fst snd] in *.
        rewrite result_bind in Hr. unfold when in Hr.
        destruct (Z.of_nat t' >? M);
          [rewrite result_logx in Hr; discriminate Hr |].
        cbn [result ret snd] in Hr.
        apply (IH (S i) a' t' c r); [now rewrite Hc | | exact Hr].
        intros j Hj. rewrite Habove' by exact Hj. apply Habove. lia.
      * rewrite result_bind in Hr. unfold when in Hr.
        destruct (Z.of_nat (S t) >? M);
          [rewrite result_logx in Hr; discriminate Hr |].
        cbn [result ret snd] in Hr.
        apply (IH (S i) (CArray.store t c a) (S t) c r); [| | exact Hr].
        -- rewrite Hc. unfold CArray.load, CArray.store.
           cbn [CArray.stores CArray.lookup].
           destruct (Nat.eqb_spec (S t) t); [lia |]. apply Habove. lia.
        -- intros j Hj. unfold CArray.load, CArray.store.
           cbn [CArray.stores CArray.lookup].
           destruct (Nat.eqb_spec j t); [lia |]. apply Habove. lia.
    + cbn in Hr. injection Hr as <-. cbn [last fst snd]. split; assumption.
Qed.

(** What the assembly leaves at [terminus] and behind it. *)
Lemma assemble_end (E : env) (opt : opts_t) (M : Z)
  (pony : trick_t) (event : event_t) (r : CArray.t * nat) :
  result (assemble E opt M pony event) = Done r ->
  CArray.load (fst r) (snd r) =
  (if Ascii.eqb (last (name_read (len event) (name event) 0) NUL) apostrophe
   then Some NUL else None) /\
  (forall j, (snd r < j)%nat -> CArray.load (fst r) j = None).
Proof.
  unfold assemble. intros Hr.
  pose proof (copy_from_load_above (fileName pony) 0
                (CArray.fresh (Z.to_nat M))) as Habove.
  destruct (CArray.copy_from (fileName pony) 0 (CArray.fresh (Z.to_nat M)))
    as [a t].
  cbn [fst snd] in Habove.
  assert (Hnone : forall j, (t < j)%nat ->
                            CArray.load (CArray.store t slash a) j = None).
  { intros j Hj. unfold CArray.load, CArray.store.
    cbn [CArray.stores CArray.lookup].
    destruct (Nat.eqb_spec j t); [lia |].
    change (CArray.load a j = None). now rewrite Habove. }
  apply (munge_name_end E opt M (len event) (name event) 0
           (CArray.store t slash a) (S t) NUL r); [| | exact Hr].
  - change (Ascii.eqb NUL apostrophe) with false. apply Hnone. lia.
  - intros j Hj. apply Hnone. lia.
Qed.

(** X13: when the assembly of the name of the triggering object gets to
    its end, nothing has been stored behind the name, and at [terminus],
    right behind the name, a terminator has been stored only when the
    last character read of the name of the event is an apostrophe:
    otherwise the cell is as it was when the array was allocated. *)
Theorem assembled_name_terminator (E : env) (opt : opts_t) (M : Z)
  (pony : trick_t) (event : event_t) (r : CArray.t * nat) :
  result (assemble E opt M pony event) = Done r ->
  CArray.load (fst r) (snd r) =
  (if Ascii.eqb (last (name_read (len event) (name event) 0) NUL) apostrophe
   then Some NUL else None) /\
  (forall j, (snd r < j)%nat -> CArray.load (fst r) j = None).
Proof. apply assemble_end. Qed.

Lemma assembled_name_terminator_witness :
  let pony :=
    {| watchHandle := 1; actions := 256; fileName := str "/tmp/inbox";
       script := str "/bin/true"; userid := str "nobody"; mail := str "root" |} in
  let plain_name :=
    {| wd := 1; mask := 256; cookie := 0; len := 16;
       name := str "report.txt" ++ repeat NUL 6 |} in
  let quoted :=
    {| wd := 1; mask := 256; cookie := 0; len := 16;
       name := str "the boss'" ++ repeat NUL 7 |} in
  (exists r,
     assemble stub_machine opt_default 255 pony plain_name = ([], Done r) /\
     assembled r = str "/tmp/inbox/report.txt" /\
     CArray.load (fst r) (snd r) = None) /\
  (exists r,
     assemble stub_machine opt_default 255 pony quoted = ([], Done r) /\
     assembled r = str "/tmp/inbox/the boss%27" /\
     CArray.load (fst r) (snd r) = Some NUL).
Proof.
  intros pony plain_name quoted. split.
  - eexists. split; [vm_compute; reflexivity |]. split; [reflexivity |].
    destruct (assembled_name_terminator stub_machine opt_default 255 pony
                plain_name _ ltac:(vm_compute; reflexivity)) as (H & _).
    exact H.
  - eexists. split; [vm_compute; reflexivity |]. split; [reflexivity |].
    destruct (assembled_name_terminator stub_machine opt_default 255 pony
                quoted _ ltac:(vm_compute; reflexivity)) as (H & _).
    exact H.
Defined.

(** ** The command *)

Lemma read_from_length (a : CArray.t) :
  forall fuel i, (length (CArray.read_from a i fuel) <= fuel)%nat.
Proof.
  induction fuel as [| fuel IH]; intros i; cbn [CArray.read_from].
  - cbn. lia.
  - destruct (CArray.load a i) as [c |]; [| cbn; lia].
    destruct (Ascii.eqb c NUL); [cbn; lia |].
    cbn [length]. pose proof (IH (S i)). lia.
Qed.

(** Reading goes the same way in an array that agrees on the cells
    read, and goes on behind them. *)
Lemma read_from_agree (a b : CArray.t) :
  forall fuel i fuel',
    (forall k, (i <= k < i + length (CArray.read_from a i fuel))%nat ->
               CArray.load b k = CArray.load a k) ->
    (length (CArray.read_from a i fuel) <= fuel')%nat ->
    CArray.read_from b i fuel' =
    CArray.read_from a i fuel
    ++ CArray.read_from b (i + length (CArray.read_from a i fuel))
         (fuel' - length (CArray.read_from a i fuel)).
Proof.
  induction fuel as [| fuel IH]; intros i fuel' Hsame Hfuel;
    cbn [CArray.read_from] in *.
  - cbn [length app]. now rewrite Nat.add_0_r, Nat.sub_0_r.
  - destruct (CArray.load a i) as [c |] eqn:Hl;
      [| cbn [length app]; now rewrite Nat.add_0_r, Nat.sub_0_r].
    destruct (Ascii.eqb c NUL) eqn:Hc;
      [cbn [length app]; now rewrite Nat.add_0_r, Nat.sub_0_r |].
    cbn [length] in *. destruct fuel' as [| fuel']; [lia |].
    cbn [CArray.read_from]. rewrite (Hsame i) by lia. rewrite Hl, Hc.
    cbn [app]. f_equal.
    rewrite (IH (S i) fuel'); [| intros k Hk; apply Hsame; lia | lia].
    now rewrite Nat.add_succ_r.
Qed.

Lemma c_str_strcat (a : CArray.t) (src : cstring) :
  CArray.c_str (strcat a src) = CArray.c_str a ++ until_NUL src.
Proof.
  unfold strcat, CArray.c_str at 1.
  set (L := length (CArray.c_str a)).
  pose proof (read_from_length a (length (CArray.stores a)) 0) as Hlen.
  fold (CArray.c_str a) in Hlen. fold L in Hlen.
  rewrite (read_from_agree a _ (length (CArray.stores a)) 0).
  - fold (CArray.c_str a). fold L. cbn [Nat.add]. f_equal.
    apply copy_from_read. rewrite copy_from_length. lia.
  - fold (CArray.c_str a). fold L. intros k Hk.
    apply copy_from_load_below. lia.
  - fold (CArray.c_str a). fold L. rewrite copy_from_length. lia.
Qed.

Lemma strcat_in_bounds (a : CArray.t) (src : cstring) :
  CArray.in_bounds (strcat a src) =
  CArray.in_bounds a
  && (length (CArray.c_str a) + length (until_NUL src) <? CArray.capacity a)%nat.
Proof. unfold strcat. apply copy_from_in_bounds. Qed.

Lemma strcat_capacity (a : CArray.t) (src : cstring) :
  CArray.capacity (strcat a src) = CArray.capacity a.
Proof. apply copy_from_capacity. Qed.

(** The digits of [%x] are plain characters. *)
Lemma hex_uint_plain (d : Hexadecimal.uint) :
  forallb plain (str (HexadecimalString.NilEmpty.string_of_uint d)) = true.
Proof. induction d; cbn; auto. Qed.

Lemma forallb_repeat {A} (f : A -> bool) (x : A) (n : nat) :
  f x = true -> forallb f (repeat x n) = true.
Proof. intros H. induction n; cbn; [reflexivity | now rewrite H]. Qed.

Lemma hex8_plain (z : Z) : forallb plain (hex8 z) = true.
Proof.
  unfold hex8, hex_digits. cbv zeta.
  assert (Hp : forallb plain
                 (repeat "0"%char
                    (8 - length (str (HexadecimalString.NilEmpty.string_of_uint
                                        (N.to_hex_uint (Z.to_N z)))))
                  ++ str (HexadecimalString.NilEmpty.string_of_uint
                            (N.to_hex_uint (Z.to_N z)))) = true).
  { rewrite forallb_app, hex_uint_plain, forallb_repeat; reflexivity. }
  destruct (z =? 0); [exact Hp |].
  change (str "0x" ++ ?x) with ("0"%char :: "x"%char :: x).
  cbn [forallb]. now rewrite Hp.
Qed.

Lemma clean_plain (s : cstring) : clean s = true -> forallb plain s = true.
Proof.
  unfold clean. intros H. rewrite forallb_forall in *. intros c Hc.
  specialize (H c Hc). apply field_char_spec in H.
  unfold plain. destruct H as (Hp & Ha & _).
  rewrite Ha. cbn [negb andb]. rewrite andb_true_r.
  destruct (Ascii.eqb_spec c NUL) as [-> | _]; [discriminate Hp | reflexivity].
Qed.

Lemma command_text_length (pony : trick_t) (event : event_t) (f : cstring) :
  length (command_text pony event f) =
  (strlen (script pony) + strlen (hex8 (to_uint32 (mask event)))
   + strlen f + 4)%nat.
Proof.
  unfold command_text, strlen. rewrite length_app. cbn [length].
  rewrite length_app. cbn [length]. lia.
Qed.

(** What [compose_command] leaves when it gets to its end. *)
Lemma compose_command_done (E : env) (opt : opts_t) (maxLineLen : nat)
  (pony : trick_t) (event : event_t) (fileOrFolder : cstring) :
  compose_command E opt maxLineLen pony event fileOrFolder =
  if (maxLineLen <? length (command_text pony event fileOrFolder))%nat
  then (trace (logx E 22 opt msg_command_too_long), Exit 22)
  else
    ([], Done (strcat (strcat (strcat (strcat (strcat (strcat
       (CArray.strcpy (CArray.fresh maxLineLen) (script pony))
       [space]) [apostrophe]) fileOrFolder) [apostrophe]) [space])
       (hex8 (to_uint32 (mask event))))).
Proof.
  unfold compose_command. cbv zeta. rewrite <- command_text_length.
  destruct (_ <? _)%nat; unfold when.
  - rewrite (prog_eta (logx E 22 opt msg_command_too_long)), result_logx.
    reflexivity.
  - now rewrite bind_ret_l.
Qed.

Lemma command_as_composed (E : env) (opt : opts_t) (maxLineLen : nat)
  (pony : trick_t) (event : event_t) (fileOrFolder : cstring)
  (command : CArray.t) :
  no_NUL (script pony) = true ->
  no_NUL fileOrFolder = true ->
  result (compose_command E opt maxLineLen pony event fileOrFolder)
  = Done command ->
  CArray.c_str command = command_text pony event fileOrFolder.
Proof.
  intros Hs Hf. rewrite compose_command_done.
  destruct (_ <? _)%nat; [discriminate |]. intros [= <-].
  destruct (plain_string _ (hex8_plain (to_uint32 (mask event)))) as (Hm & _).
  rewrite !c_str_strcat, c_str_strcpy.
  change (until_NUL [space]) with [space].
  change (until_NUL [apostrophe]) with [apostrophe].
  rewrite !until_NUL_no_NUL by assumption.
  unfold command_text. rewrite <- !app_assoc. reflexivity.
Qed.

(** X14: a command that needs more than [maxLineLen] characters makes
    the event child leave with status 22 and the message for it.
    Otherwise the array [command] is left holding the script, a space,
    the name of the object between apostrophes, a space and the mask in
    hexadecimal; the copies stay inside the array only when the command
    is shorter than [maxLineLen]: a command of exactly [maxLineLen]
    characters passes the test and has its terminator stored behind the
    array. *)
Theorem command_composition (E : env) (opt : opts_t) (maxLineLen : nat)
  (pony : trick_t) (event : event_t) (fileOrFolder : cstring) :
  no_NUL (script pony) = true ->
  no_NUL fileOrFolder = true ->
  let text := command_text pony event fileOrFolder in
  let run := compose_command E opt maxLineLen pony event fileOrFolder in
  ((maxLineLen < length text)%nat ->
   run = (trace (logx E 22 opt msg_command_too_long), Exit 22) /\
   In (Print stderr (log_line E msg_command_too_long)) (trace run)) /\
  ((length text <= maxLineLen)%nat ->
   exists command,
     run = ([], Done command) /\
     CArray.c_str command = text /\
     CArray.capacity command = maxLineLen /\
     CArray.in_bounds command = (length text <? maxLineLen)%nat).
Proof.
  intros Hs Hf text run.
  pose proof (command_text_length pony event fileOrFolder) as Hlen.
  fold text in Hlen.
  destruct (plain_string _ (hex8_plain (to_uint32 (mask event)))) as (Hm & _).
  unfold run, compose_command. cbv zeta. rewrite <- Hlen.
  destruct (Nat.ltb_spec maxLineLen (length text)) as [Hlong | Hfits].
  - split; [| intros H; lia]. intros _. unfold when.
    rewrite (prog_eta (logx E 22 opt msg_command_too_long)), result_logx.
    cbn [bind Z.eqb trace fst]. split; [reflexivity |].
    rewrite trace_logx by discriminate. now left.
  - split; [intros H; lia |]. intros _. unfold when. rewrite bind_ret_l.
    eexists. split; [reflexivity |].
    rewrite !strcat_capacity, strcpy_capacity.
    rewrite !strcat_in_bounds, !strcat_capacity, strcpy_capacity,
      strcpy_in_bounds, !c_str_strcat, c_str_strcpy.
    change (until_NUL [space]) with [space].
    change (until_NUL [apostrophe]) with [apostrophe].
    rewrite !until_NUL_no_NUL by assumption.
    cbn [CArray.capacity CArray.fresh CArray.in_bounds CArray.stores
         forallb andb].
    split.
    { unfold text, command_text. rewrite <- !app_assoc. reflexivity. }
    split; [reflexivity |].
    rewrite !length_app. cbn [length]. rewrite Hlen. unfold strlen.
    repeat match goal with
           | |- context [(?x <? ?y)%nat] =>
               destruct (Nat.ltb_spec x y); cbn [andb]
           end; try reflexivity; lia.
Qed.

Lemma command_composition_witness :
  let pony :=
    {| watchHandle := 1; actions := 256; fileName := str "/tmp/inbox";
       script := str "/bin/echo new:"; userid := str "nobody";
       mail := str "root" |} in
  let event := {| wd := 1; mask := 256; cookie := 0; len := 0; name := [] |} in
  let text := str "/bin/echo new: '/tmp/inbox/a%27b' 0x00000100" in
  (exists command,
     compose_command stub_machine opt_default 2048 pony event
                     (str "/tmp/inbox/a%27b") = ([], Done command) /\
     CArray.c_str command = text /\ CArray.in_bounds command = true) /\
  (exists command,
     compose_command stub_machine opt_default 44 pony event
                     (str "/tmp/inbox/a%27b") = ([], Done command) /\
     CArray.c_str command = text /\ CArray.in_bounds command = false) /\
  result (compose_command stub_machine opt_default 43 pony event
                          (str "/tmp/inbox/a%27b")) = Exit 22.
Proof.
  intros pony event text.
  destruct (command_composition stub_machine opt_default 2048 pony event
              (str "/tmp/inbox/a%27b") eq_refl eq_refl) as (_ & Hfit).
  destruct (command_composition stub_machine opt_default 44 pony event
              (str "/tmp/inbox/a%27b") eq_refl eq_refl) as (_ & Hedge).
  destruct (command_composition stub_machine opt_default 43 pony event
              (str "/tmp/inbox/a%27b") eq_refl eq_refl) as (Hlong & _).
  split; [| split].
  - destruct Hfit as (command & Hrun & Htext & _ & Hin); [vm_compute; lia |].
    exists command. split; [exact Hrun |]. split; [exact Htext | exact Hin].
  - destruct Hedge as (command & Hrun & Htext & _ & Hin); [vm_compute; lia |].
    exists command. split; [exact Hrun |]. split; [exact Htext | exact Hin].
  - destruct Hlong as (Hrun & _); [vm_compute; lia |]. now rewrite Hrun.
Defined.

Lemma no_NUL_munged_name (len : nat) (rest : list ascii) :
  forall i, no_NUL (munged (name_read len rest i)) = true.
Proof.
  induction rest as [| c rest IH]; intros i; [reflexivity |].
  cbn [name_read]. destruct (i <=? len)%nat; [| reflexivity].
  destruct (Ascii.eqb c NUL) eqn:Hc; cbn [andb negb]; [reflexivity |].
  rewrite munged_cons, no_NUL_app, IH, andb_true_r. unfold munge.
  destruct (Ascii.eqb c apostrophe); [reflexivity |].
  cbn [no_NUL forallb]. now rewrite Hc.
Qed.

(** *** Reading the array of the name *)

Lemma lookup_In (l : list (nat * ascii)) (i : nat) (c : ascii) :
  CArray.lookup l i = Some c -> In i (map fst l).
Proof.
  induction l as [| [j d] l IH]; [discriminate |].
  cbn [CArray.lookup map fst]. destruct (Nat.eqb_spec i j) as [-> | _].
  - intros _. now left.
  - intros H. right. now apply IH.
Qed.

(** A cell of a text without NUL has been stored. *)
Lemma cell_stored (a : CArray.t) (i : nat) :
  Ascii.eqb (CArray.cell a i) NUL = false ->
  CArray.load a i = Some (CArray.cell a i).
Proof.
  unfold CArray.cell. destruct (CArray.load a i); [reflexivity |].
  rewrite Ascii.eqb_refl. discriminate.
Qed.

Lemma no_NUL_cells (a : CArray.t) (i n k : nat) :
  no_NUL (map (CArray.cell a) (seq i n)) = true ->
  (i <= k < i + n)%nat ->
  Ascii.eqb (CArray.cell a k) NUL = false.
Proof.
  unfold no_NUL. rewrite forallb_forall. intros H Hk.
  apply negb_true_iff, H, in_map, in_seq. exact Hk.
Qed.

Lemma stored_count (a : CArray.t) (t : nat) :
  no_NUL (CArray.prefix a t) = true -> (t <= length (CArray.stores a))%nat.
Proof.
  intros H.
  assert (Hle : (length (seq 0 t) <= length (map fst (CArray.stores a)))%nat).
  { apply NoDup_incl_length; [apply seq_NoDup |].
    intros k Hk. apply in_seq in Hk.
    apply (lookup_In _ _ (CArray.cell a k)).
    apply cell_stored, (no_NUL_cells a 0 t); [exact H | lia]. }
  now rewrite length_seq, length_map in Hle.
Qed.

Lemma read_over_cells (initial : cstring) (a : CArray.t) (n : nat) :
  forall i fuel,
    no_NUL (map (CArray.cell a) (seq i n)) = true ->
    CArray.read_over initial a i (n + fuel) =
    map (CArray.cell a) (seq i n) ++ CArray.read_over initial a (i + n) fuel.
Proof.
  induction n as [| n IH]; intros i fuel Hn.
  - cbn [seq map app Nat.add]. now rewrite Nat.add_0_r.
  - cbn [seq map] in *. rewrite no_NUL_cons in Hn.
    apply andb_true_iff in Hn as [Hc Hn]. apply negb_true_iff in Hc.
    cbn [Nat.add CArray.read_over]. unfold CArray.cell_over.
    rewrite (cell_stored a i Hc), Hc. cbn [app]. f_equal.
    rewrite IH by exact Hn. now rewrite Nat.add_succ_r.
Qed.

Lemma skipn_nth (s : cstring) (t : nat) :
  (t < length s)%nat -> skipn t s = nth t s NUL :: skipn (S t) s.
Proof.
  revert t. induction s as [| c s IH]; intros t Ht; [cbn in Ht; lia |].
  destruct t as [| t]; [reflexivity |].
  cbn [skipn nth]. apply IH. cbn in Ht. lia.
Qed.

(** Behind the stored cells the reading finds what the memory held. *)
Lemma read_over_behind (initial : cstring) (a : CArray.t) :
  forall fuel t,
    (forall j, (t <= j)%nat -> CArray.load a j = None) ->
    (length initial - t <= fuel)%nat ->
    CArray.read_over initial a t fuel = until_NUL (skipn t initial).
Proof.
  induction fuel as [| fuel IH]; intros t Hnone Hfuel.
  - rewrite skipn_all2 by lia. reflexivity.
  - cbn [CArray.read_over]. unfold CArray.cell_over.
    rewrite (Hnone t) by lia.
    destruct (Nat.lt_ge_cases t (length initial)) as [Hlt | Hge].
    + rewrite (skipn_nth initial t Hlt). cbn [until_NUL].
      destruct (Ascii.eqb (nth t initial NUL) NUL); [reflexivity |].
      f_equal. apply IH; [| lia]. intros j Hj. apply Hnone. lia.
    + rewrite nth_overflow by exact Hge. rewrite Ascii.eqb_refl.
      rewrite skipn_all2 by exact Hge. reflexivity.
Qed.

Lemma read_over_stop (initial : cstring) (a : CArray.t) (t fuel : nat) :
  CArray.load a t = Some NUL -> CArray.read_over initial a t fuel = [].
Proof.
  intros H. destruct fuel as [| fuel]; [reflexivity |].
  cbn [CArray.read_over]. unfold CArray.cell_over. rewrite H.
  now rewrite Ascii.eqb_refl.
Qed.

(** What is read from an array that holds a text in its cells below
    [t], a terminator or nothing at [t], and nothing behind. *)
Lemma c_str_over_text (initial : cstring) (a : CArray.t) (t : nat) :
  no_NUL (CArray.prefix a t) = true ->
  (forall j, (t < j)%nat -> CArray.load a j = None) ->
  (CArray.load a t = Some NUL ->
   CArray.c_str_over initial a = CArray.prefix a t) /\
  (CArray.load a t = None ->
   CArray.c_str_over initial a =
   CArray.prefix a t ++ until_NUL (skipn t initial)).
Proof.
  intros Hn Hnone. pose proof (stored_count a t Hn) as Ht.
  unfold CArray.c_str_over.
  replace (length (CArray.stores a) + length initial)%nat
    with (t + (length (CArray.stores a) - t + length initial))%nat by lia.
  unfold CArray.prefix in *. rewrite read_over_cells by exact Hn.
  cbn [Nat.add]. split; intros Hload.
  - rewrite read_over_stop by exact Hload. apply app_nil_r.
  - rewrite read_over_behind; [reflexivity | | lia].
    intros j Hj. destruct (Nat.eq_dec j t) as [-> | Hne]; [exact Hload |].
    apply Hnone. lia.
Qed.

(** The reading does not depend on its fuel: it ends at the first NUL
    that the memory holds. *)
Lemma read_over_nonNUL (initial : cstring) (a : CArray.t) :
  forall fuel i k,
    (k < length (CArray.read_over initial a i fuel))%nat ->
    Ascii.eqb (CArray.cell_over initial a (i + k)) NUL = false.
Proof.
  induction fuel as [| fuel IH]; intros i k Hk; [cbn in Hk; lia |].
  cbn [CArray.read_over] in Hk.
  destruct (Ascii.eqb (CArray.cell_over initial a i) NUL) eqn:Hc;
    [cbn in Hk; lia |].
  destruct k as [| k]; [now rewrite Nat.add_0_r |].
  cbn [length] in Hk. rewrite Nat.add_succ_r.
  apply (IH (S i) k). lia.
Qed.

Lemma nonNUL_cells_bound (initial : cstring) (a : CArray.t) (n : nat) :
  (forall k, (k < n)%nat -> Ascii.eqb (CArray.cell_over initial a k) NUL = false) ->
  (n <= length (CArray.stores a) + length initial)%nat.
Proof.
  intros H.
  assert (Hle : (length (seq 0 n) <=
                 length (map fst (CArray.stores a) ++ seq 0 (length initial)))%nat).
  { apply NoDup_incl_length; [apply seq_NoDup |].
    intros k Hk. apply in_seq in Hk. apply in_or_app.
    specialize (H k ltac:(lia)). unfold CArray.cell_over in H.
    destruct (CArray.load a k) as [c |] eqn:Hl.
    - left. exact (lookup_In _ _ _ Hl).
    - right. apply in_seq.
      destruct (Nat.lt_ge_cases k (length initial)) as [Hlt | Hge]; [lia |].
      rewrite nth_overflow in H by exact Hge.
      rewrite Ascii.eqb_refl in H. discriminate H. }
  now rewrite length_seq, length_app, length_map, length_seq in Hle.
Qed.

Lemma read_over_settled (initial : cstring) (a : CArray.t) :
  forall n extra i,
    (length (CArray.read_over initial a i (n + extra)) <= n)%nat ->
    CArray.read_over initial a i (n + extra) = CArray.read_over initial a i n.
Proof.
  induction n as [| n IH]; intros extra i Hlen.
  - cbn [Nat.add] in *.
    destruct (CArray.read_over initial a i extra); [reflexivity |].
    cbn in Hlen. lia.
  - cbn [Nat.add CArray.read_over] in *.
    destruct (Ascii.eqb (CArray.cell_over initial a i) NUL); [reflexivity |].
    cbn [length] in Hlen. f_equal. apply IH. lia.
Qed.

Lemma c_str_over_fuel (initial : cstring) (a : CArray.t) (extra : nat) :
  CArray.read_over initial a 0
    (length (CArray.stores a) + length initial + extra) =
  CArray.c_str_over initial a.
Proof.
  unfold CArray.c_str_over. apply read_over_settled.
  apply nonNUL_cells_bound. intros k Hk.
  apply (read_over_nonNUL initial a _ 0 k Hk).
Qed.

Lemma until_NUL_plain (s : cstring) : no_NUL (until_NUL s) = true.
Proof.
  induction s as [| c s IH]; [reflexivity |].
  cbn [until_NUL]. destruct (Ascii.eqb c NUL) eqn:Hc; [reflexivity |].
  rewrite no_NUL_cons, Hc. exact IH.
Qed.

(** X15: for a table loaded from a configuration file and an event on
    one of its tricks, the command that the event child composes from
    what it reads in the array of the name is the script of the trick,
    and then between two apostrophes the path of the trick, a slash,
    the munged name of the event and what the memory behind the name
    held up to its first NUL, and then the mask.  The loop stores a
    terminator behind the name only when the last character that it has
    read is an apostrophe: nothing follows the name then.  The command
    holds the two apostrophes and those of what follows the name: the
    name reaches the shell as one quoted word when the memory behind it
    holds no apostrophe before its first NUL. *)
Theorem command_quotes_the_name (E : env) (opt : opts_t)
  (configFile : list cstring) (m : main_t) (event : event_t) (pony : trick_t)
  (r : CArray.t * nat) (maxLineLen : nat) (initial : cstring)
  (command : CArray.t) :
  result (load_config E opt configFile) = Done m ->
  trick_of m event = Some pony ->
  result (assemble E opt (maxNameLen m) pony event) = Done r ->
  result (compose_command E opt maxLineLen pony event
                          (fileOrFolder_read initial r))
  = Done command ->
  let read := name_read (len event) (name event) 0 in
  let behind :=
    if Ascii.eqb (last read NUL) apostrophe then []
    else until_NUL (skipn (snd r) initial) in
  CArray.c_str command =
  script pony ++ space :: apostrophe
  :: (fileName pony ++ slash :: munged read) ++ behind
  ++ apostrophe :: space :: hex8 (to_uint32 (mask event)) /\
  apostrophes (CArray.c_str command) = (2 + apostrophes behind)%nat.
Proof.
  intros Hload Htrick Hasm Hcmd read behind.
  destruct (trick_path_plain E opt configFile m event pony Hload Htrick)
    as (Hpn & Hpa).
  destruct (assemble_munges E opt (maxNameLen m) pony event Hpn) as (_ & Hdone).
  destruct (Hdone r Hasm) as (Hname & Hna & _). clear Hdone.
  assert (Hin : In pony (trickHeap m)).
  { unfold trick_of in Htrick. destruct (wd event <? 1); [discriminate |].
    eapply nth_error_In. exact Htrick. }
  pose proof (load_lines_ok E opt configFile (main_on E) m
                (table_ok_main_on E) Hload)
    as Hok.
  unfold table_ok in Hok. rewrite Forall_forall in Hok.
  destruct (Hok pony Hin) as [_ _ H3 _ _].
  destruct H3 as (Hclean & _); [lia |].
  destruct (plain_string _ (clean_plain _ Hclean)) as (Hsn & Hsa).
  destruct (plain_string _ (hex8_plain (to_uint32 (mask event)))) as (_ & Hma).
  assert (Hfn : no_NUL (assembled r) = true).
  { rewrite Hname.
    change (fileName pony ++ slash :: ?x) with (fileName pony ++ [slash] ++ x).
    rewrite !no_NUL_app, Hpn, no_NUL_munged_name. reflexivity. }
  destruct (assemble_end E opt (maxNameLen m) pony event r Hasm)
    as (Hterm & Hnone).
  fold read in Hterm, Hname.
  assert (Hread : fileOrFolder_read initial r = assembled r ++ behind).
  { unfold fileOrFolder_read, assembled in *.
    destruct (c_str_over_text initial (fst r) (snd r) Hfn Hnone) as (Hstop & Hon).
    subst behind. destruct (Ascii.eqb (last read NUL) apostrophe).
    - rewrite (Hstop Hterm). now rewrite app_nil_r.
    - exact (Hon Hterm). }
  assert (Hbn : no_NUL behind = true).
  { subst behind. destruct (Ascii.eqb (last read NUL) apostrophe);
      [reflexivity | apply until_NUL_plain]. }
  assert (Hrn : no_NUL (fileOrFolder_read initial r) = true).
  { rewrite Hread. now apply no_NUL_app_true. }
  pose proof (command_as_composed E opt maxLineLen pony event
                (fileOrFolder_read initial r) command Hsn Hrn Hcmd) as Htext.
  rewrite Htext. unfold command_text. rewrite Hread, Hname, <- !app_assoc.
  split; [reflexivity |].
  cbn [app].
  repeat rewrite ?apostrophes_app, ?apostrophes_cons.
  rewrite apostrophes_munged, Hsa, Hpa, Hma.
  change (Ascii.eqb space apostrophe) with false.
  change (Ascii.eqb slash apostrophe) with false.
  change (Ascii.eqb apostrophe apostrophe) with true.
  cbv iota. lia.
Qed.

(** X15 at the name [it's.txt], the memory behind the name holding
    zeros, and holding the characters [';x] left by an earlier call. *)
Lemma command_quotes_the_name_witness :
  let configFile :=
    [ln "/tmp/inbox:256:/bin/echo hello:nobody:ops@example.test"] in
  let event :=
    {| wd := 1; mask := 256; cookie := 0; len := 16;
       name := str "it's.txt" ++ repeat NUL 8 |} in
  let left := repeat "-"%char 21 ++ str "';x" in
  exists m pony r command command',
    result (load_config stub_machine opt_default configFile) = Done m /\
    trick_of m event = Some pony /\
    result (assemble stub_machine opt_default (maxNameLen m) pony event)
    = Done r /\
    result (compose_command stub_machine opt_default 2048 pony event
                            (fileOrFolder_read [] r)) = Done command /\
    CArray.c_str command =
    str "/bin/echo hello '/tmp/inbox/it%27s.txt' 0x00000100" /\
    apostrophes (CArray.c_str command) = 2%nat /\
    result (compose_command stub_machine opt_default 2048 pony event
                            (fileOrFolder_read left r)) = Done command' /\
    CArray.c_str command' =
    str "/bin/echo hello '/tmp/inbox/it%27s.txt';x' 0x00000100" /\
    apostrophes (CArray.c_str command') = 3%nat.
Proof.
  intros configFile event left. eexists. eexists. eexists. eexists. eexists.
  split; [vm_compute; reflexivity |].
  split; [vm_compute; reflexivity |].
  split; [vm_compute; reflexivity |].
  split; [vm_compute; reflexivity |].
  destruct (command_quotes_the_name stub_machine opt_default configFile
              _ event _ _ 2048 [] _
              ltac:(vm_compute; reflexivity) ltac:(vm_compute; reflexivity)
              ltac:(vm_compute; reflexivity) ltac:(vm_compute; reflexivity))
    as (Htext & Hquotes).
  split; [exact Htext |]. split; [exact Hquotes |].
  split; [vm_compute; reflexivity |].
  destruct (command_quotes_the_name stub_machine opt_default configFile
              _ event _ _ 2048 left _
              ltac:(vm_compute; reflexivity) ltac:(vm_compute; reflexivity)
              ltac:(vm_compute; reflexivity) ltac:(vm_compute; reflexivity))
    as (Htext' & Hquotes').
  split; [exact Htext' | exact Hquotes'].
Defined.

(** ** The status of the script *)

Lemma WEXITSTATUS_eq (cstatus : Z) :
  WEXITSTATUS cstatus = (cstatus / 256) mod 256.
Proof.
  unfold WEXITSTATUS. rewrite Z.shiftr_land.
  change (Z.shiftr 65280 8) with (Z.ones 8).
  rewrite Z.land_ones by lia. rewrite Z.shiftr_div_pow2 by lia.
  reflexivity.
Qed.

Lemma WEXITSTATUS_range (cstatus : Z) : 0 <= WEXITSTATUS cstatus <= 255.
Proof.
  rewrite WEXITSTATUS_eq.
  pose proof (Z.mod_pos_bound (cstatus / 256) 256 eq_refl). lia.
Qed.

Lemma WIFEXITED_eq (cstatus : Z) :
  WIFEXITED cstatus = (cstatus mod 128 =? 0).
Proof.
  unfold WIFEXITED. change 127 with (Z.ones 7).
  rewrite Z.land_ones by lia. reflexivity.
Qed.

Lemma result_exit_after_logx E opt (s : Z) (logtxt : cstring) :
  result (logx E s opt logtxt ;; exit s) = Exit (A := unit) s.
Proof.
  rewrite result_bind, result_logx.
  destruct (Z.eqb_spec s 0) as [-> | _]; reflexivity.
Qed.

(** X16: the event child never returns from the report of the status
    of the script: it leaves with status 29 when [waitpid] fails, with 1
    when the script did not end by itself, and else with the exit
    status of the script, which lies between 0 and 255.  So a script
    that ends with [exit code] makes the child leave with [code], and a
    script killed by a signal makes it leave with 1. *)
Theorem worker_leaves_with_script_status (E : env) (opt : opts_t)
  (argv0 : cstring) (pony : trick_t) (command : cstring)
  (waited cstatus : Z) :
  let run := report_status E opt argv0 pony command waited cstatus in
  result run = Exit (status_of waited cstatus) /\
  0 <= status_of waited cstatus <= 255 /\
  (forall code, 0 <= code <= 255 -> waited <> -1 -> cstatus = code * 256 ->
                result run = Exit code) /\
  (forall sig, 1 <= sig <= 127 -> waited <> -1 -> cstatus = sig ->
               result run = Exit 1).
Proof.
  intros run.
  assert (Hres : result run = Exit (status_of waited cstatus)).
  { unfold run, report_status, status_of. rewrite result_bind. unfold when.
    destruct (waited =? -1); [now rewrite result_logx |].
    cbn [result ret snd]. rewrite result_bind.
    destruct (WIFEXITED cstatus); cbn [negb].
    - destruct (Z.eqb_spec (WEXITSTATUS cstatus) 127) as [H127 | _].
      + rewrite result_bind, result_logx. cbn [Z.eqb result ret snd fst].
        rewrite H127. apply result_exit_after_logx.
      + destruct (Z.eqb_spec (WEXITSTATUS cstatus) 0) as [H0 | _];
          cbn [result ret snd fst]; apply result_exit_after_logx.
    - cbn [result ret snd fst]. apply result_exit_after_logx. }
  split; [exact Hres |]. split; [| split].
  - unfold status_of. destruct (waited =? -1); [lia |].
    destruct (WIFEXITED cstatus); [apply WEXITSTATUS_range | lia].
  - intros code Hc Hw ->. rewrite Hres. unfold status_of.
    destruct (Z.eqb_spec waited (-1)) as [| _]; [contradiction |].
    rewrite WIFEXITED_eq, WEXITSTATUS_eq.
    replace (code * 256) with ((code * 2) * 128) at 1 by lia.
    rewrite Z.mod_mul by lia. cbn [Z.eqb].
    rewrite Z.div_mul by lia. now rewrite Z.mod_small by lia.
  - intros sig Hs Hw ->. rewrite Hres. unfold status_of.
    destruct (Z.eqb_spec waited (-1)) as [| _]; [contradiction |].
    rewrite WIFEXITED_eq. rewrite Z.mod_small by lia.
    destruct (Z.eqb_spec sig 0) as [| _]; [lia | reflexivity].
Qed.

Lemma worker_leaves_with_script_status_witness :
  let pony :=
    {| watchHandle := 1; actions := 256; fileName := str "/tmp/inbox";
       script := str "/bin/false"; userid := str "nobody"; mail := str "root" |} in
  let run :=
    report_status stub_machine opt_default (str "gidget") pony
                  (str "/bin/false '/tmp/inbox/a' 0x00000100") 4321 in
  result (run 768) = Exit 3 /\ result (run 9) = Exit 1 /\
  result (run 32512) = Exit 127.
Proof.
  intros pony run.
  destruct (worker_leaves_with_script_status stub_machine opt_default
              (str "gidget") pony (str "/bin/false '/tmp/inbox/a' 0x00000100")
              4321 768) as (_ & _ & Hexit & _).
  destruct (worker_leaves_with_script_status stub_machine opt_default
              (str "gidget") pony (str "/bin/false '/tmp/inbox/a' 0x00000100")
              4321 9) as (_ & _ & _ & Hkill).
  destruct (worker_leaves_with_script_status stub_machine opt_default
              (str "gidget") pony (str "/bin/false '/tmp/inbox/a' 0x00000100")
              4321 32512) as (Hres & _).
  split; [| split].
  - apply (Hexit 3); [lia | discriminate | reflexivity].
  - apply (Hkill 9); [lia | discriminate | reflexivity].
  - exact Hres.
Defined.

(** ** What the log says of the mail *)

Lemma silent_app (t1 t2 : list effect) :
  silent t1 -> silent t2 -> silent (t1 ++ t2).
Proof.
  intros H1 H2 fh text Hin. apply in_app_or in Hin as [Hin | Hin].
  - exact (H1 fh text Hin).
  - exact (H2 fh text Hin).
Qed.

Lemma silent_nil : silent [].
Proof. intros fh text []. Qed.

Lemma pump_silent (fromPipe : list ascii) :
  forall n, silent (trace (pump fromPipe n)).
Proof.
  induction fromPipe as [| ch more IH]; intros n; cbn [pump].
  - apply silent_nil.
  - rewrite trace_bind. cbn [result emit snd trace fst].
    apply silent_app; [| apply IH].
    intros fh text [H | []]. discriminate H.
Qed.

Lemma emit_all_silent (texts : list cstring) :
  silent (trace (emit_all texts)).
Proof.
  induction texts as [| t more IH]; cbn [emit_all].
  - apply silent_nil.
  - rewrite trace_bind. cbn [result emit snd trace fst].
    apply silent_app; [| apply IH].
    intros fh text [H | []]. discriminate H.
Qed.

Lemma emit_all_done (texts : list cstring) :
  emit_all texts = (trace (emit_all texts), Done tt).
Proof.
  rewrite (prog_eta (emit_all texts)) at 1.
  now destruct (emit_all_spec texts) as (-> & _).
Qed.

Lemma pump_done (fromPipe : list ascii) (n : nat) :
  pump fromPipe n = (trace (pump fromPipe n), Done (n + length fromPipe)%nat).
Proof.
  rewrite (prog_eta (pump fromPipe n)) at 1.
  now destruct (pump_spec fromPipe n) as (-> & _).
Qed.

(** X17: the event child counts the characters of the output of the
    script that it mails from the second one on.  It returns that
    count, and logs it when it is not zero: the output of a script that
    writes one character is mailed without a line in the log, and when
    the mail transport cannot be opened the output is dropped and
    nothing is logged either.  The child never leaves the program
    here. *)
Theorem mail_log_counts_from_second (E : env) (opt : opts_t) (ppid : Z)
  (pony : trick_t) (event : event_t) (fileOrFolder shell command : cstring)
  (fromPipe : list ascii) :
  let run :=
    mail_output E opt ppid pony event fileOrFolder shell command fromPipe in
  let bytesMailed := if popen_mail E then pred (length fromPipe) else 0%nat in
  result run = Done bytesMailed /\
  (bytesMailed <> 0%nat ->
   exists before,
     silent before /\
     trace run = before ++ logged E opt (msg_mailed E ppid bytesMailed)) /\
  (bytesMailed = 0%nat -> silent (trace run)) /\
  (popen_mail E = false -> fromPipe <> [] ->
   trace run = [Popen (MAILCOMMAND E)]).
Proof.
  intros run bytesMailed.
  assert (Hrun :
    exists before,
      silent before /\
      (popen_mail E = false -> fromPipe <> [] ->
       before = [Popen (MAILCOMMAND E)]) /\
      run = (before ++ (if (bytesMailed =? 0)%nat then []
                        else logged E opt (msg_mailed E ppid bytesMailed)),
             Done bytesMailed)).
  { unfold run, mail_output, bytesMailed.
    destruct fromPipe as [| ch more].
    - exists []. split; [apply silent_nil |]. split; [congruence |].
      rewrite bind_ret_l. destruct (popen_mail E); reflexivity.
    - destruct (popen_mail E).
      + rewrite emit_all_done, pump_done.
        pose proof (emit_all_silent
                      (mail_headers E pony event fileOrFolder shell command))
          as Hhs.
        pose proof (pump_silent more 0) as Hps.
        generalize dependent (trace (emit_all (mail_headers E pony event
                                                 fileOrFolder shell command))).
        intros hs Hhs.
        generalize dependent (trace (pump more 0)). intros ps Hps.
        exists (Popen (MAILCOMMAND E) :: hs ++ Mail [ch] :: ps ++ [Pclose]).
        split.
        { intros fh text [H | Hin]; [discriminate H |].
          apply in_app_or in Hin as [Hin | [H | Hin]];
            [exact (Hhs fh text Hin) | discriminate H |].
          apply in_app_or in Hin as [Hin | [H | []]];
            [exact (Hps fh text Hin) | discriminate H]. }
        split; [discriminate |].
        cbn [Nat.add length pred bind emit ret]. unfold when.
        destruct (Nat.eqb_spec (length more) 0) as [H0 | H0]; cbn [negb].
        * cbn [bind ret app]. rewrite <- !app_assoc. cbn [app].
          now rewrite !app_nil_r.
        * rewrite logx_logged. cbn [bind ret app]. rewrite <- !app_assoc.
          cbn [app]. now rewrite !app_nil_r.
      + exists [Popen (MAILCOMMAND E)].
        split; [intros fh text [H | []]; discriminate H |].
        split; [reflexivity |]. reflexivity. }
  destruct Hrun as (before & Hsil & Hdrop & Hrun). rewrite Hrun.
  cbn [result trace fst snd]. split; [reflexivity |]. split; [| split].
  - intros Hn. exists before. split; [exact Hsil |].
    destruct (Nat.eqb_spec bytesMailed 0); [contradiction | reflexivity].
  - intros ->. cbn. now rewrite app_nil_r.
  - intros Hp Hne. unfold bytesMailed. rewrite Hp. cbn.
    rewrite app_nil_r. now apply Hdrop.
Qed.

Lemma mail_log_counts_from_second_witness :
  let pony :=
    {| watchHandle := 1; actions := 256; fileName := str "/tmp/inbox";
       script := str "/bin/echo"; userid := str "nobody";
       mail := str "ops@example.test" |} in
  let event := {| wd := 1; mask := 256; cookie := 0; len := 0; name := [] |} in
  let run :=
    mail_output stub_machine opt_default 6 pony event (str "/tmp/inbox/a")
                (str "/bin/sh") (str "/bin/echo") in
  result (run (str "x")) = Done 0%nat /\
  silent (trace (run (str "x"))) /\
  mailed (trace (run (str "x"))) <> [] /\
  exists before,
    silent before /\
    trace (run (str "hello")) =
    before ++ logged stub_machine opt_default (msg_mailed stub_machine 6 4).
Proof.
  intros pony event run.
  destruct (mail_log_counts_from_second stub_machine opt_default 6 pony event
              (str "/tmp/inbox/a") (str "/bin/sh") (str "/bin/echo") (str "x"))
    as (Hres & _ & Hsilent & _).
  destruct (mail_log_counts_from_second stub_machine opt_default 6 pony event
              (str "/tmp/inbox/a") (str "/bin/sh") (str "/bin/echo")
              (str "hello")) as (_ & Hlog & _).
  split; [exact Hres |]. split; [apply Hsilent; reflexivity |].
  split; [vm_compute; discriminate |].
  apply Hlog. vm_compute. discriminate.
Defined.

(** ** The names of the bits of an event *)

Lemma bit_test (b : Z) (i : nat) :
  (i < 32)%nat ->
  (Z.land (to_uint32 (Z.shiftl 1 (Z.of_nat i))) b =? 0) =
  negb (Z.testbit b (Z.of_nat i)).
Proof.
  intros Hi. rewrite Z.shiftl_1_l. unfold to_uint32.
  rewrite Z.mod_small
    by (split; [apply Z.pow_nonneg; lia | apply Z.pow_lt_mono_r; lia]).
  destruct (Z.testbit b (Z.of_nat i)) eqn:Hb; cbn [negb].
  - apply Z.eqb_neq. intros H0.
    assert (Ht : Z.testbit (Z.land (2 ^ Z.of_nat i) b) (Z.of_nat i) = true).
    { rewrite Z.land_spec, Z.pow2_bits_true, Hb by lia. reflexivity. }
    rewrite H0, Z.bits_0 in Ht. discriminate.
  - apply Z.eqb_eq. apply Z.bits_inj'. intros n Hn.
    rewrite Z.land_spec, Z.bits_0, Z.pow2_bits_eqb by lia.
    destruct (Z.eqb_spec (Z.of_nat i) n) as [<- | _]; [| reflexivity].
    now rewrite Hb.
Qed.

Lemma unnamed_bits_spec (k : nat) :
  (k < 32)%nat ->
  (ezName k = None <-> Z.testbit unnamed_bits (Z.of_nat k) = true).
Proof.
  intros Hk.
  do 32 (destruct k as [| k];
         [vm_compute; split; intros H; (reflexivity || discriminate H) |]).
  lia.
Qed.

Lemma named_not_warning (k : nat) (nm : cstring) (j : Z) :
  ezName k = Some nm -> is_warning (named nm j) = false.
Proof.
  do 32 (destruct k as [| k];
         [cbn [ezName]; intros H; try discriminate H;
          injection H as <-; reflexivity |]).
  discriminate.
Qed.

(** A number below 2^32 that is not zero has one of the bits from 0 to
    31 set. *)
Lemma some_bit_set (z : Z) :
  0 <= z < 2 ^ 32 -> z <> 0 ->
  exists k, (k < 32)%nat /\ Z.testbit z (Z.of_nat k) = true.
Proof.
  intros Hz Hne.
  destruct (find (fun k => Z.testbit z (Z.of_nat k)) (seq 0 32)) as [k |] eqn:Hf.
  - apply find_some in Hf as (Hin & Hk). apply in_seq in Hin.
    exists k. split; [lia | exact Hk].
  - exfalso. apply Hne. apply Z.bits_inj'. intros n Hn. rewrite Z.bits_0.
    destruct (Z.ltb_spec n 32) as [Hlt | Hge].
    + pose proof (find_none _ _ Hf (Z.to_nat n)) as Hnone.
      cbv beta in Hnone. rewrite Z2Nat.id in Hnone by lia.
      apply Hnone. apply in_seq. lia.
    + rewrite <- (Z.mod_small z (2 ^ 32)) by lia.
      apply Z.mod_pow2_bits_high. lia.
Qed.

Lemma put_sep_not_warning (hits : nat) (c : ascii) :
  filter is_warning (put_sep hits [c]) = [].
Proof.
  unfold put_sep. destruct (hits =? 0)%nat; [reflexivity |].
  cbn [filter]. unfold is_warning. cbn [str list_ascii_of_string is_prefix].
  destruct c as [[] [] [] [] [] [] [] []]; reflexivity.
Qed.

(** What the loop leaves when it gets to its end. *)
Lemma name_bits_some (b : Z) (n : nat) :
  forall i hits out hits',
    (i + n <= 32)%nat ->
    name_bits b n i hits = Some (out, hits') ->
    (hits <= hits')%nat /\
    (hits' = hits <->
     forall k, (i <= k < i + n)%nat -> Z.testbit b (Z.of_nat k) = false) /\
    filter is_warning out = [].
Proof.
  induction n as [| n IH]; intros i hits out hits' Hin; cbn [name_bits].
  - intros [= <- <-]. split; [lia |]. split; [| reflexivity].
    split; [intros _ k Hk; lia | reflexivity].
  - cbv zeta. rewrite bit_test by lia. rewrite negb_involutive.
    destruct (Z.testbit b (Z.of_nat i)) eqn:Hb.
    + destruct (ezName i) as [nm |] eqn:Hnm; [| discriminate].
      destruct (name_bits b n (S i) (S hits)) as [[out1 h1] |] eqn:Hrec;
        [| discriminate].
      intros [= <- <-].
      destruct (IH (S i) (S hits) out1 h1 ltac:(lia) Hrec) as (Hle & _ & Hw).
      split; [lia |]. split.
      * split; [intros ->; lia |].
        intros Hall. rewrite (Hall i) in Hb by lia. discriminate.
      * rewrite filter_app, put_sep_not_warning. cbn [app filter].
        now rewrite (named_not_warning i nm _ Hnm).
    + intros Hrec.
      destruct (IH (S i) hits out hits' ltac:(lia) Hrec) as (Hle & Hiff & Hw).
      split; [exact Hle |]. split; [| exact Hw].
      rewrite Hiff. split.
      * intros Hall k Hk. destruct (Nat.eq_dec k i) as [-> | Hne];
          [exact Hb | apply Hall; lia].
      * intros Hall k Hk. apply Hall. lia.
Qed.

(** When the loop does not get to its end. *)
Lemma name_bits_none (b : Z) (n : nat) :
  forall i hits,
    (i + n <= 32)%nat ->
    (name_bits b n i hits = None <->
     exists k, (i <= k < i + n)%nat /\ Z.testbit b (Z.of_nat k) = true /\
               ezName k = None).
Proof.
  induction n as [| n IH]; intros i hits Hin; cbn [name_bits].
  - split; [discriminate | intros (k & Hk & _); lia].
  - cbv zeta. rewrite bit_test by lia. rewrite negb_involutive.
    destruct (Z.testbit b (Z.of_nat i)) eqn:Hb.
    + destruct (ezName i) as [nm |] eqn:Hnm.
      * specialize (IH (S i) (S hits) ltac:(lia)).
        destruct (name_bits b n (S i) (S hits)) as [[out1 h1] |].
        -- split; [discriminate |]. intros (k & Hk & Hbk & Hnk).
           destruct (Nat.eq_dec k i) as [-> | Hne]; [congruence |].
           destruct IH as (_ & IH). discriminate IH.
           exists k. split; [lia |]. split; assumption.
        -- split; [| reflexivity]. intros _.
           destruct IH as (IH & _). destruct (IH eq_refl) as (k & Hk & Hk').
           exists k. split; [lia | exact Hk'].
      * split; [| reflexivity]. intros _. exists i.
        split; [lia |]. split; assumption.
    + rewrite (IH (S i) hits) by lia. split.
      * intros (k & Hk & Hk'). exists k. split; [lia | exact Hk'].
      * intros (k & Hk & Hbk & Hnk).
        destruct (Nat.eq_dec k i) as [-> | Hne]; [congruence |].
        exists k. split; [lia |]. split; assumption.
Qed.

Lemma no_bit_zero (b : Z) :
  0 <= b < 2 ^ 32 ->
  ((forall k, (0 <= k < 0 + 32)%nat -> Z.testbit b (Z.of_nat k) = false)
   <-> b = 0).
Proof.
  intros Hb. split.
  - intros Hall. destruct (Z.eq_dec b 0) as [| Hne]; [assumption |].
    destruct (some_bit_set b Hb Hne) as (k & Hk & Ht).
    rewrite Hall in Ht by lia. discriminate.
  - intros -> k _. apply Z.bits_0.
Qed.

Lemma land_below (b m : Z) : 0 <= b < 2 ^ 32 -> 0 <= Z.land b m < 2 ^ 32.
Proof.
  intros Hb. split; [apply Z.land_nonneg; lia |].
  replace b with (Z.land b (Z.ones 32))
    by (rewrite Z.land_ones by lia; apply Z.mod_small; lia).
  rewrite <- Z.land_assoc, (Z.land_comm (Z.ones 32) m), Z.land_assoc.
  rewrite Z.land_ones by lia. apply Z.mod_pos_bound. lia.
Qed.

Lemma stringify_none_loop (bitMap : Z) :
  stringifyEventBits bitMap = None <-> name_bits bitMap 32 0 0 = None.
Proof.
  unfold stringifyEventBits.
  destruct (name_bits bitMap 32 0 0) as [[out1 hits] |];
    [| split; reflexivity].
  destruct (flagged _ hits _ _) as [out2 h2].
  destruct (flagged _ h2 _ _) as [out3 h3].
  destruct (flagged _ h3 _ _) as [out4 h4].
  split; discriminate.
Qed.

Lemma unnamed_bit_met (bitMap : Z) :
  0 <= bitMap < 2 ^ 32 ->
  ((exists k, (0 <= k < 0 + 32)%nat /\ Z.testbit bitMap (Z.of_nat k) = true /\
              ezName k = None)
   <-> Z.land bitMap unnamed_bits <> 0).
Proof.
  intros Hb. split.
  - intros (k & Hk & Hbk & Hnk) H0.
    apply unnamed_bits_spec in Hnk; [| lia].
    assert (Ht : Z.testbit (Z.land bitMap unnamed_bits) (Z.of_nat k) = true)
      by (rewrite Z.land_spec, Hbk, Hnk; reflexivity).
    rewrite H0, Z.bits_0 in Ht. discriminate.
  - intros Hne.
    destruct (some_bit_set (Z.land bitMap unnamed_bits)) as (k & Hk & Ht);
      [now apply land_below | exact Hne |].
    rewrite Z.land_spec in Ht. apply andb_true_iff in Ht as (Hbk & Hnk).
    exists k. split; [lia |]. split; [exact Hbk |].
    now apply unnamed_bits_spec.
Qed.

(** X18: for a mask of 32 bits, the function hands [printf] an entry of
    [ezName] that was never assigned exactly when the mask has one of
    the bits 12, 16 to 23 and 26 to 28. *)
Theorem event_names_defined (bitMap : Z) :
  0 <= bitMap < 2 ^ 32 ->
  (stringifyEventBits bitMap = None <-> Z.land bitMap unnamed_bits <> 0).
Proof.
  intros Hb.
  rewrite stringify_none_loop.
  rewrite (name_bits_none bitMap 32 0 0) by lia.
  now apply unnamed_bit_met.
Qed.

Lemma event_names_defined_witness :
  stringifyEventBits 256 =
  Some [str "IN_CREATE(0x00000100)"; [LF]] /\
  stringifyEventBits 4096 = None /\
  stringifyEventBits (256 + 67108864) = None.
Proof.
  split; [reflexivity |].
  destruct (event_names_defined 4096 ltac:(lia)) as (_ & H1).
  destruct (event_names_defined (256 + 67108864) ltac:(lia)) as (_ & H2).
  split; [apply H1 | apply H2]; vm_compute; discriminate.
Defined.

Lemma flagged_warning (b : bool) (hits : nat) (c : ascii) (text : cstring) :
  filter is_warning (fst (flagged b hits [c] text)) =
  (if b && is_warning text then [text] else []) /\
  (hits <= snd (flagged b hits [c] text))%nat.
Proof.
  unfold flagged. destruct b; cbn [fst snd andb]; [| split; [reflexivity | lia]].
  split; [| lia].
  rewrite filter_app, put_sep_not_warning. cbn [app filter].
  destruct (is_warning text); reflexivity.
Qed.

Lemma not_recognized_eq :
  to_uint32 (Z.lnot recognized) = Z.lor unnamed_bits named_unrecognized.
Proof. vm_compute. reflexivity. Qed.

Lemma named_close_not_warning :
  is_warning (named (str "IN_CLOSE") IN_CLOSE) = false.
Proof. vm_compute. reflexivity. Qed.

Lemma named_move_not_warning :
  is_warning (named (str "IN_MOVE") IN_MOVE) = false.
Proof. vm_compute. reflexivity. Qed.

Lemma unrecognized_is_warning (k : Z) : is_warning (msg_unrecognized k) = true.
Proof. reflexivity. Qed.

Lemma stringify_zero :
  stringifyEventBits 0 = Some (msg_no_string 0 ++ [[LF]]).
Proof. vm_compute. reflexivity. Qed.

Lemma defined_no_unnamed (bitMap : Z) (out : list cstring) :
  0 <= bitMap < 2 ^ 32 ->
  stringifyEventBits bitMap = Some out -> Z.land bitMap unnamed_bits = 0.
Proof.
  intros Hb Hout.
  destruct (Z.eq_dec (Z.land bitMap unnamed_bits) 0) as [| Hu];
    [assumption |].
  apply (unnamed_bit_met bitMap Hb) in Hu.
  apply (name_bits_none bitMap 32 0 0) in Hu; [| lia].
  apply stringify_none_loop in Hu. congruence.
Qed.

Lemma loop_hits (bitMap : Z) (out1 : list cstring) (h1 : nat) :
  0 <= bitMap < 2 ^ 32 -> bitMap <> 0 ->
  name_bits bitMap 32 0 0 = Some (out1, h1) ->
  (0 < h1)%nat /\ filter is_warning out1 = [].
Proof.
  intros Hb Hne Hloop.
  destruct (name_bits_some bitMap 32 0 0 out1 h1 ltac:(lia) Hloop)
    as (_ & Hzero & Hw1).
  rewrite (no_bit_zero bitMap Hb) in Hzero.
  split; [| exact Hw1].
  destruct h1; [| lia]. exfalso. apply Hne. now apply Hzero.
Qed.

(** The three tests that follow the loop, the loop having met a bit. *)
Lemma after_loop_warnings (bitMap k : Z) (out out1 : list cstring) (h1 : nat) :
  (0 < h1)%nat -> filter is_warning out1 = [] ->
  (let (out2, hits) :=
     flagged (negb (Z.land IN_CLOSE bitMap =? 0)) h1 [space]
             (named (str "IN_CLOSE") IN_CLOSE) in
   let (out3, hits0) :=
     flagged (negb (Z.land IN_MOVE bitMap =? 0)) hits [space]
             (named (str "IN_MOVE") IN_MOVE) in
   let (out4, hits1) :=
     flagged (negb (k =? 0)) hits0 [LF] (msg_unrecognized k) in
   let out5 := if (hits1 =? 0)%nat then msg_no_string bitMap else [] in
   Some (out1 ++ out2 ++ out3 ++ out4 ++ out5 ++ [[LF]])) = Some out ->
  filter is_warning out = (if k =? 0 then [] else [msg_unrecognized k]) /\
  last out [] = [LF].
Proof.
  intros H1 Hw1 Hout.
  match type of Hout with
  | context [flagged ?b h1 [?c] ?t] =>
      pose proof (flagged_warning b h1 c t) as (F2 & G2);
      destruct (flagged b h1 [c] t) as [out2 h2]
  end.
  match type of Hout with
  | context [flagged ?b h2 [?c] ?t] =>
      pose proof (flagged_warning b h2 c t) as (F3 & G3);
      destruct (flagged b h2 [c] t) as [out3 h3]
  end.
  match type of Hout with
  | context [flagged ?b h3 [?c] ?t] =>
      pose proof (flagged_warning b h3 c t) as (F4 & G4);
      destruct (flagged b h3 [c] t) as [out4 h4]
  end.
  cbn [fst snd] in F2, G2, F3, G3, F4, G4.
  rewrite named_close_not_warning, andb_false_r in F2.
  rewrite named_move_not_warning, andb_false_r in F3.
  rewrite unrecognized_is_warning, andb_true_r in F4.
  destruct (Nat.eqb_spec h4 0) as [H0 | _]; [lia |].
  injection Hout as <-. split.
  - rewrite !filter_app, Hw1, F2, F3, F4. cbn [app filter].
    change (is_warning [LF]) with false. cbn [app].
    rewrite !app_nil_r. destruct (k =? 0); reflexivity.
  - rewrite !app_assoc. apply last_last.
Qed.

(** X19: for a mask of 32 bits whose bits all have an entry in
    [ezName], the function prints a warning in two cases only: that of
    an unrecognized flag when the mask has one of the bits 24, 25, 29
    and 31, although [ezName] names them, and that of the missing
    string representation when the mask is zero.  What it prints ends
    with a newline. *)
Theorem event_names_warnings (bitMap : Z) (out : list cstring) :
  0 <= bitMap < 2 ^ 32 ->
  stringifyEventBits bitMap = Some out ->
  filter is_warning out =
  (if Z.land bitMap named_unrecognized =? 0 then []
   else [msg_unrecognized (Z.land bitMap named_unrecognized)])
  ++ (if bitMap =? 0 then firstn 1 (msg_no_string bitMap) else []) /\
  last out [] = [LF].
Proof.
  intros Hb Hout.
  destruct (Z.eqb_spec bitMap 0) as [H0 | Hne].
  - rewrite H0 in Hout |- *. rewrite stringify_zero in Hout.
    injection Hout as <-. split; vm_compute; reflexivity.
  - pose proof (defined_no_unnamed bitMap out Hb Hout) as Hun.
    revert Hout. unfold stringifyEventBits.
    destruct (name_bits bitMap 32 0 0) as [[out1 h1] |] eqn:Hloop;
      [| discriminate].
    intros Hout.
    destruct (loop_hits bitMap out1 h1 Hb Hne Hloop) as (H1 & Hw1).
    rewrite not_recognized_eq, Z.land_lor_distr_r, Hun, Z.lor_0_l in Hout.
    rewrite app_nil_r.
    exact (after_loop_warnings bitMap _ out out1 h1 H1 Hw1 Hout).
Qed.

Lemma event_names_warnings_witness :
  let deleted := 1073742336 in
  let oneshot := 2147483904 in
  (exists out,
     stringifyEventBits deleted = Some out /\ filter is_warning out = []) /\
  (exists out,
     stringifyEventBits oneshot = Some out /\
     filter is_warning out = [msg_unrecognized 2147483648]).
Proof.
  intros deleted oneshot. split.
  - eexists. split; [vm_compute; reflexivity |].
    destruct (event_names_warnings deleted _ ltac:(unfold deleted; lia)
                ltac:(vm_compute; reflexivity)) as (H & _).
    exact H.
  - eexists. split; [vm_compute; reflexivity |].
    destruct (event_names_warnings oneshot _ ltac:(unfold oneshot; lia)
                ltac:(vm_compute; reflexivity)) as (H & _).
    exact H.
Defined.

(** ** The lines of the log *)

Lemma logx_eq E xstatus opt logtxt :
  logx E xstatus opt logtxt =
  (Print (if xstatus =? 0 then stdout else stderr)
         (log_line E (logx_text xstatus logtxt))
   :: (if syslog opt =? 1
       then [Syslog (sloglev opt) (log_line E (logx_text xstatus logtxt))]
       else []),
   if xstatus =? 0 then Done tt else Exit xstatus).
Proof.
  unfold logx, logx_text, when.
  destruct logtxt as [| c l]; cbn [strlen length Nat.leb];
    destruct (syslog opt =? 1), (xstatus =? 0); reflexivity.
Qed.

(** X20: with the options that [gig_opts] returns, [logx] prints one
    line, on [stdout] for status 0 and on [stderr] otherwise, made of
    the program name, the process id, the clock and the text, or a
    stock text when the text is empty; it hands the same line to
    [syslog], with a level between 0 and 7, exactly when [-s] was given
    with its argument; and it returns for status 0 and leaves the
    program with the status otherwise. *)
Theorem log_follows_options (E : env) (argv : list cstring) (opt : opts_t)
  (xstatus : Z) (logtxt : cstring) :
  result (gig_opts argv) = Done opt ->
  let line := log_line E (logx_text xstatus logtxt) in
  logx E xstatus opt logtxt =
  (Print (if xstatus =? 0 then stdout else stderr) line
   :: (if given "s" (fst (getopt_all (tl argv)))
       then [Syslog (sloglev opt) line] else []),
   if xstatus =? 0 then Done tt else Exit xstatus) /\
  0 <= sloglev opt <= 7.
Proof.
  intros Hres line.
  destruct (gig_opts_done argv opt Hres) as (opt1 & L & _ & Hopt).
  destruct L as [_ _ _ L4 L5 _ _ _ _ _ _ _ _ _].
  assert (Hlev : 0 <= sloglev opt1 <= 7) by (apply L5; cbn; lia).
  assert (Hsame : syslog opt = syslog opt1 /\ sloglev opt = sloglev opt1).
  { rewrite Hopt. destruct (snd (getopt_all (tl argv))); split; reflexivity. }
  destruct Hsame as (Hs & Hl).
  rewrite logx_eq, Hs, L4, Hl. fold line. split; [| exact Hlev].
  destruct (given "s" (fst (getopt_all (tl argv)))); reflexivity.
Qed.

Lemma log_follows_options_witness :
  let argv := [str "gidget"; str "-s"; str "4"] in
  exists opt,
    gig_opts argv = ([], Done opt) /\
    logx stub_machine 0 opt (str "daemon initialization") =
    ([Print stdout
        (str "gidget[4242]: 2011-02-15 12:00:00 daemon initialization" ++ [LF]);
      Syslog 4
        (str "gidget[4242]: 2011-02-15 12:00:00 daemon initialization" ++ [LF])],
     Done tt).
Proof.
  intros argv. eexists. split; [vm_compute; reflexivity |].
  destruct (log_follows_options stub_machine argv _ 0
              (str "daemon initialization") ltac:(vm_compute; reflexivity))
    as (H & _).
  exact H.
Defined.

(** ** The wait for events *)

Lemma signalTrap_done (sig sigpid siguid : Z) :
  signalTrap sig sigpid siguid = (trace (signalTrap sig sigpid siguid), Done tt).
Proof.
  unfold signalTrap, when.
  destruct (negb (sigpid =? 0) && negb (siguid =? 0)); reflexivity.
Qed.


(** A read that lets the daemon go on is followed by the next read. *)
Lemma wait_loop_goes_on E opt (r : read_t) :
  goes_on opt r = true ->
  exists t,
    forall more,
      wait_loop E opt (r :: more) = after_effects t (wait_loop E opt more).
Proof.
  intros Hgo. destruct r as [sig sigpid siguid reopened | len forked];
    cbn [goes_on] in Hgo; apply andb_true_iff in Hgo as (H1 & H2).
  - destruct (truthy (log2file opt)) eqn:Hl; cbn [negb orb] in H2.
    + destruct reopened as [[e1 |] [e2 |]]; try discriminate H2.
      eexists. intros more. cbn [wait_loop]. rewrite H1, Hl.
      rewrite signalTrap_done, bind_effects, logx_0, !bind_assoc, bind_effects.
      unfold reopenLogs. cbn [fst snd]. rewrite !bind_ret_l.
      rewrite after_effects_twice. reflexivity.
    + eexists. intros more. cbn [wait_loop]. rewrite H1, Hl.
      rewrite signalTrap_done, bind_effects, logx_0, bind_effects.
      rewrite after_effects_twice. reflexivity.
  - exists []. intros more. cbn [wait_loop]. rewrite H1, H2.
    now rewrite after_effects_nil.
Qed.

Lemma wait_loop_go_on E opt (reads : list read_t) :
  forallb (goes_on opt) reads = true ->
  exists t,
    forall more,
      wait_loop E opt (reads ++ more) = after_effects t (wait_loop E opt more).
Proof.
  induction reads as [| r reads IH]; cbn [forallb app].
  - intros _. exists []. intros more. now rewrite after_effects_nil.
  - intros H. apply andb_true_iff in H as (Hr & Hrs).
    destruct (wait_loop_goes_on E opt r Hr) as (t1 & H1).
    destruct (IH Hrs) as (t2 & H2).
    exists (t1 ++ t2). intros more.
    now rewrite H1, H2, after_effects_twice.
Qed.

(** X21: reads that let the daemon go on, which are the hangups whose
    reopening of the log, if there is a log file, succeeds, and the
    events for which [fork] gives the daemon a child, never make the
    daemon leave the loop: after any number of them it waits for the
    next read, and what it does then is what it would have done
    without them, behind the lines that they made it log. *)
Theorem daemon_goes_on_waiting (E : env) (opt : opts_t)
  (reads more : list read_t) :
  forallb (goes_on opt) reads = true ->
  result (wait_loop E opt reads) = Done Waiting /\
  result (wait_loop E opt (reads ++ more)) = result (wait_loop E opt more) /\
  trace (wait_loop E opt (reads ++ more)) =
  trace (wait_loop E opt reads) ++ trace (wait_loop E opt more).
Proof.
  intros Hgo. destruct (wait_loop_go_on E opt reads Hgo) as (t & Ht).
  pose proof (Ht []) as H0. rewrite app_nil_r in H0.
  rewrite H0, Ht. unfold after_effects.
  cbn [wait_loop ret trace result fst snd].
  rewrite app_nil_r. repeat split.
Qed.

Lemma daemon_goes_on_waiting_witness :
  let reads :=
    [Interrupted 1 0 0 (None, None); Returned 32 4243;
     Interrupted 1 77 1000 (None, None)] in
  let opt := set_log2file 1 opt_default in
  result (wait_loop stub_machine opt reads) = Done Waiting /\
  result (wait_loop stub_machine opt (reads ++ [Interrupted 15 0 0 (None, None)]))
  = Exit 0.
Proof.
  intros reads opt.
  destruct (daemon_goes_on_waiting stub_machine opt reads
              [Interrupted 15 0 0 (None, None)] eq_refl) as (Hw & Hr & _).
  split; [exact Hw |]. rewrite Hr. reflexivity.
Defined.

(** X22: the first read that does not let the daemon go on decides how
    the loop is left, whatever follows it.  A trapped signal other than
    the hangup makes the daemon leave with status 0; a hangup whose
    reopening of the log fails, with 1; a read that returns nothing or
    an error, with 7; a [fork] that fails, with 8; and only the child
    that [fork] gives for an event of positive length goes on to run
    the script. *)
Theorem first_decisive_read (E : env) (opt : opts_t)
  (before : list read_t) (r : read_t) (after : list read_t) :
  forallb (goes_on opt) before = true ->
  goes_on opt r = false ->
  result (wait_loop E opt (before ++ r :: after)) =
  match r with
  | Interrupted sig _ _ _ => if sig =? SIGHUP then Exit 1 else Exit 0
  | Returned len forked =>
      if len >? 0 then
        if forked <? 0 then Exit 8 else Done (Child len)
      else Exit 7
  end.
Proof.
  intros Hgo Hr. destruct (wait_loop_go_on E opt before Hgo) as (t & Ht).
  rewrite Ht. unfold after_effects at 1. cbn [result snd].
  destruct r as [sig sigpid siguid reopened | len forked];
    cbn [goes_on wait_loop] in *.
  - rewrite signalTrap_done, bind_effects. unfold after_effects.
    cbn [result snd].
    destruct (sig =? SIGHUP); cbn [andb] in Hr.
    + destruct (truthy (log2file opt)); cbn [negb orb] in Hr;
        [| discriminate Hr].
      rewrite result_bind, result_bind, result_logx. cbn [Z.eqb].
      unfold reopenLogs. rewrite result_bind.
      destruct reopened as [[e1 |] [e2 |]]; cbn [fst snd];
        try discriminate Hr; rewrite ?result_logx; reflexivity.
    + rewrite result_bind. unfold when.
      destruct (sig =? SIGINT); rewrite ?result_logx; cbn [result ret snd Z.eqb];
        rewrite result_bind, result_logx; reflexivity.
  - destruct (len >? 0); cbn [andb] in Hr.
    + rewrite Hr. rewrite result_bind. unfold when.
      destruct (forked <? 0); [now rewrite result_logx | reflexivity].
    + now rewrite result_bind, result_logx.
Qed.

Lemma first_decisive_read_witness :
  let opt := set_log2file 1 opt_default in
  let hup := Interrupted 1 0 0 (None, None) in
  result (wait_loop stub_machine opt
            [hup; Returned 32 4243; Interrupted 2 0 0 (None, None); hup])
  = Exit 0 /\
  result (wait_loop stub_machine opt [hup; Returned 32 0; hup])
  = Done (Child 32) /\
  result (wait_loop stub_machine opt [Interrupted 1 0 0 (None, Some 13); hup])
  = Exit 1 /\
  result (wait_loop stub_machine opt [Returned 0 0]) = Exit 7.
Proof.
  intros opt hup.
  split; [| split; [| split]].
  - apply (first_decisive_read stub_machine opt [hup; Returned 32 4243]
             (Interrupted 2 0 0 (None, None)) [hup]); reflexivity.
  - apply (first_decisive_read stub_machine opt [hup] (Returned 32 0) [hup]);
      reflexivity.
  - apply (first_decisive_read stub_machine opt []
             (Interrupted 1 0 0 (None, Some 13)) [hup]); reflexivity.
  - apply (first_decisive_read stub_machine opt [] (Returned 0 0) []);
      reflexivity.
Defined.
